(** * Relocate-Engine: the fixed-timestep physics update and the quit protocol

    A shallow embedding of [PhysicsSystem.cpp] (step extraction, the phases
    of [PhysicsSystem::update], interpolation, the gravity accessors) and of
    the quit / terminate / shutdown path of [Game.cpp] and [Scene.cpp].

    Numbers.  The C++ [float] is kept abstract behind the class [FloatOps]
    and the code is translated once, over that class.  Two instances are
    given: [binary32], the IEEE 754 single precision arithmetic the compiled
    code runs on (round to nearest even, from the Standard Library's
    [SpecFloat]), and [exact], the same operations on rationals without any
    rounding.  Statements that hold for every instance hold for the machine
    arithmetic in particular.  The C++ [int] is a [Z] inside the 32-bit
    range; a conversion that leaves the range is undefined and modelled by
    [None].

    Pointers.  A [b2Body*] is an address into the heap of bodies owned by
    the [b2World]; [nullptr] is [None].  Dereferencing an address that holds
    no body is undefined and modelled by [None] as well. *)

From stdpp Require Import base option list gmap.
From Stdlib Require Import ZArith QArith Qround Qabs Qminmax Lqa Lia.
From Stdlib Require Import Floats.SpecFloat.

Close Scope Q_scope.

(** ** The arithmetic of [float] *)

Class FloatOps (F : Type) : Type := {
  fadd : F -> F -> F;
  fsub : F -> F -> F;
  fmul : F -> F -> F;
  fdiv : F -> F -> F;
  (** [std::floor] *)
  ffloor : F -> F;
  (** the conversion of an [int] to [float] *)
  of_int : Z -> F;
  (** [static_cast<int>]: truncation, undefined outside the range of [int] *)
  to_int : F -> option Z
}.

Declare Scope float_scope.
Delimit Scope float_scope with flt.
Infix "+^" := fadd (at level 50, left associativity) : float_scope.
Infix "-^" := fsub (at level 50, left associativity) : float_scope.
Infix "*^" := fmul (at level 40, left associativity) : float_scope.
Infix "/^" := fdiv (at level 40, left associativity) : float_scope.

Definition INT_MIN : Z := (- 2 ^ 31)%Z.
Definition INT_MAX : Z := (2 ^ 31 - 1)%Z.

Definition in_int_range (z : Z) : bool :=
  ((INT_MIN <=? z) && (z <=? INT_MAX))%Z.

(** *** IEEE 754 binary32 *)

Definition b32_prec : Z := 24.
Definition b32_emax : Z := 128.

(** The largest integer not above a finite number [(-1)^s * m * 2^e]. *)
Definition b32_floor (x : spec_float) : spec_float :=
  match x with
  | S754_finite s m (Zneg p) =>
      binary_normalize b32_prec b32_emax
        (Z.shiftr (cond_Zopp s (Zpos m)) (Zpos p)) 0 s
  | _ => x
  end.

(** Truncation towards zero; not a number, infinities and values outside
    the range of [int] have no defined conversion. *)
Definition b32_to_int (x : spec_float) : option Z :=
  match x with
  | S754_zero _ => Some 0%Z
  | S754_finite s m e =>
      let a := match e with
               | Zneg p => Z.shiftr (Zpos m) (Zpos p)
               | _ => Z.shiftl (Zpos m) e
               end in
      let z := cond_Zopp s a in
      if in_int_range z then Some z else None
  | _ => None
  end.

Definition b32_of_int (z : Z) : spec_float :=
  binary_normalize b32_prec b32_emax z 0 false.

#[export] Instance binary32 : FloatOps spec_float := {
  fadd := SFadd b32_prec b32_emax;
  fsub := SFsub b32_prec b32_emax;
  fmul := SFmul b32_prec b32_emax;
  fdiv := SFdiv b32_prec b32_emax;
  ffloor := b32_floor;
  of_int := b32_of_int;
  to_int := b32_to_int
}.

(** Finite binary32 data: the zeros and the numbers within the format. *)
Definition b32_finite (x : spec_float) : Prop :=
  match x with
  | S754_zero _ => True
  | S754_finite _ m e => bounded b32_prec b32_emax m e = true
  | _ => False
  end.

(** The same binary32 datum, up to the sign of a zero. *)
Definition b32_same (x y : spec_float) : Prop :=
  x = y \/ exists s s' : bool, x = S754_zero s /\ y = S754_zero s'.

(** *** Exact arithmetic *)

Definition Qtrunc (q : Q) : Z :=
  if Qle_bool 0 q then Qfloor q else Qceiling q.

Definition exact_to_int (q : Q) : option Z :=
  let z := Qtrunc q in
  if in_int_range z then Some z else None.

#[export] Instance exact : FloatOps Q := {
  fadd := Qplus;
  fsub := Qminus;
  fmul := Qmult;
  fdiv := Qdiv;
  ffloor := fun q => inject_Z (Qfloor q);
  of_int := inject_Z;
  to_int := exact_to_int
}.

(** The class operations at the [exact] instance are those of [Q]. *)
Ltac exact_arith := cbn [fadd fsub fmul fdiv of_int ffloor to_int exact] in *.

(** ** Data model *)

(** [sf::Vector2f] (visual coordinates) and [b2Vec2] (physics coordinates)
    are two distinct pairs of floats. *)
Record Vector2f (F : Type) : Type := mkVector2f { sf_x : F; sf_y : F }.
Record b2Vec2 (F : Type) : Type := mkb2Vec2 { b2_x : F; b2_y : F }.
Arguments mkVector2f {F} _ _.
Arguments sf_x {F} _.
Arguments sf_y {F} _.
Arguments mkb2Vec2 {F} _ _.
Arguments b2_x {F} _.
Arguments b2_y {F} _.

Inductive b2BodyType : Type :=
  | b2_staticBody
  | b2_kinematicBody
  | b2_dynamicBody.

Definition is_static (ty : b2BodyType) : bool :=
  match ty with b2_staticBody => true | _ => false end.

(** What this code reads and writes of a Box2D body. *)
Record b2Body (F : Type) : Type := mkb2Body {
  m_type : b2BodyType;
  m_position : b2Vec2 F;
  m_angle : F;
  m_awake : bool;
  m_force : b2Vec2 F;
  m_torque : F
}.
Arguments mkb2Body {F} _ _ _ _ _ _.
Arguments m_type {F} _.
Arguments m_position {F} _.
Arguments m_angle {F} _.
Arguments m_awake {F} _.
Arguments m_force {F} _.
Arguments m_torque {F} _.

(** A [b2Body*]. *)
Definition BodyPtr : Type := nat.

Record b2World (F : Type) : Type := mkb2World {
  m_gravity : b2Vec2 F;
  m_bodies : gmap nat (b2Body F)
}.
Arguments mkb2World {F} _ _.
Arguments m_gravity {F} _.
Arguments m_bodies {F} _.

(** The [Transform] and [RigidBody] components, with the members
    [PhysicsSystem.cpp] uses. *)
Record Transform (F : Type) : Type := mkTransform {
  position : Vector2f F;
  rotation : F
}.
Arguments mkTransform {F} _ _.
Arguments position {F} _.
Arguments rotation {F} _.

Record RigidBody (F : Type) : Type := mkRigidBody {
  body_ : option BodyPtr;
  previousPosition_ : b2Vec2 F;
  previousAngle_ : F;
  isOutOfSync_ : bool;
  disposeList_ : list BodyPtr
}.
Arguments mkRigidBody {F} _ _ _ _ _.
Arguments body_ {F} _.
Arguments previousPosition_ {F} _.
Arguments previousAngle_ {F} _.
Arguments isOutOfSync_ {F} _.
Arguments disposeList_ {F} _.

(** An entity that owns both components; [world->each<Transform, RigidBody>]
    visits them in the order of the list. *)
Record Entity (F : Type) : Type := mkEntity {
  entity_id : nat;
  transform : Transform F;
  rigidBody : RigidBody F
}.
Arguments mkEntity {F} _ _ _.
Arguments entity_id {F} _.
Arguments transform {F} _.
Arguments rigidBody {F} _.

(** The operations a frame performs, in the order it performs them. *)
Inductive Call : Type :=
  | CallSyncOutOfSync (e : nat)
  | CallResetSmoothStates (e : nat)
  | CallSingleStep
  | CallClearForces
  | CallSmoothState (e : nat)
  | CallDestroyBody (b : BodyPtr)
  | CallClearDisposeList (e : nat).

Record PhysicsSystem (F : Type) : Type := mkPhysicsSystem {
  defaultGravity_ : Vector2f F;
  world_ : b2World F;
  timeStepAccumilator_ : F;
  fixedTimeStepRatio_ : F;
  (** ghost: the calls made so far, oldest first *)
  trace_ : list Call
}.
Arguments mkPhysicsSystem {F} _ _ _ _ _.
Arguments defaultGravity_ {F} _.
Arguments world_ {F} _.
Arguments timeStepAccumilator_ {F} _.
Arguments fixedTimeStepRatio_ {F} _.
Arguments trace_ {F} _.

Definition set_world {F} (bw : b2World F) (ps : PhysicsSystem F) : PhysicsSystem F :=
  mkPhysicsSystem (defaultGravity_ ps) bw (timeStepAccumilator_ ps)
    (fixedTimeStepRatio_ ps) (trace_ ps).

Definition set_accumulator {F} (acc ratio : F) (ps : PhysicsSystem F) : PhysicsSystem F :=
  mkPhysicsSystem (defaultGravity_ ps) (world_ ps) acc ratio (trace_ ps).

Definition logCall {F} (c : Call) (ps : PhysicsSystem F) : PhysicsSystem F :=
  mkPhysicsSystem (defaultGravity_ ps) (world_ ps) (timeStepAccumilator_ ps)
    (fixedTimeStepRatio_ ps) (trace_ ps ++ [c]).

(** ** The Box2D operations the system calls *)

Section Box2D.
Context {F : Type} `{FloatOps F}.

(** [float32 * b2Vec2] and [b2Vec2 + b2Vec2] of [b2Math.h]. *)
Definition b2Vec2_scale (s : F) (v : b2Vec2 F) : b2Vec2 F :=
  mkb2Vec2 (s *^ b2_x v)%flt (s *^ b2_y v)%flt.

Definition b2Vec2_add (a b : b2Vec2 F) : b2Vec2 F :=
  mkb2Vec2 (b2_x a +^ b2_x b)%flt (b2_y a +^ b2_y b)%flt.

Definition b2World_new (gravity : b2Vec2 F) : b2World F :=
  mkb2World gravity ∅.

Definition b2World_GetGravity (bw : b2World F) : b2Vec2 F := m_gravity bw.

Definition b2World_SetGravity (g : b2Vec2 F) (bw : b2World F) : b2World F :=
  mkb2World g (m_bodies bw).

Definition b2World_GetBodyCount (bw : b2World F) : nat := size (m_bodies bw).

(** [body->SetTransform(pos, angle)] *)
Definition b2Body_SetTransform (body : BodyPtr) (pos : b2Vec2 F) (angle : F)
    (bw : b2World F) : option (b2World F) :=
  b ← m_bodies bw !! body;
  Some (mkb2World (m_gravity bw)
          (<[body := mkb2Body (m_type b) pos angle (m_awake b) (m_force b) (m_torque b)]>
             (m_bodies bw))).

(** [body->SetAwake(flag)] *)
Definition b2Body_SetAwake (body : BodyPtr) (flag : bool)
    (bw : b2World F) : option (b2World F) :=
  b ← m_bodies bw !! body;
  Some (mkb2World (m_gravity bw)
          (<[body := mkb2Body (m_type b) (m_position b) (m_angle b) flag (m_force b) (m_torque b)]>
             (m_bodies bw))).

(** [world.ClearForces()]: force and torque of every body are zeroed. *)
Definition b2World_ClearForces (bw : b2World F) : b2World F :=
  mkb2World (m_gravity bw)
    ((fun b => mkb2Body (m_type b) (m_position b) (m_angle b) (m_awake b)
                 (mkb2Vec2 (of_int 0) (of_int 0)) (of_int 0)) <$> m_bodies bw).

(** [world.DestroyBody(d)]: the body is freed; freeing an address that
    holds no body is undefined. *)
Definition b2World_DestroyBody (d : BodyPtr) (bw : b2World F) : option (b2World F) :=
  _ ← m_bodies bw !! d;
  Some (mkb2World (m_gravity bw) (delete d (m_bodies bw))).
End Box2D.

(** ** [PhysicsSystem] *)

Section PhysicsSystem.
Context {F : Type} `{FloatOps F}.

(** Members declared in [PhysicsSystem.h], a header that is not among the
    sources: the fixed time step, the cap on steps per frame and the solver
    iteration counts are parameters. *)
Variable fixedTimeStep_ : F.
Variable maxSteps_ : Z.
Variable velocityIterations_ : Z.
Variable positionIterations_ : Z.

(** [b2World::Step], the integrator of Box2D: an opaque transformer of the
    physics world. *)
Variable b2World_Step : F -> Z -> Z -> b2World F -> b2World F.

(** [const float PhysicsSystem::scale = 100.f] *)
Definition scale : F := of_int 100.

Definition convertToSF (vec : b2Vec2 F) : Vector2f F :=
  mkVector2f (b2_x vec *^ scale)%flt (b2_y vec *^ scale)%flt.

Definition convertToB2 (vec : Vector2f F) : b2Vec2 F :=
  mkb2Vec2 (sf_x vec /^ scale)%flt (sf_y vec /^ scale)%flt.

(** The constructor; [fixedTimeStepRatio_] is not initialised by it. *)
Definition PhysicsSystem_new (ratio0 : F) : PhysicsSystem F :=
  let g := mkVector2f (of_int 0) (of_int 10) in
  mkPhysicsSystem g (b2World_new (mkb2Vec2 (sf_x g) (sf_y g))) (of_int 0) ratio0 [].

(** *** Gravity *)

Definition getGravity (ps : PhysicsSystem F) : Vector2f F :=
  convertToSF (b2World_GetGravity (world_ ps)).

Definition setGravity (gx gy : F) (ps : PhysicsSystem F) : PhysicsSystem F :=
  set_world (b2World_SetGravity (convertToB2 (mkVector2f gx gy)) (world_ ps)) ps.

Definition setGravityMult (m : F) (ps : PhysicsSystem F) : PhysicsSystem F :=
  let g := getGravity ps in
  setGravity (sf_x g *^ m)%flt (sf_y g *^ m)%flt ps.

(** *** Step extraction: lines 62-72 of [update]

    Returns [steps], [stepsClamped] and the system with the accumulator and
    the ratio stored. *)
Definition extractSteps (dt : F) (ps : PhysicsSystem F)
    : option (Z * Z * PhysicsSystem F) :=
  let acc := (timeStepAccumilator_ ps +^ dt)%flt in
  steps ← to_int (ffloor (acc /^ fixedTimeStep_)%flt);
  let acc := if (0 <? steps)%Z
             then (acc -^ of_int steps *^ fixedTimeStep_)%flt
             else acc in
  let ratio := (acc /^ fixedTimeStep_)%flt in
  Some (steps, Z.min steps maxSteps_, set_accumulator acc ratio ps).

(** *** The per-entity operations *)

(** The body of the first [each]: an out-of-sync body takes the pose of the
    transform. *)
Definition syncOutOfSync (t : Transform F) (r : RigidBody F) (bw : b2World F)
    : option (RigidBody F * b2World F) :=
  match isOutOfSync_ r, body_ r with
  | true, Some body =>
      let newPos := convertToB2 (position t) in
      let newRot := rotation t in
      bw ← b2Body_SetTransform body newPos newRot bw;
      bw ← b2Body_SetAwake body true bw;
      Some (mkRigidBody (body_ r) newPos newRot false (disposeList_ r), bw)
  | _, _ => Some (r, bw)
  end.

Definition resetSmoothStates (t : Transform F) (r : RigidBody F) (bw : b2World F)
    : option (RigidBody F) :=
  match body_ r with
  | Some body =>
      b ← m_bodies bw !! body;
      if is_static (m_type b) then Some r
      else Some (mkRigidBody (body_ r) (m_position b) (m_angle b)
                   (isOutOfSync_ r) (disposeList_ r))
  | None => Some r
  end.

Definition smoothState (ps : PhysicsSystem F) (t : Transform F) (rb : RigidBody F)
    : option (Transform F) :=
  match body_ rb with
  | Some body =>
      let oneMinusRatio := (of_int 1 -^ fixedTimeStepRatio_ ps)%flt in
      b ← m_bodies (world_ ps) !! body;
      if is_static (m_type b) then Some t
      else Some (mkTransform
                   (convertToSF
                      (b2Vec2_add
                         (b2Vec2_scale (fixedTimeStepRatio_ ps) (m_position b))
                         (b2Vec2_scale oneMinusRatio (previousPosition_ rb))))
                   (m_angle b))
  | None => Some t
  end.

(** [for (auto* d : r->disposeList_) world_.DestroyBody(d);] *)
Fixpoint destroyBodies (ds : list BodyPtr) (ps : PhysicsSystem F)
    : option (PhysicsSystem F) :=
  match ds with
  | [] => Some ps
  | d :: ds' =>
      bw ← b2World_DestroyBody d (world_ ps);
      destroyBodies ds' (logCall (CallDestroyBody d) (set_world bw ps))
  end.

Definition singleStep (timeStep : F) (ps : PhysicsSystem F) : PhysicsSystem F :=
  logCall CallSingleStep
    (set_world (b2World_Step timeStep velocityIterations_ positionIterations_ (world_ ps)) ps).

(** *** The three passes over the entities *)

(** [world->each<Transform, RigidBody>(f)]: [f] runs on every entity in
    order, with access to the entity's components and to the system. *)
Fixpoint each (f : Entity F -> PhysicsSystem F -> option (Entity F * PhysicsSystem F))
    (w : list (Entity F)) (ps : PhysicsSystem F)
    : option (list (Entity F) * PhysicsSystem F) :=
  match w with
  | [] => Some ([], ps)
  | e :: w' =>
      '(e', ps) ← f e ps;
      '(w'', ps) ← each f w' ps;
      Some (e' :: w'', ps)
  end.

Definition syncPass (e : Entity F) (ps : PhysicsSystem F)
    : option (Entity F * PhysicsSystem F) :=
  let ps := logCall (CallSyncOutOfSync (entity_id e)) ps in
  '(r, bw) ← syncOutOfSync (transform e) (rigidBody e) (world_ ps);
  Some (mkEntity (entity_id e) (transform e) r, set_world bw ps).

Definition resetPass (e : Entity F) (ps : PhysicsSystem F)
    : option (Entity F * PhysicsSystem F) :=
  let ps := logCall (CallResetSmoothStates (entity_id e)) ps in
  r ← resetSmoothStates (transform e) (rigidBody e) (world_ ps);
  Some (mkEntity (entity_id e) (transform e) r, ps).

Definition tweenPass (e : Entity F) (ps : PhysicsSystem F)
    : option (Entity F * PhysicsSystem F) :=
  let ps := logCall (CallSmoothState (entity_id e)) ps in
  t ← smoothState ps (transform e) (rigidBody e);
  ps ← destroyBodies (disposeList_ (rigidBody e)) ps;
  let r := rigidBody e in
  Some (mkEntity (entity_id e) t
          (mkRigidBody (body_ r) (previousPosition_ r) (previousAngle_ r)
             (isOutOfSync_ r) []),
        logCall (CallClearDisposeList (entity_id e)) ps).

(** [for (int i = 0; i < stepsClamped; ++i) { each(resetSmoothStates); singleStep(fixedTimeStep_); }] *)
Fixpoint stepLoop (n : nat) (w : list (Entity F)) (ps : PhysicsSystem F)
    : option (list (Entity F) * PhysicsSystem F) :=
  match n with
  | O => Some (w, ps)
  | S n' =>
      '(w, ps) ← each resetPass w ps;
      stepLoop n' w (singleStep fixedTimeStep_ ps)
  end.

(** *** [PhysicsSystem::update] *)
Definition update (w : list (Entity F)) (dt : F) (ps : PhysicsSystem F)
    : option (list (Entity F) * PhysicsSystem F) :=
  '(steps, stepsClamped, ps) ← extractSteps dt ps;
  '(w, ps) ← each syncPass w ps;
  '(w, ps) ← stepLoop (Z.to_nat stepsClamped) w ps;
  let ps := logCall CallClearForces (set_world (b2World_ClearForces (world_ ps)) ps) in
  each tweenPass w ps.

(** The linear blend the interpolation writes, in visual coordinates:
    [fraction * current + (1 - fraction) * previous]. *)
Definition tweenPosition (fraction : F) (current previous : b2Vec2 F) : Vector2f F :=
  convertToSF
    (b2Vec2_add (b2Vec2_scale fraction current)
       (b2Vec2_scale (of_int 1 -^ fraction)%flt previous)).

(** *** What a pass may change *)

(** What the passes before the interpolation may change of an entity:
    neither its identity, its transform, its body pointer nor its disposal
    list, and nothing at all when it has no body. *)
Definition kept (e e' : Entity F) : Prop :=
  entity_id e' = entity_id e
  /\ transform e' = transform e
  /\ body_ (rigidBody e') = body_ (rigidBody e)
  /\ disposeList_ (rigidBody e') = disposeList_ (rigidBody e)
  /\ (body_ (rigidBody e) = None -> rigidBody e' = rigidBody e).

(** The first two passes and the stepping leave the accumulator and the
    ratio alone. *)
Definition same_clock (ps ps' : PhysicsSystem F) : Prop :=
  timeStepAccumilator_ ps' = timeStepAccumilator_ ps
  /\ fixedTimeStepRatio_ ps' = fixedTimeStepRatio_ ps.

(** The last pass frees bodies and changes nothing else of the system. *)
Definition only_deletes (ps ps' : PhysicsSystem F) : Prop :=
  same_clock ps ps' /\ m_bodies (world_ ps') ⊆ m_bodies (world_ ps).

(** *** The calls of one frame, phase by phase *)

Definition syncCalls (w : list (Entity F)) : list Call :=
  map (fun e => CallSyncOutOfSync (entity_id e)) w.

Definition stepCalls (w : list (Entity F)) : list Call :=
  map (fun e => CallResetSmoothStates (entity_id e)) w ++ [CallSingleStep].

Definition tweenCalls (w : list (Entity F)) : list Call :=
  flat_map
    (fun e => CallSmoothState (entity_id e)
              :: map CallDestroyBody (disposeList_ (rigidBody e))
              ++ [CallClearDisposeList (entity_id e)])
    w.

Definition frameCalls (stepsToRun : nat) (w : list (Entity F)) : list Call :=
  syncCalls w
  ++ concat (replicate stepsToRun (stepCalls w))
  ++ [CallClearForces]
  ++ tweenCalls w.

Definition is_SingleStep (c : Call) : bool :=
  match c with CallSingleStep => true | _ => false end.

(** The number of fixed steps among some calls. *)
Definition stepsExecuted (calls : list Call) : nat :=
  length (filter (fun c => is_SingleStep c = true) calls).

End PhysicsSystem.

(** *** The handles and the disposal lists over a frame *)

(** The bodies queued for disposal, in the order the last pass frees
    them. *)
Definition disposed {F : Type} (w : list (Entity F)) : list BodyPtr :=
  flat_map (fun e => disposeList_ (rigidBody e)) w.

(** The handle is the same but for the previous pose. *)
Definition same_handle {F : Type} (e e' : Entity F) : Prop :=
  kept e e' /\ isOutOfSync_ (rigidBody e') = isOutOfSync_ (rigidBody e).

(** The flag after the first pass: consumed where there is a body. *)
Definition flag_consumed {F : Type} (e e' : Entity F) : Prop :=
  kept e e'
  /\ isOutOfSync_ (rigidBody e')
     = match body_ (rigidBody e) with
       | Some _ => false
       | None => isOutOfSync_ (rigidBody e)
       end.

(** ** [Game] and [Scene] *)

(** Modelled from the spec: [enum class Status] is declared in [Game.h], a
    header that is not among the sources; the states and their order are
    the spec's [Uninitialised -> Ready -> Running -> Quitting ->
    ShuttingDown], the order [status_ < Game::Status::ShuttingDown] compares
    by. *)
Inductive Status : Type :=
  | Uninitialised
  | Ready
  | Running
  | Quitting
  | ShuttingDown.

Definition Status_rank (s : Status) : nat :=
  match s with
  | Uninitialised => 0
  | Ready => 1
  | Running => 2
  | Quitting => 3
  | ShuttingDown => 4
  end.

Definition Status_ltb (a b : Status) : bool :=
  Status_rank a <? Status_rank b.

Definition Status_eqb (a b : Status) : bool :=
  Status_rank a =? Status_rank b.

(** [sf::RenderWindow* window_]: the pointer is null before [initialise] and
    dangles after [delete window_]. *)
Inductive Window : Type :=
  | WindowNull
  | WindowOpen
  | WindowClosed
  | WindowDeleted.

Definition Window_alive (w : Window) : bool :=
  match w with
  | WindowOpen | WindowClosed => true
  | WindowNull | WindowDeleted => false
  end.

(** [sf::Event], by its [type]. *)
Inductive Event : Type :=
  | Closed
  | Resized (width height : nat)
  | OtherEvent (code : nat).

Definition is_Closed (ev : Event) : bool :=
  match ev with Closed => true | _ => false end.

(** [std::thread]: a thread object is joinable from its construction until
    it is joined or detached. *)
Record Thread : Type := mkThread { joinable : bool }.

Definition Thread_new : Thread := mkThread true.
Definition Thread_detach (t : Thread) : Thread := mkThread false.

(** What the main thread does that the shutdown order is about. *)
Inductive Action : Type :=
  | ActSetStatus (s : Status)
  | ActWindowSetActive (b : bool)
  | ActThreadSpawn
  | ActThreadDetach
  | ActThreadJoin
  | ActThreadDelete
  | ActQuitHook (ok : bool)
  | ActWindowClose
  | ActWindowDelete
  | ActSceneEvent
  | ActSceneUpdate
  | ActRender
  | ActYield
  | ActDeleteScene.

Section Game.

(** The Lua state [Game::lua], the ECS world of a scene and [sf::Time] stay
    abstract; so do the systems [ECS::World::update] runs and
    [ControlSystem::handleInput]. *)
Variable LuaState : Type.
Variable ECSWorld : Type.
Variable Time : Type.
Variable ECSWorld_update : Time -> ECSWorld -> ECSWorld.
Variable ControlSystem_handleInput : Event -> LuaState -> LuaState.

(** A [sol::protected_function]: it may be nil ([valid()] is false); a call
    runs the script on the Lua state and yields whether the result is
    valid. *)
Record protected_function (A : Type) : Type := mkFunction {
  valid : bool;
  call : A -> LuaState -> bool * LuaState
}.
Arguments valid {A} _.
Arguments call {A} _ _ _.

Record Scene : Type := mkScene {
  hasBegun_ : bool;
  scene_world_ : ECSWorld;
  onBegin_ : protected_function unit;
  onShow_ : protected_function unit;
  onHide_ : protected_function unit;
  onUpdate_ : protected_function Time;
  onWindowEvent_ : protected_function Event;
  onQuit_ : protected_function unit
}.

(** The static members of [Game]. *)
Record Game : Type := mkGame {
  window_ : Window;
  view : nat * nat;
  multiThread_ : bool;
  status_ : Status;
  currentScene_ : option Scene;
  lua : LuaState;
  fps_ : nat;
  (** ghost: the actions taken so far, oldest first *)
  actions : list Action
}.

Definition act (a : Action) (g : Game) : Game :=
  mkGame (window_ g) (view g) (multiThread_ g) (status_ g) (currentScene_ g)
    (lua g) (fps_ g) (actions g ++ [a]).

Definition set_status (s : Status) (g : Game) : Game :=
  act (ActSetStatus s)
    (mkGame (window_ g) (view g) (multiThread_ g) s (currentScene_ g)
       (lua g) (fps_ g) (actions g)).

Definition set_window (w : Window) (g : Game) : Game :=
  mkGame w (view g) (multiThread_ g) (status_ g) (currentScene_ g)
    (lua g) (fps_ g) (actions g).

Definition set_view (v : nat * nat) (g : Game) : Game :=
  mkGame (window_ g) v (multiThread_ g) (status_ g) (currentScene_ g)
    (lua g) (fps_ g) (actions g).

Definition set_scene (sc : option Scene) (l : LuaState) (g : Game) : Game :=
  mkGame (window_ g) (view g) (multiThread_ g) (status_ g) sc
    l (fps_ g) (actions g).

Definition set_fps (n : nat) (g : Game) : Game :=
  mkGame (window_ g) (view g) (multiThread_ g) (status_ g) (currentScene_ g)
    (lua g) n (actions g).

(** [Game::terminate]: using the window through a null or dangling pointer
    is undefined. *)
Definition Game_terminate (g : Game) : option Game :=
  let g := set_status ShuttingDown g in
  if Window_alive (window_ g)
  then Some (act ActWindowDelete (set_window WindowDeleted (act ActWindowClose g)))
  else None.

(** The quit hook lets the game end: it is nil, or its call fails. *)
Definition hook_gives_way (h : protected_function unit) (l : LuaState) : bool :=
  negb (valid h) || negb (fst (call h tt l)).

(** [Scene::quit] *)
Definition Scene_quit (sc : Scene) (g : Game) : option Game :=
  let quitAnyway := negb (valid (onQuit_ sc)) in
  let '(quitAnyway, g) :=
    if negb quitAnyway then
      let '(ok, l) := call (onQuit_ sc) tt (lua g) in
      (negb ok, act (ActQuitHook ok) (set_scene (currentScene_ g) l g))
    else (quitAnyway, g) in
  if quitAnyway then Game_terminate g else Some g.

(** [Game::quit] *)
Definition Game_quit (g : Game) : option Game :=
  let g := set_status Quitting g in
  match currentScene_ g with
  | Some sc => Scene_quit sc g
  | None => Game_terminate g
  end.

(** [Game::shutdown] *)
Definition Game_shutdown (g : Game) : Game :=
  let g := set_status Uninitialised g in
  match currentScene_ g with
  | Some _ => act ActDeleteScene g
  | None => g
  end.

(** [Scene::update] and [Game::update] *)
Definition Scene_update (dt : Time) (sc : Scene) (l : LuaState) : Scene * LuaState :=
  let l := if valid (onUpdate_ sc) then snd (call (onUpdate_ sc) dt l) else l in
  (mkScene (hasBegun_ sc) (ECSWorld_update dt (scene_world_ sc)) (onBegin_ sc)
     (onShow_ sc) (onHide_ sc) (onUpdate_ sc) (onWindowEvent_ sc) (onQuit_ sc), l).

Definition Game_update (dt : Time) (g : Game) : Game :=
  match currentScene_ g with
  | Some sc =>
      let '(sc, l) := Scene_update dt sc (lua g) in
      act ActSceneUpdate (set_scene (Some sc) l g)
  | None => g
  end.

(** [Scene::handleEvent] and [Game::handleEvent] *)
Definition Scene_handleEvent (ev : Event) (sc : Scene) (l : LuaState) : LuaState :=
  let l := ControlSystem_handleInput ev l in
  if valid (onWindowEvent_ sc) then snd (call (onWindowEvent_ sc) ev l) else l.

Definition Game_handleEvent (ev : Event) (g : Game) : Game :=
  let g := match ev with
           | Resized width height => set_view (width, height) g
           | _ => g
           end in
  match currentScene_ g with
  | Some sc => act ActSceneEvent (set_scene (Some sc) (Scene_handleEvent ev sc (lua g)) g)
  | None => g
  end.

(** [Game::render]: clears, draws and displays on the window. *)
Definition Game_render (g : Game) : option Game :=
  if Window_alive (window_ g) then Some (act ActRender g) else None.

(** *** The main loop of [Game::start]

    What a turn of the loop reads from outside: the time since the last
    turn, whether the FPS clock has passed one second, whether
    [windowMutex_.try_lock()] succeeds, and the events the window has
    queued. *)
Record Frame : Type := mkFrame {
  elapsed_ : Time;
  fpsSecondPassed : bool;
  lockAcquired : bool;
  queued : list Event
}.

(** [for (auto ev : events)]: a [Closed] event quits, any other event goes
    to the scene. *)
Fixpoint processEvents (evs : list Event) (g : Game) : option Game :=
  match evs with
  | [] => Some g
  | ev :: evs' =>
      g ← (if is_Closed ev then Game_quit g else Some (Game_handleEvent ev g));
      processEvents evs' g
  end.

(** The end of a turn: the update, then the rendering in single-threaded
    mode (unless the game is shutting down) or the yield in multithreaded
    mode. *)
Definition updateAndRender (dt : Time) (g : Game) : option Game :=
  let g := Game_update dt g in
  if negb (multiThread_ g)
  then (if Status_ltb (status_ g) ShuttingDown then Game_render g else Some g)
  else Some (act ActYield g).

(** One turn of the loop.  Polling the events uses the window, which is
    undefined through a null or dangling pointer. *)
Definition loopBody (fr : Frame) (g : Game) (fpsFrame_ : nat) : option (Game * nat) :=
  let '(g, fpsFrame_) :=
    if fpsSecondPassed fr then (set_fps fpsFrame_ g, 0) else (g, fpsFrame_) in
  let fpsFrame_ := S fpsFrame_ in
  let process := if multiThread_ g then lockAcquired fr else true in
  g ← (if process
       then (if Window_alive (window_ g) then processEvents (queued fr) g else None)
       else Some g);
  g ← updateAndRender (elapsed_ fr) g;
  Some (g, fpsFrame_).

(** How a run over finitely many frames ends: in undefined behaviour, with
    the loop still turning when the frames are used up, or finished. *)
Inductive Outcome : Type :=
  | Undefined
  | StillRunning (g : Game)
  | Finished (g : Game).

(** [while (status_ < Game::Status::ShuttingDown)] *)
Fixpoint mainLoop (frames : list Frame) (g : Game) (fpsFrame_ : nat) : Outcome :=
  if Status_ltb (status_ g) ShuttingDown then
    match frames with
    | [] => StillRunning g
    | fr :: frames' =>
        match loopBody fr g fpsFrame_ with
        | Some (g, fpsFrame_) => mainLoop frames' g fpsFrame_
        | None => Undefined
        end
    end
  else Finished g.

(** [Game::start].  The render thread runs [handleRenderThread] on its own;
    what it does with the window is not part of this model of the main
    thread. *)
Definition Game_start (frames : list Frame) (g : Game) : Outcome :=
  if negb (Status_eqb (status_ g) Ready) then Finished g
  else if multiThread_ g && negb (Window_alive (window_ g)) then Undefined
  else
    let g := set_status Running g in
    let g := if multiThread_ g then act (ActWindowSetActive false) g else g in
    let renderThread :=
      if multiThread_ g then Some (Thread_detach Thread_new) else None in
    let g := if multiThread_ g then act ActThreadDetach (act ActThreadSpawn g) else g in
    match mainLoop frames g 0 with
    | Finished g =>
        let g :=
          match renderThread with
          | Some t =>
              if multiThread_ g && joinable t
              then act ActThreadDelete (act ActThreadJoin g)
              else g
          | None => g
          end in
        Finished (Game_shutdown g)
    | r => r
    end.

(** The events a turn of the loop processes: in multithreaded mode none
    when the lock of the window is not obtained. *)
Definition processed (multiThread : bool) (fr : Frame) : list Event :=
  if multiThread then (if lockAcquired fr then queued fr else []) else queued fr.

(** A turn that processes no [Closed] event. *)
Definition quiet (multiThread : bool) (fr : Frame) : Prop :=
  Forall (fun ev => is_Closed ev = false) (processed multiThread fr).

(** The quit hook of the current scene, if there is a scene. *)
Definition quitHook (g : Game) : option (protected_function unit) :=
  onQuit_ <$> currentScene_ g.

(** Nothing opposes the quit: there is no scene, or the quit hook of the
    scene gives way whatever the Lua state. *)
Definition unopposed (g : Game) : Prop :=
  match quitHook g with
  | Some h => forall l : LuaState, hook_gives_way h l = true
  | None => True
  end.

(** The steps of the quit and shutdown protocol among the actions: the
    changes of status and what happens to the window and to the scene.  The
    per-frame work and the handling of the render thread are not among
    them. *)
Definition is_protocol_step (a : Action) : bool :=
  match a with
  | ActSetStatus _ | ActWindowClose | ActWindowDelete | ActDeleteScene => true
  | _ => false
  end.

Definition protocol (l : list Action) : list Action :=
  filter (fun a => is_protocol_step a = true) l.

(** Between two states of the game: the window, the mode, the status and
    the quit hook are the same, and no step of the protocol was taken. *)
Definition steady (g g' : Game) : Prop :=
  window_ g' = window_ g
  /\ multiThread_ g' = multiThread_ g
  /\ status_ g' = status_ g
  /\ quitHook g' = quitHook g
  /\ protocol (actions g') = protocol (actions g).

End Game.

Arguments mkFunction {LuaState A} _ _.
Arguments valid {LuaState A} _.
Arguments call {LuaState A} _ _ _.
Arguments mkScene {LuaState ECSWorld Time} _ _ _ _ _ _ _ _.
Arguments hasBegun_ {LuaState ECSWorld Time} _.
Arguments scene_world_ {LuaState ECSWorld Time} _.
Arguments onBegin_ {LuaState ECSWorld Time} _.
Arguments onShow_ {LuaState ECSWorld Time} _.
Arguments onHide_ {LuaState ECSWorld Time} _.
Arguments onUpdate_ {LuaState ECSWorld Time} _.
Arguments onWindowEvent_ {LuaState ECSWorld Time} _.
Arguments onQuit_ {LuaState ECSWorld Time} _.
Arguments mkGame {LuaState ECSWorld Time} _ _ _ _ _ _ _ _.
Arguments window_ {LuaState ECSWorld Time} _.
Arguments view {LuaState ECSWorld Time} _.
Arguments multiThread_ {LuaState ECSWorld Time} _.
Arguments status_ {LuaState ECSWorld Time} _.
Arguments currentScene_ {LuaState ECSWorld Time} _.
Arguments lua {LuaState ECSWorld Time} _.
Arguments fps_ {LuaState ECSWorld Time} _.
Arguments actions {LuaState ECSWorld Time} _.
Arguments act {LuaState ECSWorld Time} _ _.
Arguments set_status {LuaState ECSWorld Time} _ _.
Arguments set_window {LuaState ECSWorld Time} _ _.
Arguments set_view {LuaState ECSWorld Time} _ _.
Arguments set_scene {LuaState ECSWorld Time} _ _ _.
Arguments set_fps {LuaState ECSWorld Time} _ _.
Arguments Game_terminate {LuaState ECSWorld Time} _.
Arguments hook_gives_way {LuaState} _ _.
Arguments Scene_quit {LuaState ECSWorld Time} _ _.
Arguments processed {Time} _ _.
Arguments quiet {Time} _ _.
Arguments steady {LuaState ECSWorld Time} _ _.
Arguments quitHook {LuaState ECSWorld Time} _.
Arguments unopposed {LuaState ECSWorld Time} _.
Arguments Game_quit {LuaState ECSWorld Time} _.
Arguments Game_shutdown {LuaState ECSWorld Time} _.
Arguments Scene_update {LuaState ECSWorld Time} _ _ _ _.
Arguments Game_update {LuaState ECSWorld Time} _ _ _.
Arguments Scene_handleEvent {LuaState ECSWorld Time} _ _ _ _.
Arguments Game_handleEvent {LuaState ECSWorld Time} _ _ _.
Arguments Game_render {LuaState ECSWorld Time} _.
Arguments mkFrame {Time} _ _ _ _.
Arguments elapsed_ {Time} _.
Arguments fpsSecondPassed {Time} _.
Arguments lockAcquired {Time} _.
Arguments queued {Time} _.
Arguments processEvents {LuaState ECSWorld Time} _ _ _.
Arguments updateAndRender {LuaState ECSWorld Time} _ _ _.
Arguments loopBody {LuaState ECSWorld Time} _ _ _ _ _.
Arguments Undefined {LuaState ECSWorld Time}.
Arguments StillRunning {LuaState ECSWorld Time} _.
Arguments Finished {LuaState ECSWorld Time} _.
Arguments mainLoop {LuaState ECSWorld Time} _ _ _ _ _.
Arguments Game_start {LuaState ECSWorld Time} _ _ _ _.

(** ** Events, states and the view over the turns *)

(** The [Closed] events among some events. *)
Definition closeRequests (evs : list Event) : nat :=
  length (filter (fun ev => is_Closed ev = true) evs).

(** The view after some events: that of the last [Resized] among them. *)
Definition viewAfter (v : nat * nat) (evs : list Event) : nat * nat :=
  foldl (fun v ev => match ev with Resized width height => (width, height) | _ => v end) v evs.

Section GameStates.
Context {LuaState ECSWorld Time : Type}.

(** The window is there as long as the loop may turn. *)
Definition usable (g : Game LuaState ECSWorld Time) : Prop :=
  Window_alive (window_ g) = true \/ status_ g = ShuttingDown.

(** The status is the same, or it was set by a quit. *)
Definition advanced (g g' : Game LuaState ECSWorld Time) : Prop :=
  status_ g' = status_ g \/ status_ g' = Quitting \/ status_ g' = ShuttingDown.

End GameStates.

(** ** The life cycle: [Game::initialise], [Game::switchScene] and the hooks
    that show and hide a [Scene] *)

Section Lifecycle.
Context {LuaState ECSWorld Time : Type}.

(** [Script::startLua], the run of [Assets/Scripts/GameConfig.lua] by
    [Game::lua.script_file] (with whether its result is valid) and
    [Script::registerSceneFunctions] act on the Lua state; [Scripting.h] is
    not among the sources and they stay abstract. *)
Variable Script_startLua : LuaState -> LuaState.
Variable script_file_GameConfig : LuaState -> bool * LuaState.
Variable Script_registerSceneFunctions : ECSWorld -> LuaState -> LuaState.

Definition set_multiThread (b : bool) (g : Game LuaState ECSWorld Time)
    : Game LuaState ECSWorld Time :=
  mkGame (window_ g) (view g) b (status_ g) (currentScene_ g)
    (lua g) (fps_ g) (actions g).

(** [Game::initialise]; [mode] is the width and the height of the
    [sf::VideoMode], which the default view of the new window covers.  The
    title only labels the window. *)
Definition Game_initialise (mode : nat * nat) (multiThread : bool)
    (g : Game LuaState ECSWorld Time) : Game LuaState ECSWorld Time :=
  if negb (Status_eqb (status_ g) Uninitialised) then g
  else
    let g := set_multiThread multiThread g in
    let '(functional, l) := script_file_GameConfig (Script_startLua (lua g)) in
    let g := set_scene (currentScene_ g) l g in
    if functional
    then set_status Ready (set_view mode (set_window WindowOpen g))
    else g.

(** [Scene::begin] *)
Definition Scene_begin (sc : Scene LuaState ECSWorld Time) (l : LuaState)
    : Scene LuaState ECSWorld Time * LuaState :=
  let l := if valid (onBegin_ sc) then snd (call (onBegin_ sc) tt l) else l in
  (mkScene true (scene_world_ sc) (onBegin_ sc) (onShow_ sc) (onHide_ sc)
     (onUpdate_ sc) (onWindowEvent_ sc) (onQuit_ sc), l).

(** [Scene::registerFunctions]: the environment of the scene is created
    inside the Lua state and published as [World]. *)
Definition Scene_registerFunctions (sc : Scene LuaState ECSWorld Time) (l : LuaState)
    : LuaState :=
  Script_registerSceneFunctions (scene_world_ sc) l.

(** [Scene::showScene] *)
Definition Scene_showScene (sc : Scene LuaState ECSWorld Time) (l : LuaState)
    : Scene LuaState ECSWorld Time * LuaState :=
  let '(sc, l) := if negb (hasBegun_ sc) then Scene_begin sc l else (sc, l) in
  let l := if valid (onShow_ sc) then snd (call (onShow_ sc) tt l) else l in
  (sc, l).

(** [Scene::hideScene] *)
Definition Scene_hideScene (sc : Scene LuaState ECSWorld Time) (l : LuaState)
    : LuaState :=
  if valid (onHide_ sc) then snd (call (onHide_ sc) tt l) else l.

(** [Game::switchScene]; [scene] is the scene the pointer leads to, [None]
    for [nullptr]. *)
Definition Game_switchScene (scene : option (Scene LuaState ECSWorld Time))
    (g : Game LuaState ECSWorld Time) : Game LuaState ECSWorld Time :=
  let l := match currentScene_ g with
           | Some old => Scene_hideScene old (lua g)
           | None => lua g
           end in
  match scene with
  | Some sc =>
      let l := Scene_registerFunctions sc l in
      let '(sc, l) := Scene_showScene sc l in
      set_scene (Some sc) l g
  | None => set_scene None l g
  end.

End Lifecycle.

(** ** Scenarios *)

(** A toy integrator for the examples: a step moves every body that is not
    static by [timeStep * gravity]. *)
Definition toy_Step {F : Type} `{FloatOps F} (timeStep : F) (_ _ : Z) (bw : b2World F)
    : b2World F :=
  mkb2World (m_gravity bw)
    ((fun b =>
        if is_static (m_type b) then b
        else mkb2Body (m_type b)
               (b2Vec2_add (m_position b) (b2Vec2_scale timeStep (m_gravity bw)))
               (m_angle b) (m_awake b) (m_force b) (m_torque b))
     <$> m_bodies bw).

(** [1.0f / 60.0f], the binary32 number next to one sixtieth. *)
Definition f60 : spec_float := (of_int 1 /^ of_int 60)%flt.

(** [3.0f / 2.0f] *)
Definition one_and_a_half : spec_float := (of_int 3 /^ of_int 2)%flt.

(** The binary32 number just below [3.0f * f60]: 13421773 * 2^-28. *)
Definition just_below_three_steps : spec_float := S754_finite false 13421773 (-28).

(** A freshly constructed system, in binary32 and in exact arithmetic. *)
Definition fresh32 : PhysicsSystem spec_float := PhysicsSystem_new (of_int 0).
Definition freshQ : PhysicsSystem Q := PhysicsSystem_new (of_int 0).

(** A scene of three entities in binary32: entity 0 is out of sync and
    owns the dynamic body 1, entity 1 has no body and the body 3 to dispose
    of, entity 2 owns the static body 2. *)
Definition demo_vec (x y : Z) : b2Vec2 spec_float := mkb2Vec2 (of_int x) (of_int y).

Definition demo_bodies : gmap nat (b2Body spec_float) :=
  <[1 := mkb2Body b2_dynamicBody (demo_vec 1 2) (of_int 0) false (demo_vec 7 0) (of_int 1)]>
    (<[2 := mkb2Body b2_staticBody (demo_vec 0 0) (of_int 0) false (demo_vec 0 0) (of_int 0)]>
       (<[3 := mkb2Body b2_dynamicBody (demo_vec 9 9) (of_int 2) true (demo_vec 0 0) (of_int 0)]>
          ∅)).

Definition demo_system : PhysicsSystem spec_float :=
  mkPhysicsSystem (mkVector2f (of_int 0) (of_int 10))
    (mkb2World (demo_vec 0 10) demo_bodies) (of_int 0) (of_int 0) [].

Definition demo_missing : RigidBody spec_float :=
  mkRigidBody None (demo_vec 0 0) (of_int 0) true [3].

Definition demo_world : list (Entity spec_float) :=
  [ mkEntity 0 (mkTransform (mkVector2f (of_int 300) (of_int 400)) (of_int 1))
      (mkRigidBody (Some 1) (demo_vec 0 0) (of_int 0) true []);
    mkEntity 1 (mkTransform (mkVector2f (of_int 5) (of_int 5)) (of_int 0)) demo_missing;
    mkEntity 2 (mkTransform (mkVector2f (of_int 0) (of_int 0)) (of_int 0))
      (mkRigidBody (Some 2) (demo_vec 0 0) (of_int 0) false []) ].

(** One frame of the demo scene: [dt] seconds with the constants of the
    spec's scenarios, eight velocity and three position iterations. *)
Definition demo_update (dt : spec_float)
    : option (list (Entity spec_float) * PhysicsSystem spec_float) :=
  update f60 5 8 3 toy_Step demo_world dt demo_system.

(** A game for the examples: the Lua state counts the calls of hooks, the
    ECS world counts the time units it has been updated for. *)
Definition demo_hook {A : Type} (ok : bool) : protected_function nat A :=
  mkFunction true (fun _ l => (ok, S l)).

Definition demo_nil {A : Type} : protected_function nat A :=
  mkFunction false (fun _ l => (false, l)).

Definition demo_scene (quit : protected_function nat unit) : Scene nat nat nat :=
  mkScene true 0 demo_nil demo_nil demo_nil (demo_hook true) (demo_hook true) quit.

Definition demo_game (multiThread : bool) (scene : option (Scene nat nat nat))
    : Game nat nat nat :=
  mkGame WindowOpen (800, 600) multiThread Ready scene 0 0 [].

Definition demo_ECSWorld_update (dt world : nat) : nat := world + dt.

Definition demo_handleInput (ev : Event) (l : nat) : nat := l.

Definition demo_start (frames : list (Frame nat)) (g : Game nat nat nat)
    : Outcome nat nat nat :=
  Game_start demo_ECSWorld_update demo_handleInput frames g.

(** Two turns: one that resizes the window, one that receives [Closed]. *)
Definition demo_frames : list (Frame nat) :=
  [ mkFrame 16 false true [Resized 640 480; OtherEvent 3];
    mkFrame 17 true true [OtherEvent 1; Closed; OtherEvent 2] ].

(** *** Scenarios for the properties beyond the claims *)

(** An entity whose body pointer leads nowhere: the world has no body 7. *)
Definition demo_dangling : list (Entity spec_float) :=
  [ mkEntity 0 (mkTransform (mkVector2f (of_int 0) (of_int 0)) (of_int 0))
      (mkRigidBody (Some 7) (demo_vec 0 0) (of_int 0) false []) ].

(** Entity 0 queues the body 1 for disposal while entity 1 still points to
    it. *)
Definition demo_reuse : list (Entity spec_float) :=
  [ mkEntity 0 (mkTransform (mkVector2f (of_int 0) (of_int 0)) (of_int 0))
      (mkRigidBody None (demo_vec 0 0) (of_int 0) false [1]);
    mkEntity 1 (mkTransform (mkVector2f (of_int 0) (of_int 0)) (of_int 0))
      (mkRigidBody (Some 1) (demo_vec 0 0) (of_int 0) false []) ].

(** A turn with no event and no tick of the FPS clock, and one at which
    that clock has passed a second. *)
Definition demo_idle : Frame nat := mkFrame 16 false true [].
Definition demo_tick : Frame nat := mkFrame 16 true true [].

(** Two turns that process no [Closed] event in multithreaded mode: the
    second does not obtain the lock of the window. *)
Definition demo_quiet_frames : list (Frame nat) :=
  [ mkFrame 16 false true [Resized 640 480; OtherEvent 3];
    mkFrame 17 true false [Closed] ].

(** A turn with two [Closed] events in its queue. *)
Definition demo_double_close : Frame nat :=
  mkFrame 17 false true [Closed; OtherEvent 1; Closed].

(** The game before [initialise], and scripts for the examples: the Lua
    state counts what has run on it. *)
Definition demo_uninitialised : Game nat nat nat :=
  mkGame WindowNull (0, 0) false Uninitialised None 0 0 [].

Definition demo_startLua (l : nat) : nat := S l.
Definition demo_GameConfig (ok : bool) (l : nat) : bool * nat := (ok, S l).
Definition demo_registerSceneFunctions (world l : nat) : nat := S l.

(** Eight turns, the third and the seventh of which tick the FPS clock. *)
Definition demo_ticks : list (Frame nat) :=
  [demo_idle; demo_idle; demo_tick; demo_idle; demo_idle; demo_idle; demo_tick; demo_idle].

(** * Properties *)

(** ** The passes over the entities *)

Section EachProperties.
Context {F : Type} `{FloatOps F}.

Section Each.
Variable f : Entity F -> PhysicsSystem F -> option (Entity F * PhysicsSystem F).

Lemma each_cons e w ps w' ps' :
  each f (e :: w) ps = Some (w', ps') ->
  exists e' ps1 w1, f e ps = Some (e', ps1) /\ each f w ps1 = Some (w1, ps') /\ w' = e' :: w1.
Proof.
  simpl. intros Hs.
  destruct (f e ps) as [[e' ps1]|] eqn:Hf; simpl in Hs; [|discriminate].
  destruct (each f w ps1) as [[w1 ps2]|] eqn:He; simpl in Hs; [|discriminate].
  inversion Hs; subst. eauto 6.
Qed.

Lemma each_length w : forall ps w' ps',
  each f w ps = Some (w', ps') -> length w' = length w.
Proof.
  induction w as [|e w IH]; intros ps w' ps' Hs.
  - inversion Hs. reflexivity.
  - apply each_cons in Hs as (e' & ps1 & w1 & _ & Hw & ->).
    simpl. f_equal. eauto.
Qed.

(** The calls a pass logs. *)
Lemma each_trace (g : Entity F -> list Call) :
  (forall e ps e' ps', f e ps = Some (e', ps') -> trace_ ps' = trace_ ps ++ g e) ->
  forall w ps w' ps',
  each f w ps = Some (w', ps') -> trace_ ps' = trace_ ps ++ flat_map g w.
Proof.
  intros Hf. induction w as [|e w IH]; intros ps w' ps' Hs.
  - inversion Hs. simpl. by rewrite app_nil_r.
  - apply each_cons in Hs as (e' & ps1 & w1 & He & Hw & ->).
    simpl. rewrite (IH _ _ _ Hw), (Hf _ _ _ _ He). by rewrite app_assoc.
Qed.

(** Every entity of the result comes from running the callback on the
    entity at the same place, in a state between the first and the last. *)
Lemma each_lookup (Q : PhysicsSystem F -> PhysicsSystem F -> Prop) :
  (forall ps, Q ps ps) ->
  (forall a b c, Q a b -> Q b c -> Q a c) ->
  (forall e ps e' ps', f e ps = Some (e', ps') -> Q ps ps') ->
  forall w ps w' ps',
  each f w ps = Some (w', ps') ->
  Q ps ps'
  /\ forall i e', w' !! i = Some e' ->
     exists e ps1 ps2,
       w !! i = Some e /\ Q ps ps1 /\ f e ps1 = Some (e', ps2) /\ Q ps2 ps'.
Proof.
  intros Hrefl Htrans Hf. induction w as [|e w IH]; intros ps w' ps' Hs.
  - inversion Hs; subst. split; [apply Hrefl|]. intros i e' Hi. by destruct i.
  - apply each_cons in Hs as (e' & ps1 & w1 & He & Hw & ->).
    destruct (IH _ _ _ Hw) as [Hq Hl]. pose proof (Hf _ _ _ _ He) as Hq1.
    split; [by eapply Htrans|].
    intros [|i] e2 Hi; simpl in Hi.
    + inversion Hi; subst. exists e, ps, ps1. auto.
    + destruct (Hl _ _ Hi) as (e0 & pa & pb & ? & ? & ? & ?).
      exists e0, pa, pb. repeat split; auto. by eapply Htrans.
Qed.

Lemma each_Forall2 (R : Entity F -> Entity F -> Prop) :
  (forall e ps e' ps', f e ps = Some (e', ps') -> R e e') ->
  forall w ps w' ps',
  each f w ps = Some (w', ps') -> Forall2 R w w'.
Proof.
  intros Hf. induction w as [|e w IH]; intros ps w' ps' Hs.
  - inversion Hs. constructor.
  - apply each_cons in Hs as (e' & ps1 & w1 & He & Hw & ->).
    constructor; eauto.
Qed.
End Each.

Lemma kept_refl (e : Entity F) : kept e e.
Proof. by repeat split. Qed.

Lemma kept_trans (a b c : Entity F) : kept a b -> kept b c -> kept a c.
Proof.
  intros (? & ? & Hb & ? & Hn) (? & ? & ? & ? & Hn').
  repeat split; try congruence.
  intros Hnone. rewrite Hn' by congruence. auto.
Qed.

Lemma Forall2_kept_refl (w : list (Entity F)) : Forall2 kept w w.
Proof. induction w; constructor; auto using kept_refl. Qed.

Lemma Forall2_kept_trans (a b c : list (Entity F)) :
  Forall2 kept a b -> Forall2 kept b c -> Forall2 kept a c.
Proof.
  intros Hab. revert c. induction Hab; intros c Hbc; inversion Hbc; subst;
    constructor; eauto using kept_trans.
Qed.

(** The calls of a phase depend on the identities and the disposal lists
    only. *)
Lemma kept_calls (w w' : list (Entity F)) :
  Forall2 kept w w' ->
  syncCalls w' = syncCalls w /\ stepCalls w' = stepCalls w /\ tweenCalls w' = tweenCalls w.
Proof.
  unfold stepCalls. induction 1 as [|e e' w w' (Hi & _ & _ & Hd & _) _ (IH1 & IH2 & IH3)];
    [done|].
  assert (map (fun e => CallResetSmoothStates (entity_id e)) w'
          = map (fun e => CallResetSmoothStates (entity_id e)) w) as Hm.
  { by apply app_inv_tail in IH2. }
  simpl. rewrite Hi, Hd, IH1, IH3, Hm. done.
Qed.

Lemma same_clock_refl (ps : PhysicsSystem F) : same_clock ps ps.
Proof. done. Qed.

Lemma same_clock_trans (a b c : PhysicsSystem F) :
  same_clock a b -> same_clock b c -> same_clock a c.
Proof. intros [? ?] [? ?]. split; congruence. Qed.

Lemma syncOutOfSync_kept (t : Transform F) (r : RigidBody F) (bw : b2World F) (r' : RigidBody F) (bw' : b2World F) :
  syncOutOfSync t r bw = Some (r', bw') ->
  body_ r' = body_ r /\ disposeList_ r' = disposeList_ r
  /\ (body_ r = None -> r' = r /\ bw' = bw).
Proof.
  unfold syncOutOfSync. intros Hs.
  destruct (isOutOfSync_ r), (body_ r) eqn:Hb; simplify_option_eq; auto.
  all: repeat split; auto; done.
Qed.

Lemma syncPass_spec (e : Entity F) (ps : PhysicsSystem F) (e' : Entity F) (ps' : PhysicsSystem F) :
  syncPass e ps = Some (e', ps') ->
  kept e e' /\ same_clock ps ps'
  /\ trace_ ps' = trace_ ps ++ [CallSyncOutOfSync (entity_id e)].
Proof.
  unfold syncPass. intros Hs.
  destruct (syncOutOfSync _ _ _) as [[r bw]|] eqn:Hr; simpl in Hs; [|discriminate].
  inversion Hs; subst; clear Hs. simpl in Hr.
  apply syncOutOfSync_kept in Hr as (? & ? & Hn).
  repeat split; simpl; auto. intros Hnone. by destruct (Hn Hnone).
Qed.

Lemma resetSmoothStates_kept (t : Transform F) (r : RigidBody F) (bw : b2World F) (r' : RigidBody F) :
  resetSmoothStates t r bw = Some r' ->
  body_ r' = body_ r /\ disposeList_ r' = disposeList_ r
  /\ (body_ r = None -> r' = r).
Proof.
  unfold resetSmoothStates. intros Hs.
  destruct (body_ r) as [b|] eqn:Hb.
  - destruct (m_bodies bw !! b) as [bd|]; simpl in Hs; [|discriminate].
    destruct (is_static (m_type bd)); inversion Hs; subst; simpl; done.
  - inversion Hs; subst. done.
Qed.

Lemma resetPass_spec (e : Entity F) (ps : PhysicsSystem F) (e' : Entity F) (ps' : PhysicsSystem F) :
  resetPass e ps = Some (e', ps') ->
  kept e e' /\ same_clock ps ps'
  /\ trace_ ps' = trace_ ps ++ [CallResetSmoothStates (entity_id e)].
Proof.
  unfold resetPass. intros Hs.
  destruct (resetSmoothStates _ _ _) as [r|] eqn:Hr; simpl in Hs; [|discriminate].
  inversion Hs; subst; clear Hs. simpl in Hr.
  apply resetSmoothStates_kept in Hr as (? & ? & Hn).
  repeat split; simpl; auto.
Qed.
End EachProperties.

Section PhysicsSystemProperties.
Context {F : Type} `{FloatOps F}.
Variable fixedTimeStep_ : F.
Variable maxSteps_ : Z.
Variable velocityIterations_ : Z.
Variable positionIterations_ : Z.
Variable b2World_Step : F -> Z -> Z -> b2World F -> b2World F.

Local Abbreviation singleStep' :=
  (singleStep velocityIterations_ positionIterations_ b2World_Step).
Local Abbreviation stepLoop' :=
  (stepLoop fixedTimeStep_ velocityIterations_ positionIterations_ b2World_Step).
Local Abbreviation update' :=
  (update fixedTimeStep_ maxSteps_ velocityIterations_ positionIterations_ b2World_Step).

Lemma flat_map_single {A B : Type} (g : A -> B) (l : list A) :
  flat_map (fun a => [g a]) l = map g l.
Proof. induction l as [|a l IH]; simpl; congruence. Qed.

Lemma syncPass_all (w : list (Entity F)) (ps : PhysicsSystem F) w' ps' :
  each syncPass w ps = Some (w', ps') ->
  Forall2 kept w w' /\ same_clock ps ps' /\ trace_ ps' = trace_ ps ++ syncCalls w.
Proof.
  intros Hs. split; [|split].
  - eapply each_Forall2; [|exact Hs]. intros. by eapply syncPass_spec.
  - eapply (each_lookup syncPass same_clock); eauto using same_clock_refl, same_clock_trans.
    intros. by eapply syncPass_spec.
  - unfold syncCalls. rewrite <- flat_map_single.
    eapply (each_trace syncPass (fun e => [CallSyncOutOfSync (entity_id e)])); [|exact Hs].
    intros. by eapply syncPass_spec.
Qed.

Lemma resetPass_all (w : list (Entity F)) (ps : PhysicsSystem F) w' ps' :
  each resetPass w ps = Some (w', ps') ->
  Forall2 kept w w' /\ same_clock ps ps'
  /\ trace_ ps' = trace_ ps ++ map (fun e => CallResetSmoothStates (entity_id e)) w.
Proof.
  intros Hs. split; [|split].
  - eapply each_Forall2; [|exact Hs]. intros. by eapply resetPass_spec.
  - eapply (each_lookup resetPass same_clock); eauto using same_clock_refl, same_clock_trans.
    intros. by eapply resetPass_spec.
  - rewrite <- flat_map_single.
    eapply (each_trace resetPass (fun e => [CallResetSmoothStates (entity_id e)])); [|exact Hs].
    intros. by eapply resetPass_spec.
Qed.

Lemma stepLoop_spec (n : nat) : forall (w : list (Entity F)) (ps : PhysicsSystem F) w' ps',
  stepLoop' n w ps = Some (w', ps') ->
  Forall2 kept w w' /\ same_clock ps ps'
  /\ trace_ ps' = trace_ ps ++ concat (replicate n (stepCalls w)).
Proof.
  induction n as [|n IH]; intros w ps w' ps' Hs; simpl in Hs.
  - inversion Hs; subst. simpl. rewrite app_nil_r.
    auto using Forall2_kept_refl, same_clock_refl.
  - destruct (each resetPass w ps) as [[w1 ps1]|] eqn:Hr; simpl in Hs; [|discriminate].
    apply resetPass_all in Hr as (Hk1 & Hc1 & Ht1).
    apply IH in Hs as (Hk2 & Hc2 & Ht2).
    destruct (kept_calls _ _ Hk1) as (_ & Hsc & _).
    split; [by eapply Forall2_kept_trans|]. split.
    + eapply same_clock_trans; [exact Hc1|]. eapply same_clock_trans; [|exact Hc2]. done.
    + rewrite Ht2, Hsc. simpl. rewrite Ht1. unfold stepCalls.
      by rewrite <- !app_assoc.
Qed.

Lemma only_deletes_refl (ps : PhysicsSystem F) : only_deletes ps ps.
Proof. split; [apply same_clock_refl|done]. Qed.

Lemma only_deletes_trans (a b c : PhysicsSystem F) :
  only_deletes a b -> only_deletes b c -> only_deletes a c.
Proof.
  intros [? ?] [? ?]. split; [by eapply same_clock_trans|]. by etrans.
Qed.

Lemma destroyBodies_spec (ds : list BodyPtr) : forall (ps ps' : PhysicsSystem F),
  destroyBodies ds ps = Some ps' ->
  only_deletes ps ps' /\ trace_ ps' = trace_ ps ++ map CallDestroyBody ds.
Proof.
  induction ds as [|d ds IH]; intros ps ps' Hs; simpl in Hs.
  - inversion Hs; subst. simpl. rewrite app_nil_r. auto using only_deletes_refl.
  - unfold b2World_DestroyBody in Hs.
    destruct (m_bodies (world_ ps) !! d) as [bd|]; simpl in Hs; [|discriminate].
    apply IH in Hs as [[[Ha Hr] Hsub] Ht]. simpl in *.
    split; [split; [done|]|].
    + etrans; [exact Hsub|]. apply delete_subseteq.
    + rewrite Ht. by rewrite <- app_assoc.
Qed.

Lemma tweenPass_spec (e : Entity F) (ps : PhysicsSystem F) (e' : Entity F) (ps' : PhysicsSystem F) :
  tweenPass e ps = Some (e', ps') ->
  entity_id e' = entity_id e
  /\ rigidBody e' = mkRigidBody (body_ (rigidBody e)) (previousPosition_ (rigidBody e))
                      (previousAngle_ (rigidBody e)) (isOutOfSync_ (rigidBody e)) []
  /\ smoothState (logCall (CallSmoothState (entity_id e)) ps) (transform e) (rigidBody e)
     = Some (transform e')
  /\ only_deletes ps ps'
  /\ trace_ ps' = trace_ ps
       ++ CallSmoothState (entity_id e)
          :: map CallDestroyBody (disposeList_ (rigidBody e))
          ++ [CallClearDisposeList (entity_id e)].
Proof.
  unfold tweenPass. intros Hs.
  destruct (smoothState _ _ _) as [t|] eqn:Ht; simpl in Hs; [|discriminate].
  destruct (destroyBodies _ _) as [ps1|] eqn:Hd; simpl in Hs; [|discriminate].
  inversion Hs; subst; clear Hs. simpl.
  apply destroyBodies_spec in Hd as [[[Ha Hr] Hsub] Htr]. simpl in *.
  repeat split; auto.
  rewrite Htr. rewrite <- !app_assoc. done.
Qed.

Lemma tweenPass_all (w : list (Entity F)) (ps : PhysicsSystem F) w' ps' :
  each tweenPass w ps = Some (w', ps') ->
  only_deletes ps ps' /\ trace_ ps' = trace_ ps ++ tweenCalls w.
Proof.
  intros Hs. split.
  - eapply (each_lookup tweenPass only_deletes);
      eauto using only_deletes_refl, only_deletes_trans.
    intros. by eapply tweenPass_spec.
  - eapply (each_trace tweenPass); [|exact Hs]. intros. by eapply tweenPass_spec.
Qed.

(** [update], phase by phase. *)
Lemma update_phases (w : list (Entity F)) (dt : F) (ps : PhysicsSystem F) w' ps' :
  update' w dt ps = Some (w', ps') ->
  exists steps stepsClamped ps1 w2 ps2,
    extractSteps fixedTimeStep_ maxSteps_ dt ps = Some (steps, stepsClamped, ps1)
    /\ Forall2 kept w w2
    /\ same_clock ps1 ps2
    /\ trace_ ps2 = trace_ ps ++ syncCalls w
                    ++ concat (replicate (Z.to_nat stepsClamped) (stepCalls w))
    /\ each tweenPass w2
         (logCall CallClearForces (set_world (b2World_ClearForces (world_ ps2)) ps2))
       = Some (w', ps').
Proof.
  unfold update. intros Hs.
  destruct (extractSteps _ _ _ _) as [[[steps clamped] ps1]|] eqn:He; simpl in Hs; [|discriminate].
  destruct (each syncPass w ps1) as [[w1 psa]|] eqn:Hsync; simpl in Hs; [|discriminate].
  destruct (stepLoop' _ w1 psa) as [[w2 ps2]|] eqn:Hloop; simpl in Hs; [|discriminate].
  apply syncPass_all in Hsync as (Hk1 & Hc1 & Ht1).
  apply stepLoop_spec in Hloop as (Hk2 & Hc2 & Ht2).
  destruct (kept_calls _ _ Hk1) as (_ & Hsc & _).
  exists steps, clamped, ps1, w2, ps2. split; [done|].
  split; [by eapply Forall2_kept_trans|]. split; [by eapply same_clock_trans|].
  split; [|done].
  rewrite Ht2, Ht1, Hsc, <- app_assoc. f_equal.
  unfold extractSteps in He.
  destruct (to_int _); simpl in He; [|discriminate]. by inversion He.
Qed.

Lemma extractSteps_spec (dt : F) (ps : PhysicsSystem F) (steps stepsClamped : Z) (ps1 : PhysicsSystem F) :
  extractSteps fixedTimeStep_ maxSteps_ dt ps = Some (steps, stepsClamped, ps1) ->
  let acc := (timeStepAccumilator_ ps +^ dt)%flt in
  to_int (ffloor (acc /^ fixedTimeStep_)%flt) = Some steps
  /\ stepsClamped = Z.min steps maxSteps_
  /\ timeStepAccumilator_ ps1
     = (if (0 <? steps)%Z then (acc -^ of_int steps *^ fixedTimeStep_)%flt else acc)
  /\ fixedTimeStepRatio_ ps1 = (timeStepAccumilator_ ps1 /^ fixedTimeStep_)%flt
  /\ world_ ps1 = world_ ps /\ trace_ ps1 = trace_ ps.
Proof.
  unfold extractSteps. intros Hs.
  destruct (to_int _) as [n|]; simpl in Hs; [|discriminate].
  inversion Hs; subst; clear Hs. simpl. done.
Qed.

Lemma stepsExecuted_app (a b : list Call) :
  stepsExecuted (a ++ b) = stepsExecuted a + stepsExecuted b.
Proof. unfold stepsExecuted. by rewrite filter_app, length_app. Qed.

Lemma stepsExecuted_frameCalls (n : nat) (w : list (Entity F)) :
  stepsExecuted (frameCalls n w) = n.
Proof.
  assert (forall l : list (Entity F), stepsExecuted (syncCalls l) = 0) as Hsync.
  { induction l; [done|]. unfold stepsExecuted in *. simpl.
    rewrite filter_cons_False; [done|]. simpl. done. }
  assert (forall l : list (Entity F), stepsExecuted (stepCalls l) = 1) as Hstep.
  { intros l. unfold stepCalls. rewrite stepsExecuted_app.
    assert (stepsExecuted (map (fun e : Entity F => CallResetSmoothStates (entity_id e)) l) = 0) as ->.
    { induction l; [done|]. unfold stepsExecuted in *. simpl.
      rewrite filter_cons_False; [done|]. simpl. done. }
    done. }
  assert (forall l : list (Entity F), stepsExecuted (tweenCalls l) = 0) as Htween.
  { induction l as [|e l IH]; [done|]. unfold tweenCalls. simpl.
    change (stepsExecuted
              (CallSmoothState (entity_id e)
               :: (map CallDestroyBody (disposeList_ (rigidBody e))
                   ++ [CallClearDisposeList (entity_id e)]) ++ tweenCalls l) = 0).
    unfold stepsExecuted at 1. rewrite filter_cons_False by done.
    fold (stepsExecuted ((map CallDestroyBody (disposeList_ (rigidBody e))
                   ++ [CallClearDisposeList (entity_id e)]) ++ tweenCalls l)).
    rewrite !stepsExecuted_app, IH.
    assert (stepsExecuted (map CallDestroyBody (disposeList_ (rigidBody e))) = 0) as ->.
    { induction (disposeList_ (rigidBody e)); [done|]. unfold stepsExecuted in *. simpl.
      rewrite filter_cons_False; [done|]. simpl. done. }
    done. }
  unfold frameCalls. rewrite !stepsExecuted_app, Hsync, Htween.
  assert (stepsExecuted (concat (replicate n (stepCalls w))) = n) as ->.
  { induction n as [|n IH]; [done|]. simpl. rewrite stepsExecuted_app, Hstep, IH. done. }
  simpl. unfold stepsExecuted. simpl. lia.
Qed.

(** The calls one [update] adds to the trace. *)
Lemma update_trace (w : list (Entity F)) (dt : F) (ps : PhysicsSystem F) w' ps'
    (steps stepsClamped : Z) (ps1 : PhysicsSystem F) :
  extractSteps fixedTimeStep_ maxSteps_ dt ps = Some (steps, stepsClamped, ps1) ->
  update' w dt ps = Some (w', ps') ->
  trace_ ps' = trace_ ps ++ frameCalls (Z.to_nat stepsClamped) w.
Proof.
  intros He Hu.
  apply update_phases in Hu as (s & c & p1 & w2 & ps2 & He' & Hk & Hc & Ht & Htw).
  rewrite He in He'. inversion He'; subst; clear He'.
  apply tweenPass_all in Htw as [_ Htr]. simpl in Htr.
  destruct (kept_calls _ _ Hk) as (_ & _ & Htc).
  rewrite Htr, Htc, Ht. unfold frameCalls. by rewrite <- !app_assoc.
Qed.

(** The accumulator and the ratio at the end of [update] are those the
    step extraction stored. *)
Lemma update_clock (w : list (Entity F)) (dt : F) (ps : PhysicsSystem F) w' ps'
    (steps stepsClamped : Z) (ps1 : PhysicsSystem F) :
  extractSteps fixedTimeStep_ maxSteps_ dt ps = Some (steps, stepsClamped, ps1) ->
  update' w dt ps = Some (w', ps') ->
  same_clock ps1 ps'.
Proof.
  intros He Hu.
  apply update_phases in Hu as (s & c & p1 & w2 & ps2 & He' & Hk & Hc & Ht & Htw).
  rewrite He in He'. inversion He'; subst; clear He'.
  apply tweenPass_all in Htw as [[Hcl _] _].
  eapply same_clock_trans; [exact Hc|]. exact Hcl.
Qed.

(** What the last pass has written for an entity whose body is attached,
    still alive at the end of the frame and not static. *)
Lemma update_tween (w : list (Entity F)) (dt : F) (ps : PhysicsSystem F) w' ps'
    (i : nat) (e' : Entity F) (b : BodyPtr) (bd : b2Body F) :
  update' w dt ps = Some (w', ps') ->
  w' !! i = Some e' ->
  body_ (rigidBody e') = Some b ->
  m_bodies (world_ ps') !! b = Some bd ->
  is_static (m_type bd) = false ->
  transform e'
  = mkTransform
      (tweenPosition (fixedTimeStepRatio_ ps') (m_position bd)
         (previousPosition_ (rigidBody e')))
      (m_angle bd).
Proof.
  intros Hu Hi Hb Hbd Hst.
  apply update_phases in Hu as (s & c & p1 & w2 & ps2 & _ & _ & _ & _ & Htw).
  eapply (each_lookup tweenPass only_deletes) in Htw as [_ Hl];
    eauto using only_deletes_refl, only_deletes_trans;
    [|intros; by eapply tweenPass_spec].
  destruct (Hl _ _ Hi) as (e2 & psa & psb & _ & _ & Hp & [[_ Hr2] Hsub2]).
  apply tweenPass_spec in Hp as (_ & Hrb & Hsm & [[_ Hr1] Hsub1] & _).
  rewrite Hrb in Hb |- *. simpl in Hb |- *.
  assert (m_bodies (world_ psa) !! b = Some bd) as Hlive.
  { eapply lookup_weaken; [|exact Hsub1]. eapply lookup_weaken; [|exact Hsub2]. done. }
  unfold smoothState in Hsm. rewrite Hb in Hsm. simpl in Hsm.
  rewrite Hlive in Hsm. simpl in Hsm. rewrite Hst in Hsm.
  inversion Hsm as [Ht]. unfold tweenPosition. by rewrite Hr2, Hr1.
Qed.
End PhysicsSystemProperties.

(** ** The phases of a frame *)

Section PhysicsSystemClaims.
Context {F : Type} `{FloatOps F}.
Variable fixedTimeStep_ : F.
Variable maxSteps_ : Z.
Variable velocityIterations_ : Z.
Variable positionIterations_ : Z.
Variable b2World_Step : F -> Z -> Z -> b2World F -> b2World F.

Local Abbreviation update' :=
  (update fixedTimeStep_ maxSteps_ velocityIterations_ positionIterations_ b2World_Step).


(** C7. For an entity whose body pointer is null, the out-of-sync
    synchronisation, the capture of the previous pose and the interpolation
    succeed and change neither the transform, nor the handle, nor the
    physics world; over a whole [update] such an entity keeps its transform
    and its handle, whose disposal list alone is emptied by the frame's
    disposal. *)
Theorem missing_body_is_noop (t : Transform F) (r : RigidBody F) :
  body_ r = None ->
  (forall bw : b2World F, syncOutOfSync t r bw = Some (r, bw))
  /\ (forall bw : b2World F, resetSmoothStates t r bw = Some r)
  /\ (forall ps : PhysicsSystem F, smoothState ps t r = Some t)
  /\ (forall (w : list (Entity F)) (dt : F) (ps : PhysicsSystem F)
             (w' : list (Entity F)) (ps' : PhysicsSystem F) (i : nat) (e : Entity F),
        update' w dt ps = Some (w', ps') ->
        w !! i = Some e -> transform e = t -> rigidBody e = r ->
        exists e' : Entity F,
          w' !! i = Some e'
          /\ transform e' = t
          /\ rigidBody e'
             = mkRigidBody None (previousPosition_ r) (previousAngle_ r)
                 (isOutOfSync_ r) []).
Proof.
  intros Hnull.
  assert (forall ps : PhysicsSystem F, smoothState ps t r = Some t) as Hsmooth.
  { intros ps. unfold smoothState. by rewrite Hnull. }
  split; [|split; [|split]]; [| |exact Hsmooth|].
  - intros bw. unfold syncOutOfSync. rewrite Hnull. by destruct (isOutOfSync_ r).
  - intros bw. unfold resetSmoothStates. by rewrite Hnull.
  - intros w dt ps w' ps' i e Hu Hi Ht Hr.
    apply update_phases in Hu as (s & c & p1 & w2 & ps2 & _ & Hk & _ & _ & Htw).
    destruct (Forall2_lookup_l _ _ _ _ _ Hk Hi) as (e2 & Hi2 & (_ & Ht2 & _ & _ & Hn2)).
    pose proof (each_length _ _ _ _ _ Htw) as Hlen.
    destruct (lookup_lt_is_Some_2 w' i) as [e' Hi'].
    { rewrite Hlen. by eapply lookup_lt_Some. }
    exists e'. split; [exact Hi'|].
    eapply (each_lookup tweenPass (fun _ _ => True)) in Htw as [_ Hl]; auto.
    destruct (Hl _ _ Hi') as (e3 & psa & psb & Hi3 & _ & Hp & _).
    rewrite Hi2 in Hi3. inversion Hi3; subst e3; clear Hi3.
    apply tweenPass_spec in Hp as (_ & Hrb & Hsm & _).
    rewrite Hn2 in Hrb, Hsm by (rewrite Hr; exact Hnull).
    rewrite Ht2, Ht, Hr, Hsmooth in Hsm. inversion Hsm as [Ht'].
    split; [done|]. rewrite Hrb, Hr, Hnull. done.
Qed.

(** C9. The interpolation writes the body's current angle as the rotation
    of an entity whose body is attached and not static, whatever the
    interpolation fraction and whatever the stored previous angle: both for
    one call of [smoothState] and for the transform an [update] leaves. *)
Theorem rotation_snaps_to_body_angle (b : BodyPtr) (bd : b2Body F) :
  is_static (m_type bd) = false ->
  (forall (ps : PhysicsSystem F) (t : Transform F) (rb : RigidBody F),
      body_ rb = Some b ->
      m_bodies (world_ ps) !! b = Some bd ->
      exists t' : Transform F,
        smoothState ps t rb = Some t' /\ rotation t' = m_angle bd)
  /\ (forall (w : list (Entity F)) (dt : F) (ps : PhysicsSystem F)
             (w' : list (Entity F)) (ps' : PhysicsSystem F) (i : nat) (e' : Entity F),
        update' w dt ps = Some (w', ps') ->
        w' !! i = Some e' ->
        body_ (rigidBody e') = Some b ->
        m_bodies (world_ ps') !! b = Some bd ->
        rotation (transform e') = m_angle bd).
Proof.
  intros Hst. split.
  - intros ps t rb Hb Hbd. unfold smoothState. rewrite Hb. simpl.
    rewrite Hbd. simpl. rewrite Hst. eexists. split; [reflexivity|]. done.
  - intros w dt ps w' ps' i e' Hu Hi Hb Hbd.
    by rewrite (update_tween _ _ _ _ _ _ _ _ _ _ _ _ _ _ Hu Hi Hb Hbd Hst).
Qed.
End PhysicsSystemClaims.

(** ** Exact arithmetic *)

Lemma Qtrunc_inject_Z (z : Z) : Qtrunc (inject_Z z) = z.
Proof.
  unfold Qtrunc. destruct (Qle_bool 0 (inject_Z z)).
  - apply Qfloor_Z.
  - apply Qceiling_Z.
Qed.

Lemma exact_to_int_floor (q : Q) :
  to_int (ffloor q) = if in_int_range (Qfloor q) then Some (Qfloor q) else None.
Proof.
  simpl. unfold exact_to_int. by rewrite Qtrunc_inject_Z.
Qed.

Lemma Qfloor_nonneg (q : Q) : (0 <= q)%Q -> (0 <= Qfloor q)%Z.
Proof.
  intros Hq. change 0%Z with (Qfloor 0). by apply Qfloor_resp_le.
Qed.

(** The whole steps in [a]: [n <= a / f < n + 1] read without division. *)
Lemma Qfloor_div_bounds (a f : Q) :
  (0 < f)%Q ->
  (inject_Z (Qfloor (a / f)) * f <= a)%Q
  /\ (a < (inject_Z (Qfloor (a / f)) + 1) * f)%Q.
Proof.
  intros Hf.
  assert (a / f * f == a)%Q as Hq by (field; lra).
  pose proof (Qfloor_le (a / f)) as Hle.
  pose proof (Qlt_floor (a / f)) as Hlt.
  rewrite inject_Z_plus in Hlt. change (inject_Z 1) with 1%Q in Hlt.
  split.
  - rewrite <- Hq at 2. apply Qmult_le_compat_r; lra.
  - rewrite <- Hq at 1. apply Qmult_lt_compat_r; lra.
Qed.

Lemma exact_extractSteps (f : Q) (maxSteps : Z) (dt : Q) (ps : PhysicsSystem Q) :
  (0 < f)%Q ->
  (0 <= timeStepAccumilator_ ps + dt)%Q ->
  (Qfloor ((timeStepAccumilator_ ps + dt) / f) <= INT_MAX)%Z ->
  exists ps1 : PhysicsSystem Q,
    extractSteps f maxSteps dt ps
    = Some (Qfloor ((timeStepAccumilator_ ps + dt) / f),
            Z.min (Qfloor ((timeStepAccumilator_ ps + dt) / f)) maxSteps, ps1)
    /\ (timeStepAccumilator_ ps1
        == timeStepAccumilator_ ps + dt
           - inject_Z (Qfloor ((timeStepAccumilator_ ps + dt) / f)) * f)%Q
    /\ (0 <= timeStepAccumilator_ ps1)%Q
    /\ (timeStepAccumilator_ ps1 < f)%Q.
Proof.
  intros Hf Ha Hmax.
  set (a := (timeStepAccumilator_ ps + dt)%Q) in *.
  assert (0 <= a / f)%Q as Hq.
  { apply Qle_shift_div_l; lra. }
  pose proof (Qfloor_nonneg _ Hq) as Hn.
  destruct (Qfloor_div_bounds a f Hf) as [Hlo Hhi].
  set (n := Qfloor (a / f)) in *.
  set (acc' := if (0 <? n)%Z then (a - inject_Z n * f)%Q else a).
  exists (set_accumulator acc' (acc' / f)%Q ps). split.
  - unfold extractSteps. rewrite exact_to_int_floor. exact_arith. fold a. fold n.
    assert (in_int_range n = true) as ->; [|reflexivity].
    unfold in_int_range, INT_MIN, INT_MAX in *.
    apply andb_true_intro. split; apply Z.leb_le; lia.
  - cbn [timeStepAccumilator_ set_accumulator]. unfold acc'.
    destruct (0 <? n)%Z eqn:Hpos.
    + split; [reflexivity|]. split; lra.
    + apply Z.ltb_ge in Hpos.
      assert (n = 0%Z) as Hz by lia.
      rewrite Hz in *. change (inject_Z 0) with 0%Q in *. split; [|split]; lra.
Qed.

Lemma Qfloor_unique (q : Q) (n : Z) :
  (inject_Z n <= q)%Q -> (q < inject_Z n + 1)%Q -> Qfloor q = n.
Proof.
  intros Hlo Hhi.
  pose proof (Qfloor_le q) as Hle. pose proof (Qlt_floor q) as Hlt.
  rewrite inject_Z_plus in Hlt. change (inject_Z 1) with 1%Q in Hlt.
  assert (inject_Z n < inject_Z (Qfloor q) + 1)%Q as H1 by lra.
  assert (inject_Z (Qfloor q) < inject_Z n + 1)%Q as H2 by lra.
  change 1%Q with (inject_Z 1) in H1, H2. rewrite <- inject_Z_plus in H1, H2.
  rewrite <- Zlt_Qlt in H1, H2. lia.
Qed.

(** In exact arithmetic one step extraction leaves the accumulator in
    [[0, fixedStep)] and the ratio in [[0, 1)]. *)
Lemma exact_extractSteps_invariant (f : Q) (maxSteps : Z) (dt : Q) (ps : PhysicsSystem Q)
    (steps stepsClamped : Z) (ps1 : PhysicsSystem Q) :
  (0 < f)%Q ->
  (0 <= timeStepAccumilator_ ps + dt)%Q ->
  extractSteps f maxSteps dt ps = Some (steps, stepsClamped, ps1) ->
  steps = Qfloor ((timeStepAccumilator_ ps + dt) / f)
  /\ (0 <= timeStepAccumilator_ ps1)%Q /\ (timeStepAccumilator_ ps1 < f)%Q
  /\ fixedTimeStepRatio_ ps1 = (timeStepAccumilator_ ps1 / f)%Q
  /\ (0 <= fixedTimeStepRatio_ ps1)%Q /\ (fixedTimeStepRatio_ ps1 < 1)%Q.
Proof.
  intros Hf Ha He.
  pose proof (extractSteps_spec _ _ _ _ _ _ _ He) as (Hs & _ & _ & Hr & _).
  rewrite exact_to_int_floor in Hs. exact_arith.
  destruct (in_int_range _) eqn:Hrange; [|discriminate]. inversion Hs as [Hn].
  unfold in_int_range in Hrange. apply andb_prop in Hrange as [_ Hmax].
  apply Z.leb_le in Hmax.
  destruct (exact_extractSteps f maxSteps dt ps Hf Ha Hmax) as (ps1' & He' & _ & Hlo & Hhi).
  rewrite He in He'. inversion He'; subst ps1'.
  split; [done|]. split; [done|]. split; [done|]. split; [done|].
  rewrite Hr. split.
  - apply Qle_shift_div_l; lra.
  - apply Qlt_shift_div_r; lra.
Qed.

(** What one [update] does with the clock, for any arithmetic. *)
Lemma update_contract {F : Type} `{FloatOps F} (fixedTimeStep_ : F) (maxSteps_ vi pi : Z)
    (step : F -> Z -> Z -> b2World F -> b2World F)
    (w : list (Entity F)) (dt : F) (ps : PhysicsSystem F)
    (w' : list (Entity F)) (ps' : PhysicsSystem F) :
  update fixedTimeStep_ maxSteps_ vi pi step w dt ps = Some (w', ps') ->
  let acc := (timeStepAccumilator_ ps +^ dt)%flt in
  exists (steps : Z) (calls : list Call),
    to_int (ffloor (acc /^ fixedTimeStep_)%flt) = Some steps
    /\ timeStepAccumilator_ ps'
       = (if (0 <? steps)%Z then (acc -^ of_int steps *^ fixedTimeStep_)%flt else acc)
    /\ fixedTimeStepRatio_ ps' = (timeStepAccumilator_ ps' /^ fixedTimeStep_)%flt
    /\ trace_ ps' = trace_ ps ++ calls
    /\ stepsExecuted calls = Z.to_nat (Z.min steps maxSteps_).
Proof.
  intros Hu acc.
  destruct (update_phases _ _ _ _ _ _ _ _ _ _ Hu)
    as (steps & clamped & ps1 & _ & _ & He & _).
  pose proof (update_trace _ _ _ _ _ _ _ _ _ _ _ _ _ He Hu) as Ht.
  pose proof (update_clock _ _ _ _ _ _ _ _ _ _ _ _ _ He Hu) as [Hacc Hratio].
  apply extractSteps_spec in He as (Hsteps & -> & Ha & Hr & _).
  exists steps, (frameCalls (Z.to_nat (Z.min steps maxSteps_)) w).
  split; [exact Hsteps|]. split; [by rewrite Hacc|].
  split; [by rewrite Hratio, Hacc|]. split; [exact Ht|].
  apply stepsExecuted_frameCalls.
Qed.


(** ** The step extraction, scenario of one second *)

(** The scenario of one second at sixty steps per second, in exact
    arithmetic: sixty steps are drained whatever the accumulator held. *)
Lemma exact_one_second (acc : Q) :
  (0 <= acc)%Q -> (acc < 1 # 60)%Q ->
  Qfloor ((acc + 1) / (1 # 60)) = 60%Z
  /\ (acc + 1 - inject_Z 60 * (1 # 60) == acc)%Q.
Proof.
  intros H0 H1. split.
  - apply Qfloor_unique.
    + assert ((acc + 1) / (1 # 60) == (acc + 1) * 60)%Q as -> by (field; lra).
      change (inject_Z 60) with 60%Q. lra.
    + assert ((acc + 1) / (1 # 60) == (acc + 1) * 60)%Q as -> by (field; lra).
      change (inject_Z 60) with 60%Q. lra.
  - change (inject_Z 60) with 60%Q. lra.
Qed.

(** C1 (amended). The contract of the step extraction, every operation
    computed in the arithmetic of [float]: one [update] adds [elapsed] to the
    accumulator, takes [steps = floor (accumulator / fixedStep)], subtracts
    [steps * fixedStep] when [steps > 0], stores [accumulator / fixedStep] as
    the ratio and runs [min steps maxSteps] fixed steps.  With [maxSteps = 5]
    and one second elapsed five steps run and the time of the other
    extracted steps is dropped, not deferred: in exact arithmetic with
    [fixedStep = 1/60] all sixty steps are drained and the accumulator is
    back at the value it had; in binary32 with [fixedStep = 1.0f / 60.0f]
    the quotient rounds below sixty, fifty-nine steps are drained and the
    accumulator keeps 8947808 * 2^-29 seconds, just under one step. *)
Theorem step_extraction_contract :
  (forall (F : Type) (ops : FloatOps F) (fixedStep : F) (maxSteps vi pi : Z)
          (step : F -> Z -> Z -> b2World F -> b2World F)
          (w : list (Entity F)) (elapsed : F) (ps : PhysicsSystem F)
          (w' : list (Entity F)) (ps' : PhysicsSystem F),
      update fixedStep maxSteps vi pi step w elapsed ps = Some (w', ps') ->
      let acc := (timeStepAccumilator_ ps +^ elapsed)%flt in
      exists (steps : Z) (calls : list Call),
        to_int (ffloor (acc /^ fixedStep)%flt) = Some steps
        /\ timeStepAccumilator_ ps'
           = (if (0 <? steps)%Z then (acc -^ of_int steps *^ fixedStep)%flt else acc)
        /\ fixedTimeStepRatio_ ps' = (timeStepAccumilator_ ps' /^ fixedStep)%flt
        /\ trace_ ps' = trace_ ps ++ calls
        /\ stepsExecuted calls = Z.to_nat (Z.min steps maxSteps))
  /\ (forall (vi pi : Z) (step : Q -> Z -> Z -> b2World Q -> b2World Q)
             (w : list (Entity Q)) (ps : PhysicsSystem Q)
             (w' : list (Entity Q)) (ps' : PhysicsSystem Q),
        (0 <= timeStepAccumilator_ ps)%Q ->
        (timeStepAccumilator_ ps < 1 # 60)%Q ->
        update (1 # 60)%Q 5 vi pi step w 1%Q ps = Some (w', ps') ->
        exists calls : list Call,
          Qfloor ((timeStepAccumilator_ ps + 1) / (1 # 60)) = 60%Z
          /\ trace_ ps' = trace_ ps ++ calls
          /\ stepsExecuted calls = 5
          /\ (timeStepAccumilator_ ps' == timeStepAccumilator_ ps)%Q)
  /\ (forall (vi pi : Z) (step : spec_float -> Z -> Z -> b2World spec_float -> b2World spec_float)
             (w : list (Entity spec_float)) (ps : PhysicsSystem spec_float)
             (w' : list (Entity spec_float)) (ps' : PhysicsSystem spec_float),
        timeStepAccumilator_ ps = S754_zero false ->
        update f60 5 vi pi step w (of_int 1) ps = Some (w', ps') ->
        exists calls : list Call,
          to_int (ffloor ((timeStepAccumilator_ ps +^ of_int 1) /^ f60)%flt) = Some 59%Z
          /\ trace_ ps' = trace_ ps ++ calls
          /\ stepsExecuted calls = 5
          /\ timeStepAccumilator_ ps' = S754_finite false 8947808 (-29)
          /\ SFltb (timeStepAccumilator_ ps') f60 = true).
Proof.
  split; [|split].
  - intros F ops fixedStep maxSteps vi pi step w elapsed ps w' ps' Hu.
    exact (update_contract _ _ _ _ _ _ _ _ _ _ Hu).
  - intros vi pi step w ps w' ps' H0 H1 Hu.
    destruct (update_contract _ _ _ _ _ _ _ _ _ _ Hu)
      as (steps & calls & Hs & Ha & _ & Ht & Hn).
    destruct (exact_one_second _ H0 H1) as [Hfl Hacc].
    rewrite exact_to_int_floor in Hs. exact_arith. rewrite Hfl in Hs.
    change (in_int_range 60) with true in Hs. inversion Hs; subst steps.
    exists calls. repeat split; auto.
    rewrite Ha. change (0 <? 60)%Z with true. cbv iota. exact Hacc.
  - intros vi pi step w ps w' ps' H0 Hu.
    destruct (update_contract _ _ _ _ _ _ _ _ _ _ Hu)
      as (steps & calls & Hs & Ha & _ & Ht & Hn).
    rewrite H0 in Hs, Ha.
    assert (to_int (ffloor ((S754_zero false +^ of_int 1) /^ f60)%flt) = Some 59%Z) as Hc
      by (vm_compute; reflexivity).
    rewrite Hc in Hs. inversion Hs; subst steps.
    assert (timeStepAccumilator_ ps' = S754_finite false 8947808 (-29)) as Hacc.
    { rewrite Ha. vm_compute. reflexivity. }
    exists calls. rewrite H0.
    split; [exact Hc|]. split; [exact Ht|]. split; [exact Hn|]. split; [exact Hacc|].
    rewrite Hacc. vm_compute. reflexivity.
Qed.

(** ** Interpolation *)

(** *** binary32: multiplying by [1.0f] is exact *)

Lemma bounded_inv (m : positive) (e : Z) :
  bounded b32_prec b32_emax m e = true ->
  fexp b32_prec b32_emax (Zpos (digits2_pos m) + e) = e /\ (e <= 104)%Z.
Proof.
  unfold bounded, canonical_mantissa. intros Hb.
  apply andb_prop in Hb as [Hc He].
  apply Z.eqb_eq in Hc. apply Z.leb_le in He.
  unfold b32_emax, b32_prec in He. split; [exact Hc|lia].
Qed.

Lemma Zdigits2_mul_2p23 (m : positive) :
  Zdigits2 (Zpos (8388608 * m)) = (Zpos (digits2_pos m) + 23)%Z.
Proof.
  change (8388608 * m)%positive
    with (m~0~0~0~0~0~0~0~0~0~0~0~0~0~0~0~0~0~0~0~0~0~0~0)%positive.
  cbn [Zdigits2 digits2_pos]. lia.
Qed.

Lemma shr_mul_2p23 (m : positive) (e : Z) :
  shr (Build_shr_record (Zpos (8388608 * m)) false false) e 23
  = (Build_shr_record (Zpos m) false false, (e + 23)%Z).
Proof. reflexivity. Qed.

Lemma b32_mul_one (s : bool) (m : positive) (e : Z) :
  bounded b32_prec b32_emax m e = true ->
  SFmul b32_prec b32_emax (S754_finite false 8388608 (-23)) (S754_finite s m e)
  = S754_finite s m e.
Proof.
  intros Hb. apply bounded_inv in Hb as [Hc He].
  unfold SFmul, binary_round_aux, shr_fexp.
  rewrite Zdigits2_mul_2p23. simpl xorb. simpl shr_record_of_loc.
  replace (Zpos (digits2_pos m) + 23 + (-23 + e))%Z with (Zpos (digits2_pos m) + e)%Z by lia.
  rewrite Hc.
  replace (e - (-23 + e))%Z with 23%Z by lia.
  rewrite shr_mul_2p23.
  simpl shr_m. simpl loc_of_shr_record. simpl round_nearest_even.
  replace (-23 + e + 23)%Z with e by lia.
  simpl Zdigits2. rewrite Hc, Z.sub_diag. simpl.
  replace (e <=? b32_emax - b32_prec)%Z with true; [reflexivity|].
  symmetry. apply Z.leb_le. unfold b32_emax, b32_prec. lia.
Qed.

(** One component of the blend at fraction zero. *)
Lemma b32_blend_at_zero (sz : bool) (c p : spec_float) :
  b32_finite c -> b32_finite p ->
  b32_same
    (((S754_zero sz *^ c) +^ ((of_int 1 -^ S754_zero sz) *^ p)) *^ of_int 100)%flt
    (p *^ of_int 100)%flt.
Proof.
  intros Hc Hp.
  assert ((of_int 1 -^ S754_zero sz)%flt = S754_finite false 8388608 (-23)) as ->.
  { by destruct sz. }
  destruct p as [sp| | |sp mp ep]; try done.
  - right. destruct c as [sc| | |sc mc ec]; try done.
    + exists (xorb (if Bool.eqb (xorb sz sc) sp then sp else false) false), (xorb sp false).
      destruct sz, sc, sp; split; reflexivity.
    + exists (xorb (if Bool.eqb (xorb sz sc) sp then sp else false) false), (xorb sp false).
      destruct sz, sc, sp; split; reflexivity.
  - left. cbn [fmul fadd binary32].
    rewrite (b32_mul_one sp mp ep Hp).
    destruct c as [sc| | |sc mc ec]; try done.
Qed.

(** *** Exact arithmetic: the blend is affine in the fraction *)

Lemma exact_blend_offset (fraction c p : Q) :
  ((fraction * c + (inject_Z 1 - fraction) * p) * inject_Z 100 - c * inject_Z 100
   == (1 - fraction) * (p * inject_Z 100 - c * inject_Z 100))%Q.
Proof. change (inject_Z 1) with 1%Q. ring. Qed.

Lemma exact_blend_converges (c p eps : Q) :
  (0 < eps)%Q ->
  exists delta : Q,
    (0 < delta)%Q
    /\ forall fraction : Q,
         (1 - delta < fraction)%Q -> (fraction < 1)%Q ->
         (Qabs ((fraction * c + (inject_Z 1 - fraction) * p) * inject_Z 100
                - c * inject_Z 100) < eps)%Q.
Proof.
  intros Heps.
  set (d := Qabs (p * inject_Z 100 - c * inject_Z 100)).
  assert (0 <= d)%Q as Hd by apply Qabs_nonneg.
  exists (eps / (d + 1))%Q. split.
  - apply Qlt_shift_div_l; lra.
  - intros fraction Hlo Hhi.
    rewrite exact_blend_offset, Qabs_Qmult. fold d.
    rewrite (Qabs_pos (1 - fraction)) by lra.
    assert ((1 - fraction) * (d + 1) < eps)%Q as Hlt.
    { assert (1 - fraction < eps / (d + 1))%Q as H1 by lra.
      apply (Qmult_lt_compat_r _ _ (d + 1)) in H1; [|lra].
      assert (eps / (d + 1) * (d + 1) == eps)%Q as Hq by (field; lra).
      lra. }
    assert (0 <= (1 - fraction) * 1)%Q by lra.
    assert ((1 - fraction) * d <= (1 - fraction) * d + (1 - fraction) * 1)%Q by lra.
    lra.
Qed.

Lemma smoothState_attached {F : Type} `{FloatOps F} (ps : PhysicsSystem F)
    (t : Transform F) (rb : RigidBody F) (b : BodyPtr) (bd : b2Body F) :
  body_ rb = Some b ->
  m_bodies (world_ ps) !! b = Some bd ->
  is_static (m_type bd) = false ->
  smoothState ps t rb
  = Some (mkTransform
            (tweenPosition (fixedTimeStepRatio_ ps) (m_position bd) (previousPosition_ rb))
            (m_angle bd)).
Proof.
  intros Hb Hbd Hst. unfold smoothState. rewrite Hb. simpl.
  rewrite Hbd. simpl. by rewrite Hst.
Qed.


(** ** Gravity, and where binary32 departs from exact arithmetic *)

(** C5 (amended). [setGravityMult m] followed by [getGravity] returns the
    prior gravity scaled component-wise by [m] and taken once through the
    conversion to physics coordinates and back ([/ scale], then [* scale]).
    In exact arithmetic that conversion cancels: for every [m], zero and
    negative ones included, the result is the prior gravity times [m], which
    is the vector last set times [m].  In binary32 gravity (0, 10) followed
    by the multiplier 2 yields exactly (0, 20). *)
Theorem gravity_multiplier_round_trip :
  (forall (F : Type) (ops : FloatOps F) (m : F) (ps : PhysicsSystem F),
      getGravity (setGravityMult m ps)
      = convertToSF
          (convertToB2
             (mkVector2f (sf_x (getGravity ps) *^ m)%flt (sf_y (getGravity ps) *^ m)%flt)))
  /\ (forall (m : Q) (ps : PhysicsSystem Q),
        (sf_x (getGravity (setGravityMult m ps)) == sf_x (getGravity ps) * m)%Q
        /\ (sf_y (getGravity (setGravityMult m ps)) == sf_y (getGravity ps) * m)%Q)
  /\ (forall (gx gy m : Q) (ps : PhysicsSystem Q),
        (sf_x (getGravity (setGravityMult m (setGravity gx gy ps))) == gx * m)%Q
        /\ (sf_y (getGravity (setGravityMult m (setGravity gx gy ps))) == gy * m)%Q)
  /\ (forall ps : PhysicsSystem spec_float,
        getGravity (setGravity (of_int 0) (of_int 10) ps)
        = mkVector2f (of_int 0) (of_int 10)
        /\ getGravity (setGravityMult (of_int 2) (setGravity (of_int 0) (of_int 10) ps))
           = mkVector2f (of_int 0) (of_int 20)).
Proof.
  split; [|split; [|split]].
  - reflexivity.
  - intros m ps. unfold getGravity, setGravityMult, setGravity, getGravity,
      convertToSF, convertToB2, scale, b2World_GetGravity, b2World_SetGravity.
    cbn [sf_x sf_y b2_x b2_y world_ set_world m_gravity]. exact_arith.
    change (inject_Z 100) with 100%Q. split; field.
  - intros gx gy m ps. unfold getGravity, setGravityMult, setGravity, getGravity,
      convertToSF, convertToB2, scale, b2World_GetGravity, b2World_SetGravity.
    cbn [sf_x sf_y b2_x b2_y world_ set_world m_gravity]. exact_arith.
    change (inject_Z 100) with 100%Q. split; field.
  - intros ps. split; vm_compute; reflexivity.
Qed.

(** C5, counterexample: in binary32, with gravity (0, 10) set and read back
    as (0, 10), the multiplier [1.5f] gives 15728641 * 2^-20 (15.000001) and
    not [10.0f * 1.5f = 15.0f]: [15.0f / 100.0f * 100.0f] is not [15.0f]. *)
Lemma gravity_multiplier_rounds :
  getGravity (setGravity (of_int 0) (of_int 10) fresh32) = mkVector2f (of_int 0) (of_int 10)
  /\ (of_int 10 *^ one_and_a_half)%flt = of_int 15
  /\ sf_y (getGravity (setGravityMult one_and_a_half
                         (setGravity (of_int 0) (of_int 10) fresh32)))
     = S754_finite false 15728641 (-20)
  /\ of_int 15 = S754_finite false 15728640 (-20)
  /\ sf_y (getGravity (setGravityMult one_and_a_half
                         (setGravity (of_int 0) (of_int 10) fresh32)))
     <> (of_int 10 *^ one_and_a_half)%flt.
Proof.
  repeat split; try (vm_compute; reflexivity).
  vm_compute. discriminate.
Qed.

(** C1, counterexample: in binary32 with [fixedStep = 1.0f / 60.0f], from an
    empty accumulator and one second elapsed, fifty-nine steps are extracted
    and not sixty, and the accumulator keeps 0.9999954 of a step. *)
Lemma one_second_drains_59_steps :
  exists ps1 : PhysicsSystem spec_float,
    extractSteps f60 5 (of_int 1) fresh32 = Some (59%Z, 5%Z, ps1)
    /\ timeStepAccumilator_ ps1 = S754_finite false 8947808 (-29)
    /\ f60 = S754_finite false 8947849 (-29)
    /\ fixedTimeStepRatio_ ps1 = S754_finite false 16777139 (-24)
    /\ ~ (exists ps2 : PhysicsSystem spec_float,
            extractSteps f60 5 (of_int 1) fresh32 = Some (60%Z, 5%Z, ps2)).
Proof.
  eexists. split; [vm_compute; reflexivity|].
  repeat split; try (vm_compute; reflexivity).
  intros [ps2 Hs]. vm_compute in Hs. discriminate.
Qed.


(** ** The quit protocol *)

Section GameProperties.
Context {LuaState ECSWorld Time : Type}.
Variable ECSWorld_update : Time -> ECSWorld -> ECSWorld.
Variable ControlSystem_handleInput : Event -> LuaState -> LuaState.

Local Abbreviation Game := (Game LuaState ECSWorld Time).
Local Abbreviation Scene := (Scene LuaState ECSWorld Time).
Local Abbreviation processEvents' := (processEvents ControlSystem_handleInput).
Local Abbreviation loopBody' := (loopBody ECSWorld_update ControlSystem_handleInput).
Local Abbreviation mainLoop' := (mainLoop ECSWorld_update ControlSystem_handleInput).
Local Abbreviation Game_start' := (Game_start ECSWorld_update ControlSystem_handleInput).

Lemma Game_terminate_spec (g : Game) :
  Window_alive (window_ g) = true ->
  Game_terminate g
  = Some (mkGame WindowDeleted (view g) (multiThread_ g) ShuttingDown
            (currentScene_ g) (lua g) (fps_ g)
            (actions g ++ [ActSetStatus ShuttingDown; ActWindowClose; ActWindowDelete])).
Proof.
  intros Hw. unfold Game_terminate. simpl. rewrite Hw.
  unfold act, set_window, set_status, act. simpl.
  by rewrite <- !app_assoc.
Qed.

Lemma Scene_quit_spec (sc : Scene) (g : Game) :
  Window_alive (window_ g) = true ->
  exists g' : Game,
    Scene_quit sc g = Some g'
    /\ status_ g' = (if hook_gives_way (onQuit_ sc) (lua g) then ShuttingDown else status_ g)
    /\ window_ g' = (if hook_gives_way (onQuit_ sc) (lua g) then WindowDeleted else window_ g)
    /\ currentScene_ g' = currentScene_ g
    /\ multiThread_ g' = multiThread_ g
    /\ actions g'
       = actions g
         ++ (if valid (onQuit_ sc)
             then [ActQuitHook (fst (call (onQuit_ sc) tt (lua g)))] else [])
         ++ (if hook_gives_way (onQuit_ sc) (lua g)
             then [ActSetStatus ShuttingDown; ActWindowClose; ActWindowDelete] else []).
Proof.
  intros Hw. unfold Scene_quit, hook_gives_way.
  destruct (valid (onQuit_ sc)); simpl.
  - destruct (call (onQuit_ sc) () (lua g)) as [ok l] eqn:Hc. simpl.
    destruct ok; simpl.
    + eexists. split; [reflexivity|]. simpl. done.
    + rewrite Game_terminate_spec by exact Hw.
      eexists. split; [reflexivity|]. simpl. by rewrite <- !app_assoc.
  - rewrite Game_terminate_spec by exact Hw.
    eexists. split; [reflexivity|]. simpl. done.
Qed.

Lemma Game_quit_spec (g : Game) :
  Window_alive (window_ g) = true ->
  let gives_way :=
    match currentScene_ g with
    | Some sc => hook_gives_way (onQuit_ sc) (lua g)
    | None => true
    end in
  exists g' : Game,
    Game_quit g = Some g'
    /\ status_ g' = (if gives_way then ShuttingDown else Quitting)
    /\ window_ g' = (if gives_way then WindowDeleted else window_ g)
    /\ currentScene_ g' = currentScene_ g
    /\ multiThread_ g' = multiThread_ g
    /\ actions g'
       = actions g ++ [ActSetStatus Quitting]
         ++ match currentScene_ g with
            | Some sc =>
                if valid (onQuit_ sc)
                then [ActQuitHook (fst (call (onQuit_ sc) tt (lua g)))] else []
            | None => []
            end
         ++ (if gives_way
             then [ActSetStatus ShuttingDown; ActWindowClose; ActWindowDelete] else []).
Proof.
  intros Hw. unfold Game_quit. cbn [currentScene_ set_status act].
  destruct (currentScene_ g) as [sc|] eqn:Hsc.
  - destruct (Scene_quit_spec sc (set_status Quitting g) Hw)
      as (g' & Hq & Hs & Hwin & Hscene & Hmt & Hact).
    exists g'. split; [exact Hq|]. simpl in *.
    split; [exact Hs|]. split; [exact Hwin|]. split; [by rewrite Hscene|].
    split; [exact Hmt|]. by rewrite Hact, <- !app_assoc.
  - rewrite Game_terminate_spec by exact Hw.
    eexists. split; [reflexivity|]. simpl.
    split; [done|]. split; [done|]. split; [done|]. split; [done|].
    by rewrite <- !app_assoc.
Qed.

(** *** Turns of the loop that quit nothing *)

Lemma protocol_app (a b : list Action) : protocol (a ++ b) = protocol a ++ protocol b.
Proof. unfold protocol. apply filter_app. Qed.

Lemma steady_refl (g : Game) : steady g g.
Proof. by repeat split. Qed.

Lemma steady_trans (a b c : Game) : steady a b -> steady b c -> steady a c.
Proof.
  intros (? & ? & ? & ? & ?) (? & ? & ? & ? & ?). repeat split; congruence.
Qed.

Lemma steady_act (a : Action) (g : Game) :
  is_protocol_step a = false -> steady g (act a g).
Proof.
  intros Ha. repeat split. simpl. rewrite protocol_app. unfold protocol at 2.
  rewrite filter_cons_False by (rewrite Ha; done). simpl. by rewrite app_nil_r.
Qed.

Lemma Game_handleEvent_steady (ev : Event) (g : Game) :
  steady g (Game_handleEvent ControlSystem_handleInput ev g).
Proof.
  unfold Game_handleEvent.
  assert (steady g (match ev with
                    | Resized width height => set_view (width, height) g
                    | _ => g
                    end)) as H1.
  { destruct ev; by repeat split. }
  eapply steady_trans; [exact H1|].
  set (g1 := match ev with Resized width height => set_view (width, height) g | _ => g end).
  destruct (currentScene_ g1) as [sc|] eqn:Hsc; [|apply steady_refl].
  eapply steady_trans; [|apply steady_act; done].
  repeat split. unfold quitHook. simpl. by rewrite Hsc.
Qed.

Lemma Game_update_steady (dt : Time) (g : Game) :
  steady g (Game_update ECSWorld_update dt g).
Proof.
  unfold Game_update.
  destruct (currentScene_ g) as [sc|] eqn:Hsc; [|apply steady_refl].
  unfold Scene_update. cbv zeta.
  eapply steady_trans; [|apply steady_act; done].
  repeat split. unfold quitHook. simpl. by rewrite Hsc.
Qed.

Lemma processEvents_app (evs1 evs2 : list Event) (g : Game) :
  processEvents' (evs1 ++ evs2) g = processEvents' evs1 g ≫= processEvents' evs2.
Proof.
  revert g. induction evs1 as [|ev evs1 IH]; intros g; [done|]. simpl.
  destruct (if is_Closed ev then Game_quit g
            else Some (Game_handleEvent ControlSystem_handleInput ev g)); simpl; [|done].
  apply IH.
Qed.

Lemma processEvents_quiet (evs : list Event) : forall g : Game,
  Forall (fun ev => is_Closed ev = false) evs ->
  exists g' : Game, processEvents' evs g = Some g' /\ steady g g'.
Proof.
  induction evs as [|ev evs IH]; intros g Hq.
  - exists g. split; [done|apply steady_refl].
  - inversion Hq as [|? ? Hev Hevs]; subst. simpl. rewrite Hev. simpl.
    destruct (IH (Game_handleEvent ControlSystem_handleInput ev g) Hevs) as (g' & Hp & Hs).
    exists g'. split; [exact Hp|].
    eapply steady_trans; [apply Game_handleEvent_steady|exact Hs].
Qed.

Lemma updateAndRender_steady (dt : Time) (g : Game) :
  Window_alive (window_ g) = true \/ status_ g = ShuttingDown ->
  exists g' : Game,
    updateAndRender ECSWorld_update dt g = Some g' /\ steady g g'.
Proof.
  intros Hw. unfold updateAndRender. cbv zeta.
  pose proof (Game_update_steady dt g) as Hu.
  set (g1 := Game_update ECSWorld_update dt g) in *.
  destruct (multiThread_ g1) eqn:Hm; simpl.
  - eexists. split; [reflexivity|].
    eapply steady_trans; [exact Hu|apply steady_act; done].
  - destruct (Status_ltb (status_ g1) ShuttingDown) eqn:Hlt.
    + unfold Game_render. destruct Hu as (Hwin & Hmt & Hst & Hh & Hp).
      destruct Hw as [Hw|Hw].
      * rewrite Hwin, Hw. eexists. split; [reflexivity|].
        eapply steady_trans; [|apply steady_act; done]. by repeat split.
      * rewrite Hst, Hw in Hlt. discriminate.
    + eexists. split; [reflexivity|]. exact Hu.
Qed.

Lemma set_fps_steady (n : nat) (g : Game) : steady g (set_fps n g).
Proof. by repeat split. Qed.

(** A turn of the loop, from the state its events leave. *)
Lemma loopBody_spec (fr : Frame Time) (g : Game) (n : nat) (g1 : Game) :
  Window_alive (window_ g) = true ->
  processEvents' (processed (multiThread_ g) fr)
    (if fpsSecondPassed fr then set_fps n g else g) = Some g1 ->
  Window_alive (window_ g1) = true \/ status_ g1 = ShuttingDown ->
  exists (g' : Game) (n' : nat), loopBody' fr g n = Some (g', n') /\ steady g1 g'.
Proof.
  intros Hw0 Hp Hw.
  destruct (updateAndRender_steady (elapsed_ fr) g1 Hw) as (g' & Ht & Hs).
  exists g', (S (if fpsSecondPassed fr then 0 else n)). split; [|exact Hs].
  unfold loopBody, processed in *.
  destruct (fpsSecondPassed fr); cbn [multiThread_ window_ set_fps] in *.
  - destruct (multiThread_ g); [destruct (lockAcquired fr)|];
      cbn [processEvents] in Hp; rewrite ?Hw0, Hp; cbn [mbind option_bind];
      rewrite Ht; reflexivity.
  - destruct (multiThread_ g); [destruct (lockAcquired fr)|];
      cbn [processEvents] in Hp; rewrite ?Hw0, Hp; cbn [mbind option_bind];
      rewrite Ht; reflexivity.
Qed.

Lemma loopBody_quiet (fr : Frame Time) (g : Game) (n : nat) :
  quiet (multiThread_ g) fr ->
  Window_alive (window_ g) = true ->
  exists (g' : Game) (n' : nat), loopBody' fr g n = Some (g', n') /\ steady g g'.
Proof.
  intros Hq Hw.
  destruct (processEvents_quiet _ (if fpsSecondPassed fr then set_fps n g else g) Hq)
    as (g1 & Hp & Hs1).
  assert (steady g g1) as Hs.
  { eapply steady_trans; [|exact Hs1]. destruct (fpsSecondPassed fr);
      [apply set_fps_steady|apply steady_refl]. }
  destruct (loopBody_spec fr g n g1 Hw Hp) as (g' & n' & Hl & Hs2).
  { left. destruct Hs as (-> & _). exact Hw. }
  exists g', n'. split; [exact Hl|]. by eapply steady_trans.
Qed.

Lemma mainLoop_quiet (frames : list (Frame Time)) : forall (g : Game) (n : nat),
  Forall (quiet (multiThread_ g)) frames ->
  Status_ltb (status_ g) ShuttingDown = true ->
  Window_alive (window_ g) = true ->
  exists (g' : Game) (n' : nat),
    steady g g'
    /\ forall rest : list (Frame Time),
         mainLoop' (frames ++ rest) g n = mainLoop' rest g' n'.
Proof.
  induction frames as [|fr frames IH]; intros g n Hq Hst Hw.
  - exists g, n. split; [apply steady_refl|done].
  - inversion Hq as [|? ? Hfr Hfrs]; subst.
    destruct (loopBody_quiet fr g n Hfr Hw) as (g1 & n1 & Hl & Hs1).
    pose proof Hs1 as (Hw1 & Hm1 & Hst1 & _).
    destruct (IH g1 n1) as (g' & n' & Hs2 & Hrest).
    { by rewrite Hm1. } { by rewrite Hst1. } { by rewrite Hw1. }
    exists g', n'. split; [by eapply steady_trans|].
    intros rest. simpl. rewrite Hst, Hl. apply Hrest.
Qed.

Lemma loopBody_closing (fr : Frame Time) (g : Game) (n : nat) (pre post : list Event) :
  processed (multiThread_ g) fr = pre ++ Closed :: post ->
  Forall (fun ev => is_Closed ev = false) pre ->
  Forall (fun ev => is_Closed ev = false) post ->
  Window_alive (window_ g) = true ->
  unopposed g ->
  exists (g' : Game) (n' : nat),
    loopBody' fr g n = Some (g', n')
    /\ status_ g' = ShuttingDown
    /\ multiThread_ g' = multiThread_ g
    /\ quitHook g' = quitHook g
    /\ protocol (actions g')
       = protocol (actions g)
         ++ [ActSetStatus Quitting; ActSetStatus ShuttingDown; ActWindowClose; ActWindowDelete].
Proof.
  intros Hev Hpre Hpost Hw Hun.
  set (g0 := if fpsSecondPassed fr then set_fps n g else g).
  assert (steady g g0) as Hs0.
  { unfold g0. destruct (fpsSecondPassed fr); [apply set_fps_steady|apply steady_refl]. }
  destruct (processEvents_quiet pre g0 Hpre) as (g1 & Hp1 & Hs1).
  pose proof (steady_trans _ _ _ Hs0 Hs1) as (Hw1 & Hm1 & Hst1 & Hh1 & Hpr1).
  destruct (Game_quit_spec g1) as (g2 & Hq & Hst2 & Hw2 & Hsc2 & Hm2 & Ha2).
  { by rewrite Hw1. }
  assert (match currentScene_ g1 with
          | Some sc => hook_gives_way (onQuit_ sc) (lua g1)
          | None => true
          end = true) as Hgw.
  { unfold unopposed in Hun. rewrite <- Hh1 in Hun. unfold quitHook in Hun.
    destruct (currentScene_ g1); [apply Hun|done]. }
  rewrite Hgw in Hst2, Hw2, Ha2.
  destruct (processEvents_quiet post g2 Hpost) as (g3 & Hp3 & (Hw3 & Hm3 & Hst3 & Hh3 & Hpr3)).
  destruct (loopBody_spec fr g n g3 Hw) as (g' & n' & Hl & (Hw4 & Hm4 & Hst4 & Hh4 & Hpr4)).
  { rewrite Hev, processEvents_app. fold g0. rewrite Hp1. simpl. rewrite Hq. simpl. exact Hp3. }
  { right. by rewrite Hst3. }
  exists g', n'. split; [exact Hl|].
  split; [by rewrite Hst4, Hst3|]. split; [congruence|].
  split.
  - rewrite Hh4, Hh3, <- Hh1. unfold quitHook. by rewrite Hsc2.
  - rewrite Hpr4, Hpr3, Ha2, !protocol_app, Hpr1. f_equal.
    destruct (currentScene_ g1) as [sc|]; [destruct (valid (onQuit_ sc))|]; reflexivity.
Qed.

Lemma protocol_act (a : Action) (g : Game) :
  protocol (actions (act a g))
  = protocol (actions g) ++ (if is_protocol_step a then [a] else []).
Proof.
  simpl. rewrite protocol_app. f_equal. unfold protocol.
  destruct (is_protocol_step a) eqn:Ha.
  - by rewrite filter_cons_True by (by rewrite Ha).
  - by rewrite filter_cons_False by (by rewrite Ha).
Qed.

Lemma Game_shutdown_spec (g : Game) :
  status_ (Game_shutdown g) = Uninitialised
  /\ protocol (actions (Game_shutdown g))
     = protocol (actions g) ++ [ActSetStatus Uninitialised]
       ++ match currentScene_ g with Some _ => [ActDeleteScene] | None => [] end.
Proof.
  unfold Game_shutdown. cbn [currentScene_ set_status act].
  destruct (currentScene_ g).
  - split; [done|]. rewrite protocol_act. simpl. by rewrite protocol_app, <- app_assoc.
  - split; [done|]. simpl. by rewrite protocol_app.
Qed.


(** C10. A quit requested while no scene is active, the window alive,
    terminates within the call: the status is set to Quitting and then to
    ShuttingDown, the window is closed and deleted, no hook is called and
    the Lua state is untouched. *)
Theorem quit_without_scene (g : Game) :
  currentScene_ g = None ->
  Window_alive (window_ g) = true ->
  exists g' : Game,
    Game_quit g = Some g'
    /\ status_ g' = ShuttingDown
    /\ window_ g' = WindowDeleted
    /\ actions g'
       = actions g
         ++ [ActSetStatus Quitting; ActSetStatus ShuttingDown; ActWindowClose; ActWindowDelete]
    /\ lua g' = lua g
    /\ currentScene_ g' = None.
Proof.
  intros Hsc Hw. unfold Game_quit. cbn [currentScene_ set_status act]. rewrite Hsc.
  rewrite Game_terminate_spec by exact Hw.
  eexists. split; [reflexivity|]. simpl. rewrite Hsc, <- app_assoc. done.
Qed.

(** C6. A quit requested while a scene is active, the window alive, ends
    in ShuttingDown exactly when the quit hook of the scene is nil or its
    call fails, and in Quitting exactly when the hook is valid and its call
    succeeds.  In that case the window stays, the loop keeps turning with
    the status Quitting over all turns that process no [Closed] event, and a
    later quit whose hook gives way ends in ShuttingDown. *)
Theorem quit_veto (g : Game) (sc : Scene) :
  currentScene_ g = Some sc ->
  Window_alive (window_ g) = true ->
  exists g' : Game,
    Game_quit g = Some g'
    /\ (status_ g' = ShuttingDown
        <-> valid (onQuit_ sc) = false \/ fst (call (onQuit_ sc) tt (lua g)) = false)
    /\ (status_ g' = Quitting
        <-> valid (onQuit_ sc) = true /\ fst (call (onQuit_ sc) tt (lua g)) = true)
    /\ (status_ g' = Quitting ->
        window_ g' = window_ g
        /\ (forall (frames : list (Frame Time)) (n : nat),
              Forall (quiet (multiThread_ g')) frames ->
              exists g'' : Game,
                mainLoop' frames g' n = StillRunning g''
                /\ status_ g'' = Quitting
                /\ quitHook g'' = Some (onQuit_ sc)
                /\ Window_alive (window_ g'') = true)
        /\ (forall (g'' : Game) (sc'' : Scene),
              currentScene_ g'' = Some sc'' ->
              Window_alive (window_ g'') = true ->
              hook_gives_way (onQuit_ sc'') (lua g'') = true ->
              exists g3 : Game, Game_quit g'' = Some g3 /\ status_ g3 = ShuttingDown)).
Proof.
  intros Hsc Hw.
  destruct (Game_quit_spec g Hw) as (g' & Hq & Hst & Hwin & Hscene & Hmt & _).
  cbv zeta in Hst, Hwin. rewrite Hsc in Hst, Hwin.
  exists g'. split; [exact Hq|].
  unfold hook_gives_way in Hst, Hwin.
  destruct (valid (onQuit_ sc)) eqn:Hv, (fst (call (onQuit_ sc) tt (lua g))) eqn:Hc;
    simpl in Hst, Hwin.
  2-4: (split; [split; [intros _; auto|intros _; exact Hst]|];
        split; [split; [rewrite Hst; discriminate|intros [? ?]; discriminate]|];
        rewrite Hst; discriminate).
  split; [split; [rewrite Hst; discriminate|intros [?|?]; discriminate]|].
  split; [split; [auto|intros _; exact Hst]|].
  intros _. split; [exact Hwin|]. split.
  - intros frames n Hquiet.
    destruct (mainLoop_quiet frames g' n Hquiet) as (g'' & n'' & (Hw2 & Hm2 & Hst2 & Hh2 & _) & Hrest).
    { by rewrite Hst. } { by rewrite Hwin. }
    exists g''. specialize (Hrest []). rewrite app_nil_r in Hrest.
    rewrite Hrest. simpl. rewrite Hst2, Hst. simpl.
    split; [done|]. split; [done|]. split.
    + rewrite Hh2. unfold quitHook. by rewrite Hscene, Hsc.
    + by rewrite Hw2, Hwin.
  - intros g'' sc'' Hsc'' Hw'' Hgw.
    destruct (Game_quit_spec g'' Hw'') as (g3 & Hq3 & Hst3 & _).
    cbv zeta in Hst3. rewrite Hsc'', Hgw in Hst3. eauto.
Qed.
End GameProperties.

(** * Properties beyond the claims *)

(** ** The bodies, the handles and the disposal lists over a frame *)

Section PhysicsSystemCoverage.
Context {F : Type} `{FloatOps F}.
Variable fixedTimeStep_ : F.
Variable maxSteps_ : Z.
Variable velocityIterations_ : Z.
Variable positionIterations_ : Z.
Variable b2World_Step : F -> Z -> Z -> b2World F -> b2World F.

Local Abbreviation singleStep' :=
  (singleStep velocityIterations_ positionIterations_ b2World_Step).
Local Abbreviation stepLoop' :=
  (stepLoop fixedTimeStep_ velocityIterations_ positionIterations_ b2World_Step).
Local Abbreviation update' :=
  (update fixedTimeStep_ maxSteps_ velocityIterations_ positionIterations_ b2World_Step).

(** [update], pass by pass, with the state between the passes. *)
Lemma update_passes (w : list (Entity F)) (dt : F) (ps : PhysicsSystem F) w' ps' :
  update' w dt ps = Some (w', ps') ->
  exists steps ps1 w1 psa w2 ps2,
    extractSteps fixedTimeStep_ maxSteps_ dt ps = Some (steps, Z.min steps maxSteps_, ps1)
    /\ world_ ps1 = world_ ps
    /\ each syncPass w ps1 = Some (w1, psa)
    /\ stepLoop' (Z.to_nat (Z.min steps maxSteps_)) w1 psa = Some (w2, ps2)
    /\ each tweenPass w2
         (logCall CallClearForces (set_world (b2World_ClearForces (world_ ps2)) ps2))
       = Some (w', ps').
Proof.
  unfold update. intros Hs.
  destruct (extractSteps _ _ _ _) as [[[steps clamped] ps1]|] eqn:He; simpl in Hs; [|discriminate].
  destruct (each syncPass w ps1) as [[w1 psa]|] eqn:Hsync; simpl in Hs; [|discriminate].
  destruct (stepLoop' _ w1 psa) as [[w2 ps2]|] eqn:Hloop; simpl in Hs; [|discriminate].
  pose proof (extractSteps_spec _ _ _ _ _ _ _ He) as (_ & -> & _ & _ & Hw & _).
  exists steps, ps1, w1, psa, w2, ps2. done.
Qed.

Lemma Forall2_compose {A B C : Type} (R1 : A -> B -> Prop) (R2 : B -> C -> Prop)
    (R : A -> C -> Prop) (a : list A) (b : list B) (c : list C) :
  (forall x y z, R1 x y -> R2 y z -> R x z) ->
  Forall2 R1 a b -> Forall2 R2 b c -> Forall2 R a c.
Proof.
  intros HR Hab. revert c. induction Hab; intros c Hbc; inversion Hbc; subst;
    constructor; eauto.
Qed.

(** *** The out-of-sync flag *)

Lemma syncPass_flag (e : Entity F) (ps : PhysicsSystem F) e' ps' :
  syncPass e ps = Some (e', ps') -> flag_consumed e e'.
Proof.
  intros Hs. split; [by eapply syncPass_spec|].
  unfold syncPass, syncOutOfSync in Hs.
  destruct (isOutOfSync_ (rigidBody e)) eqn:Hf, (body_ (rigidBody e)) as [b|] eqn:Hb;
    simpl in Hs.
  - destruct (b2Body_SetTransform _ _ _ _) as [bw1|]; simpl in Hs; [|discriminate].
    destruct (b2Body_SetAwake _ _ _) as [bw2|]; simpl in Hs; [|discriminate].
    by inversion Hs.
  - inversion Hs; subst. simpl. done.
  - inversion Hs; subst. simpl. done.
  - inversion Hs; subst. simpl. done.
Qed.

Lemma resetPass_handle (e : Entity F) (ps : PhysicsSystem F) e' ps' :
  resetPass e ps = Some (e', ps') -> same_handle e e' /\ world_ ps' = world_ ps.
Proof.
  intros Hs. split; [split; [by eapply resetPass_spec|]|].
  - unfold resetPass, resetSmoothStates in Hs.
    destruct (body_ (rigidBody e)) as [b|]; simpl in Hs.
    + destruct (m_bodies _ !! b) as [bd|]; simpl in Hs; [|discriminate].
      destruct (is_static (m_type bd)); by inversion Hs.
    + by inversion Hs.
  - unfold resetPass in Hs.
    destruct (resetSmoothStates _ _ _); simpl in Hs; [|discriminate]. by inversion Hs.
Qed.

Lemma same_handle_refl (e : Entity F) : same_handle e e.
Proof. split; [apply kept_refl|done]. Qed.

Lemma same_handle_trans (a b c : Entity F) :
  same_handle a b -> same_handle b c -> same_handle a c.
Proof. intros [? ?] [? ?]. split; [by eapply kept_trans|congruence]. Qed.

Lemma Forall2_same_handle_refl (w : list (Entity F)) : Forall2 same_handle w w.
Proof. induction w; constructor; auto using same_handle_refl. Qed.

Lemma resetPass_handles (w : list (Entity F)) (ps : PhysicsSystem F) w' ps' :
  each resetPass w ps = Some (w', ps') ->
  Forall2 same_handle w w' /\ world_ ps' = world_ ps.
Proof.
  intros Hs. split.
  - eapply each_Forall2; [|exact Hs]. intros. by eapply resetPass_handle.
  - eapply (each_lookup resetPass (fun a b => world_ b = world_ a)); [done| |exact (fun _ _ _ _ Hp => proj2 (resetPass_handle _ _ _ _ Hp))|exact Hs].
    intros a b c Hab Hbc. congruence.
Qed.

Lemma stepLoop_handles (n : nat) : forall (w : list (Entity F)) (ps : PhysicsSystem F) w' ps',
  stepLoop' n w ps = Some (w', ps') -> Forall2 same_handle w w'.
Proof.
  induction n as [|n IH]; intros w ps w' ps' Hs; simpl in Hs.
  - inversion Hs; subst. apply Forall2_same_handle_refl.
  - destruct (each resetPass w ps) as [[w1 ps1]|] eqn:Hr; simpl in Hs; [|discriminate].
    apply resetPass_handles in Hr as [Hr _]. apply IH in Hs.
    eapply Forall2_compose; [|exact Hr|exact Hs]. apply same_handle_trans.
Qed.

Lemma update_handles (w : list (Entity F)) (dt : F)
    (ps : PhysicsSystem F) (w' : list (Entity F)) (ps' : PhysicsSystem F) :
  update' w dt ps = Some (w', ps') ->
  Forall2
    (fun e e' =>
       entity_id e' = entity_id e
       /\ body_ (rigidBody e') = body_ (rigidBody e)
       /\ disposeList_ (rigidBody e') = []
       /\ isOutOfSync_ (rigidBody e')
          = match body_ (rigidBody e) with
            | Some _ => false
            | None => isOutOfSync_ (rigidBody e)
            end)
    w w'.
Proof.
  intros Hu.
  apply update_passes in Hu as (steps & ps1 & w1 & psa & w2 & ps2 & _ & _ & Hsync & Hloop & Htw).
  assert (Forall2 flag_consumed w w1) as H1.
  { eapply each_Forall2; [|exact Hsync]. intros. by eapply syncPass_flag. }
  apply stepLoop_handles in Hloop.
  assert (Forall2 (fun e e' => entity_id e' = entity_id e
             /\ rigidBody e' = mkRigidBody (body_ (rigidBody e)) (previousPosition_ (rigidBody e))
                      (previousAngle_ (rigidBody e)) (isOutOfSync_ (rigidBody e)) []) w2 w') as H3.
  { eapply each_Forall2; [|exact Htw]. intros e ps0 e' ps0' Hp.
    apply tweenPass_spec in Hp as (? & ? & _). done. }
  assert (Forall2 (fun e e' => entity_id e' = entity_id e
             /\ body_ (rigidBody e') = body_ (rigidBody e)
             /\ disposeList_ (rigidBody e') = []
             /\ isOutOfSync_ (rigidBody e') = isOutOfSync_ (rigidBody e)) w1 w') as H23.
  { eapply Forall2_compose; [|exact Hloop|exact H3].
    intros x y z [(Hi2 & _ & Hb2 & _) Hf2] [Hi3 Hr3].
    rewrite Hr3. simpl. split; [congruence|]. split; [congruence|]. split; [done|]. congruence. }
  eapply Forall2_compose; [|exact H1|exact H23].
  intros x y z [(Hi1 & _ & Hb1 & _) Hf1] (Hi & Hb & Hd & Hf).
  split; [congruence|]. split; [congruence|]. split; [done|]. congruence.
Qed.

(** X1. A frame that is defined leaves every entity at its place in the
    list, with the identity and the body pointer it had.  The disposal list
    of every entity is empty afterwards.  The out-of-sync flag is consumed
    where there is a body and stays as it was, pending, where there is
    none. *)
Theorem update_consumes_flags_and_lists (w : list (Entity F)) (dt : F)
    (ps : PhysicsSystem F) (w' : list (Entity F)) (ps' : PhysicsSystem F) :
  update' w dt ps = Some (w', ps') ->
  Forall2
    (fun e e' =>
       entity_id e' = entity_id e
       /\ body_ (rigidBody e') = body_ (rigidBody e)
       /\ disposeList_ (rigidBody e') = []
       /\ isOutOfSync_ (rigidBody e')
          = match body_ (rigidBody e) with
            | Some _ => false
            | None => isOutOfSync_ (rigidBody e)
            end)
    w w'.
Proof. apply update_handles. Qed.

(** X6. At the end of a frame that is defined no body left in the world
    carries a force or a torque: the forces are cleared after the last
    fixed step and the disposal that follows only frees bodies. *)
Theorem update_clears_forces (w : list (Entity F)) (dt : F)
    (ps : PhysicsSystem F) (w' : list (Entity F)) (ps' : PhysicsSystem F)
    (b : BodyPtr) (bd : b2Body F) :
  update' w dt ps = Some (w', ps') ->
  m_bodies (world_ ps') !! b = Some bd ->
  m_force bd = mkb2Vec2 (of_int 0) (of_int 0) /\ m_torque bd = of_int 0.
Proof.
  intros Hu Hb.
  apply update_passes in Hu as (steps & ps1 & w1 & psa & w2 & ps2 & _ & _ & _ & _ & Htw).
  apply tweenPass_all in Htw as [[_ Hsub] _]. simpl in Hsub.
  eapply lookup_weaken in Hb; [|exact Hsub].
  rewrite lookup_fmap in Hb.
  destruct (m_bodies (world_ ps2) !! b) as [bd0|]; simpl in Hb; [|discriminate].
  inversion Hb; subst. done.
Qed.


(** *** Bodies: which are alive, which are freed *)

Lemma syncPass_bodies (e : Entity F) (ps : PhysicsSystem F) e' ps' :
  syncPass e ps = Some (e', ps') ->
  dom (m_bodies (world_ ps')) =@{gset nat} dom (m_bodies (world_ ps)).
Proof.
  unfold syncPass, syncOutOfSync, b2Body_SetTransform, b2Body_SetAwake. intros Hs.
  destruct (isOutOfSync_ (rigidBody e)), (body_ (rigidBody e)) as [b|]; simpl in Hs;
    try (inversion Hs; subst; done).
  destruct (m_bodies (world_ ps) !! b) as [bd|] eqn:Hb; simpl in Hs; [|discriminate].
  rewrite lookup_insert_eq in Hs. simpl in Hs. inversion Hs; subst; clear Hs. simpl.
  rewrite !dom_insert_lookup_L; [done|by rewrite Hb|by rewrite lookup_insert_eq].
Qed.

Lemma syncPass_all_bodies (w : list (Entity F)) (ps : PhysicsSystem F) w' ps' :
  each syncPass w ps = Some (w', ps') ->
  dom (m_bodies (world_ ps')) =@{gset nat} dom (m_bodies (world_ ps)).
Proof.
  intros Hs.
  eapply (each_lookup syncPass
            (fun a b => dom (m_bodies (world_ b)) =@{gset nat} dom (m_bodies (world_ a))));
    [done| |intros; by eapply syncPass_bodies|exact Hs].
  intros a b c Hab Hbc. congruence.
Qed.

(** A pass that captures the previous poses reads the body of every entity
    that has one. *)
Lemma resetPass_all_live (w : list (Entity F)) : forall (ps : PhysicsSystem F) w' ps'
    (i : nat) (e : Entity F) (b : BodyPtr),
  each resetPass w ps = Some (w', ps') ->
  w !! i = Some e -> body_ (rigidBody e) = Some b ->
  is_Some (m_bodies (world_ ps) !! b).
Proof.
  induction w as [|e0 w IH]; intros ps w' ps' i e b Hs Hi Hb; [by destruct i|].
  apply each_cons in Hs as (e1 & ps1 & w1 & He & Hw & ->).
  destruct i as [|i]; simpl in Hi.
  - inversion Hi; subst e0. unfold resetPass, resetSmoothStates in He.
    rewrite Hb in He. simpl in He.
    destruct (m_bodies (world_ ps) !! b); [done|discriminate].
  - apply resetPass_handle in He as [_ <-]. by eapply IH.
Qed.

(** What [destroyBodies] frees: every body of the list, each of them alive
    and listed once. *)
Lemma destroyBodies_exact (ds : list BodyPtr) : forall ps ps' : PhysicsSystem F,
  destroyBodies ds ps = Some ps' ->
  NoDup ds
  /\ (forall d, d ∈ ds -> is_Some (m_bodies (world_ ps) !! d))
  /\ (forall k, m_bodies (world_ ps') !! k
                = if decide (k ∈ ds) then None else m_bodies (world_ ps) !! k)
  /\ size (m_bodies (world_ ps')) + length ds = size (m_bodies (world_ ps)).
Proof.
  induction ds as [|d ds IH]; intros ps ps' Hs; simpl in Hs.
  - inversion Hs; subst. split; [constructor|]. split; [intros d Hd; by apply elem_of_nil in Hd|].
    split; [|simpl; lia]. intros k. destruct (decide (k ∈ [])) as [Hk|]; [by apply elem_of_nil in Hk|done].
  - unfold b2World_DestroyBody in Hs.
    destruct (m_bodies (world_ ps) !! d) as [bd|] eqn:Hd; simpl in Hs; [|discriminate].
    apply IH in Hs as (Hnd & Hlive & Hk & Hsz). simpl in Hlive, Hk, Hsz.
    assert (d ∉ ds) as Hnin.
    { intros Hin. destruct (Hlive d Hin) as [x Hx]. by rewrite lookup_delete_eq in Hx. }
    split; [by constructor|]. split; [|split].
    + intros d' Hd'. apply elem_of_cons in Hd' as [Heq|Hd']; [subst d'; by exists bd|].
      destruct (Hlive d' Hd') as [x Hx].
      destruct (decide (d = d')) as [Heq|Hne]; [subst d'; by exists bd|].
      rewrite lookup_delete_ne in Hx by done. by exists x.
    + intros k. rewrite Hk.
      destruct (decide (k ∈ ds)) as [Hin|Hin].
      * rewrite decide_True; [done|]. by apply elem_of_cons; right.
      * destruct (decide (k = d)) as [->|Hne].
        -- rewrite decide_True by (apply elem_of_cons; by left). apply lookup_delete_eq.
        -- rewrite decide_False.
           ++ by rewrite lookup_delete_ne.
           ++ intros Hc. apply elem_of_cons in Hc as [?|?]; done.
    + rewrite map_size_delete_Some in Hsz by (by exists bd).
      assert (size (m_bodies (world_ ps)) <> 0) as Hpos.
      { intros Hz. apply map_size_empty_inv in Hz. rewrite Hz in Hd. by rewrite lookup_empty in Hd. }
      simpl. lia.
Qed.

Lemma tweenPass_bodies (e : Entity F) (ps : PhysicsSystem F) e' ps' :
  tweenPass e ps = Some (e', ps') ->
  (forall b, body_ (rigidBody e) = Some b -> is_Some (m_bodies (world_ ps) !! b))
  /\ destroyBodies (disposeList_ (rigidBody e)) (logCall (CallSmoothState (entity_id e)) ps)
     = Some (mkPhysicsSystem (defaultGravity_ ps') (world_ ps') (timeStepAccumilator_ ps')
               (fixedTimeStepRatio_ ps') (removelast (trace_ ps'))).
Proof.
  unfold tweenPass. intros Hs.
  destruct (smoothState _ _ _) as [t|] eqn:Ht; simpl in Hs; [|discriminate].
  destruct (destroyBodies _ _) as [ps1|] eqn:Hd; simpl in Hs; [|discriminate].
  inversion Hs; subst; clear Hs. simpl. split.
  - intros b Hb. unfold smoothState in Ht. rewrite Hb in Ht. simpl in Ht.
    destruct (m_bodies (world_ ps) !! b); [done|discriminate].
  - rewrite removelast_last. by destruct ps1.
Qed.

(** What the last pass frees, and which bodies it needs alive. *)
Lemma tweenPass_all_bodies (w : list (Entity F)) : forall (ps : PhysicsSystem F) w' ps',
  each tweenPass w ps = Some (w', ps') ->
  NoDup (disposed w)
  /\ (forall d, d ∈ disposed w -> is_Some (m_bodies (world_ ps) !! d))
  /\ (forall k, m_bodies (world_ ps') !! k
                = if decide (k ∈ disposed w) then None else m_bodies (world_ ps) !! k)
  /\ size (m_bodies (world_ ps')) + length (disposed w) = size (m_bodies (world_ ps))
  /\ (forall j e b, w !! j = Some e -> body_ (rigidBody e) = Some b ->
        is_Some (m_bodies (world_ ps) !! b) /\ b ∉ disposed (take j w)).
Proof.
  induction w as [|e w IH]; intros ps w' ps' Hs.
  - inversion Hs; subst. split; [constructor|]. split; [intros d Hd; by apply elem_of_nil in Hd|].
    split; [|split; [simpl; lia|intros j; by destruct j]].
    intros k. destruct (decide (k ∈ disposed [])) as [Hk|]; [by apply elem_of_nil in Hk|done].
  - apply each_cons in Hs as (e1 & ps1 & w1 & He & Hw & ->).
    apply tweenPass_bodies in He as [Hlive0 Hd].
    apply destroyBodies_exact in Hd as (Hnd0 & Hl0 & Hk0 & Hsz0). simpl in Hl0, Hk0, Hsz0.
    apply IH in Hw as (Hnd & Hl & Hk & Hsz & Huse).
    assert (forall d, d ∈ disposed w -> d ∉ disposeList_ (rigidBody e)) as Hdisj.
    { intros d Hd Hd0. destruct (Hl d Hd) as [x Hx]. rewrite Hk0 in Hx.
      by rewrite decide_True in Hx. }
    unfold disposed in *. simpl. split; [|split; [|split; [|split]]].
    + apply NoDup_app. split; [done|]. split; [|done]. intros d Hd0 Hd. by eapply Hdisj.
    + intros d Hd. apply elem_of_app in Hd as [Hd|Hd]; [by apply Hl0|].
      destruct (Hl d Hd) as [x Hx]. rewrite Hk0 in Hx.
      case_decide; [done|by exists x].
    + intros k. rewrite Hk, Hk0.
      destruct (decide (k ∈ flat_map (fun e => disposeList_ (rigidBody e)) w)) as [Hin|Hin].
      * rewrite decide_True; [done|]. apply elem_of_app. by right.
      * destruct (decide (k ∈ disposeList_ (rigidBody e))) as [Hin0|Hin0].
        -- rewrite decide_True; [done|]. apply elem_of_app. by left.
        -- rewrite decide_False; [done|]. intros Hc. apply elem_of_app in Hc as [?|?]; done.
    + rewrite length_app. lia.
    + intros [|j] e2 b Hj Hb; simpl in Hj.
      * inversion Hj; subst e2. split; [by apply Hlive0|]. simpl. apply not_elem_of_nil.
      * destruct (Huse j e2 b Hj Hb) as [[x Hx] Hnin]. rewrite Hk0 in Hx.
        case_decide as Hin0; [done|].
        split; [by exists x|]. simpl. intros Hc. apply elem_of_app in Hc as [?|?]; done.
Qed.

Lemma kept_disposed (w w' : list (Entity F)) :
  Forall2 kept w w' -> disposed w' = disposed w.
Proof.
  unfold disposed. induction 1 as [|e e' w w' (_ & _ & _ & Hd & _) _ IH]; [done|].
  simpl. by rewrite Hd, IH.
Qed.


Lemma update_live (w : list (Entity F)) (dt : F) (ps : PhysicsSystem F) w' ps'
    (i : nat) (e : Entity F) (b : BodyPtr) :
  update' w dt ps = Some (w', ps') ->
  w !! i = Some e -> body_ (rigidBody e) = Some b ->
  is_Some (m_bodies (world_ ps) !! b).
Proof.
  intros Hu Hi Hb.
  apply update_passes in Hu as (steps & ps1 & w1 & psa & w2 & ps2 & _ & Hw1 & Hsync & Hloop & Htw).
  pose proof (syncPass_all_bodies _ _ _ _ Hsync) as Hdom. rewrite Hw1 in Hdom.
  apply syncPass_all in Hsync as (Hk1 & _).
  destruct (Forall2_lookup_l _ _ _ _ _ Hk1 Hi) as (e1 & Hi1 & (_ & _ & Hb1 & _)).
  rewrite Hb in Hb1.
  apply elem_of_dom. rewrite <- Hdom. apply elem_of_dom.
  destruct (Z.to_nat (Z.min steps maxSteps_)) as [|n]; simpl in Hloop.
  - inversion Hloop; subst w2 ps2; clear Hloop.
    apply tweenPass_all_bodies in Htw as (_ & _ & _ & _ & Huse).
    destruct (Huse i e1 b Hi1 Hb1) as [[x Hx] _]. simpl in Hx.
    rewrite lookup_fmap in Hx. destruct (m_bodies (world_ psa) !! b); [done|discriminate].
  - destruct (each resetPass w1 psa) as [[w1' ps1']|] eqn:Hr; simpl in Hloop; [|discriminate].
    by eapply resetPass_all_live.
Qed.

(** X4. An entity whose body pointer leads to no body of the world makes
    the frame undefined, whatever the elapsed time and whether or not the
    entity is out of sync: the capture of the previous pose or, when no
    step runs, the interpolation reads the body. *)
Theorem update_dangling_body (w : list (Entity F)) (dt : F) (ps : PhysicsSystem F)
    (i : nat) (e : Entity F) (b : BodyPtr) :
  w !! i = Some e ->
  body_ (rigidBody e) = Some b ->
  m_bodies (world_ ps) !! b = None ->
  update' w dt ps = None.
Proof.
  intros Hi Hb Hnone.
  destruct (update' w dt ps) as [[w' ps']|] eqn:Hu; [|done].
  destruct (update_live _ _ _ _ _ _ _ _ Hu Hi Hb) as [x Hx]. congruence.
Qed.

Lemma update_disposed (w : list (Entity F)) (dt : F) (ps : PhysicsSystem F) w' ps' :
  update' w dt ps = Some (w', ps') ->
  exists (w2 : list (Entity F)) (ps2 : PhysicsSystem F),
    Forall2 kept w w2
    /\ each tweenPass w2
         (logCall CallClearForces (set_world (b2World_ClearForces (world_ ps2)) ps2))
       = Some (w', ps').
Proof.
  intros Hu.
  apply update_phases in Hu as (s & c & p1 & w2 & ps2 & _ & Hk & _ & _ & Htw). eauto.
Qed.

Lemma update_disposed_gone (w : list (Entity F)) (dt : F)
    (ps : PhysicsSystem F) (w' : list (Entity F)) (ps' : PhysicsSystem F) :
  update' w dt ps = Some (w', ps') ->
  NoDup (disposed w)
  /\ forall d : BodyPtr, d ∈ disposed w -> m_bodies (world_ ps') !! d = None.
Proof.
  intros Hu. apply update_disposed in Hu as (w2 & ps2 & Hk & Htw).
  apply tweenPass_all_bodies in Htw as (Hnd & _ & Hlook & _).
  rewrite (kept_disposed _ _ Hk) in Hnd, Hlook.
  split; [exact Hnd|]. intros d Hd. rewrite Hlook. by rewrite decide_True.
Qed.

(** X2. A frame that is defined has freed every body of every disposal
    list: no body is listed twice, in one list or in two, and none of them
    is in the world afterwards.  Listing a body twice makes the frame
    undefined. *)
Theorem update_frees_disposed (w : list (Entity F)) (dt : F)
    (ps : PhysicsSystem F) (w' : list (Entity F)) (ps' : PhysicsSystem F) :
  update' w dt ps = Some (w', ps') ->
  NoDup (disposed w)
  /\ forall d : BodyPtr, d ∈ disposed w -> m_bodies (world_ ps') !! d = None.
Proof. apply update_disposed_gone. Qed.

(** X5. A body queued for disposal while an entity still points to it:
    when that entity comes later in the list than the one that disposes,
    the frame is undefined, the interpolation reading a freed body; in
    every case the pointer is left dangling and the frame after a defined
    one is undefined. *)
Theorem update_use_after_dispose (w : list (Entity F)) (dt : F) (ps : PhysicsSystem F)
    (i j : nat) (e1 e2 : Entity F) (b : BodyPtr) :
  w !! i = Some e1 ->
  b ∈ disposeList_ (rigidBody e1) ->
  w !! j = Some e2 ->
  body_ (rigidBody e2) = Some b ->
  (i < j -> update' w dt ps = None)
  /\ (forall (w' : list (Entity F)) (ps' : PhysicsSystem F) (dt' : F),
        update' w dt ps = Some (w', ps') -> update' w' dt' ps' = None).
Proof.
  intros Hi Hd Hj Hb. split.
  - intros Hlt. destruct (update' w dt ps) as [[w' ps']|] eqn:Hu; [|done]. exfalso.
    apply update_disposed in Hu as (w2 & ps2 & Hk & Htw).
    apply tweenPass_all_bodies in Htw as (_ & _ & _ & _ & Huse).
    destruct (Forall2_lookup_l _ _ _ _ _ Hk Hj) as (e2' & Hj2 & (_ & _ & Hb2 & _)).
    destruct (Forall2_lookup_l _ _ _ _ _ Hk Hi) as (e1' & Hi1 & (_ & _ & _ & Hd1 & _)).
    rewrite Hb in Hb2. destruct (Huse j e2' b Hj2 Hb2) as [_ Hnin]. apply Hnin.
    unfold disposed. apply list_elem_of_In, in_flat_map. exists e1'. split.
    + apply list_elem_of_In. apply list_elem_of_lookup. exists i.
      rewrite lookup_take_lt by done. exact Hi1.
    + apply list_elem_of_In. by rewrite Hd1.
  - intros w' ps' dt' Hu.
    pose proof (update_handles _ _ _ _ _ Hu) as Hf.
    destruct (Forall2_lookup_l _ _ _ _ _ Hf Hj) as (e2' & Hj2 & (_ & Hb2 & _)).
    rewrite Hb in Hb2.
    apply update_disposed_gone in Hu as [_ Hgone].
    destruct (update' w' dt' ps') as [[w'' ps'']|] eqn:Hu'; [|done]. exfalso.
    destruct (update_live _ _ _ _ _ _ _ _ Hu' Hj2 Hb2) as [x Hx].
    rewrite Hgone in Hx; [discriminate|]. unfold disposed. apply list_elem_of_In, in_flat_map. exists e1.
    split; [|by apply list_elem_of_In]. apply list_elem_of_In. by eapply list_elem_of_lookup_2.
Qed.

Section StepKeepsBodies.
(** [b2World::Step] moves bodies; it neither creates nor destroys any. *)
Hypothesis Step_keeps_bodies : forall (ts : F) (vi pi : Z) (bw : b2World F),
  dom (m_bodies (b2World_Step ts vi pi bw)) =@{gset nat} dom (m_bodies bw).

Lemma stepLoop_bodies (n : nat) : forall (w : list (Entity F)) (ps : PhysicsSystem F) w' ps',
  stepLoop' n w ps = Some (w', ps') ->
  dom (m_bodies (world_ ps')) =@{gset nat} dom (m_bodies (world_ ps)).
Proof.
  induction n as [|n IH]; intros w ps w' ps' Hs; simpl in Hs.
  - by inversion Hs.
  - destruct (each resetPass w ps) as [[w1 ps1]|] eqn:Hr; simpl in Hs; [|discriminate].
    apply resetPass_handles in Hr as [_ Hw]. apply IH in Hs. simpl in Hs.
    by rewrite Hs, Step_keeps_bodies, Hw.
Qed.

(** X3. Provided [b2World::Step] neither creates nor destroys bodies: the
    bodies of the world after a frame are those it had before but for the
    disposed ones, every disposed body was in the world, and
    [GetBodyCount] drops by the number of disposed bodies. *)
Theorem update_body_count (w : list (Entity F)) (dt : F)
    (ps : PhysicsSystem F) (w' : list (Entity F)) (ps' : PhysicsSystem F) :
  update' w dt ps = Some (w', ps') ->
  (forall k : BodyPtr,
      is_Some (m_bodies (world_ ps') !! k)
      <-> is_Some (m_bodies (world_ ps) !! k) /\ k ∉ disposed w)
  /\ (forall d : BodyPtr, d ∈ disposed w -> is_Some (m_bodies (world_ ps) !! d))
  /\ b2World_GetBodyCount (world_ ps') + length (disposed w)
     = b2World_GetBodyCount (world_ ps).
Proof.
  intros Hu.
  apply update_passes in Hu as (steps & ps1 & w1 & psa & w2 & ps2 & _ & Hw1 & Hsync & Hloop & Htw).
  pose proof (syncPass_all_bodies _ _ _ _ Hsync) as Hdom1. rewrite Hw1 in Hdom1.
  pose proof (stepLoop_bodies _ _ _ _ _ Hloop) as Hdom2.
  apply syncPass_all in Hsync as (Hk1 & _).
  apply stepLoop_spec in Hloop as (Hk2 & _).
  pose proof (Forall2_kept_trans _ _ _ Hk1 Hk2) as Hk.
  apply tweenPass_all_bodies in Htw as (_ & Hlive & Hlook & Hsz & _).
  rewrite (kept_disposed _ _ Hk) in Hlive, Hlook, Hsz. simpl in Hlive, Hlook, Hsz.
  assert (forall k, is_Some ((b2World_ClearForces (world_ ps2)).(m_bodies) !! k)
                    <-> is_Some (m_bodies (world_ ps) !! k)) as Hsame.
  { intros k. rewrite <- !elem_of_dom. simpl. by rewrite dom_fmap_L, Hdom2, Hdom1. }
  split; [|split].
  - intros k. rewrite Hlook. case_decide as Hin.
    + split; [by intros [? ?]|]. intros [_ Hnin]. done.
    + rewrite Hsame. split; [intros ?; done|by intros [? _]].
  - intros d Hd. apply Hsame. by apply Hlive.
  - unfold b2World_GetBodyCount. rewrite Hsz. simpl.
    rewrite map_size_fmap, <- !size_dom. by rewrite Hdom2, Hdom1.
Qed.
End StepKeepsBodies.


(** *** Static bodies *)

(** X7. A frame never writes the transform of an entity whose body is
    static, out of sync or not: the interpolation skips static bodies. *)
Theorem update_static_body_keeps_transform (w : list (Entity F)) (dt : F)
    (ps : PhysicsSystem F) (w' : list (Entity F)) (ps' : PhysicsSystem F)
    (i : nat) (e e' : Entity F) (b : BodyPtr) (bd : b2Body F) :
  update' w dt ps = Some (w', ps') ->
  w !! i = Some e -> w' !! i = Some e' ->
  body_ (rigidBody e) = Some b ->
  m_bodies (world_ ps') !! b = Some bd ->
  is_static (m_type bd) = true ->
  transform e' = transform e.
Proof.
  intros Hu Hi Hi' Hb Hbd Hst.
  apply update_phases in Hu as (s & c & p1 & w2 & ps2 & _ & Hk & _ & _ & Htw).
  destruct (Forall2_lookup_l _ _ _ _ _ Hk Hi) as (e2 & Hi2 & (_ & Ht2 & Hb2 & _)).
  eapply (each_lookup tweenPass only_deletes) in Htw as [_ Hl];
    eauto using only_deletes_refl, only_deletes_trans;
    [|intros; by eapply tweenPass_spec].
  destruct (Hl _ _ Hi') as (e3 & psa & psb & Hi3 & _ & Hp & [_ Hsub2]).
  rewrite Hi2 in Hi3. inversion Hi3; subst e3; clear Hi3.
  apply tweenPass_spec in Hp as (_ & _ & Hsm & [_ Hsub1] & _).
  assert (m_bodies (world_ psa) !! b = Some bd) as Hlive.
  { eapply lookup_weaken; [|exact Hsub1]. eapply lookup_weaken; [|exact Hsub2]. done. }
  unfold smoothState in Hsm. rewrite Hb2, Hb in Hsm. simpl in Hsm.
  rewrite Hlive in Hsm. simpl in Hsm. rewrite Hst in Hsm.
  inversion Hsm. congruence.
Qed.

(** *** The last fixed step of a frame *)

Lemma stepLoop_last (n : nat) : forall (w : list (Entity F)) (ps : PhysicsSystem F) w' ps',
  stepLoop' (S n) w ps = Some (w', ps') ->
  exists w0 ps0 psr,
    stepLoop' n w ps = Some (w0, ps0)
    /\ each resetPass w0 ps0 = Some (w', psr)
    /\ ps' = singleStep' fixedTimeStep_ psr.
Proof.
  induction n as [|n IH]; intros w ps w' ps' Hs.
  - simpl in Hs.
    destruct (each resetPass w ps) as [[w1 ps1]|] eqn:Hr; simpl in Hs; [|discriminate].
    inversion Hs; subst. exists w, ps, ps1. done.
  - change (stepLoop' (S (S n)) w ps)
      with ('(w1, ps1) ← each resetPass w ps; stepLoop' (S n) w1 (singleStep' fixedTimeStep_ ps1))
      in Hs.
    destruct (each resetPass w ps) as [[w1 ps1]|] eqn:Hr; simpl in Hs; [|discriminate].
    apply IH in Hs as (w0 & ps0 & psr & Hn & Hlast & ->).
    exists w0, ps0, psr. split; [|done].
    change (stepLoop' (S n) w ps)
      with ('(w1, ps1) ← each resetPass w ps; stepLoop' n w1 (singleStep' fixedTimeStep_ ps1)).
    rewrite Hr. simpl. exact Hn.
Qed.

(** The pose a capture stores. *)
Lemma resetPass_all_capture (w : list (Entity F)) : forall (ps : PhysicsSystem F) w' ps'
    (i : nat) (e' : Entity F) (b : BodyPtr),
  each resetPass w ps = Some (w', ps') ->
  w' !! i = Some e' -> body_ (rigidBody e') = Some b ->
  exists bd : b2Body F,
    m_bodies (world_ ps) !! b = Some bd
    /\ (is_static (m_type bd) = false ->
        previousPosition_ (rigidBody e') = m_position bd
        /\ previousAngle_ (rigidBody e') = m_angle bd).
Proof.
  induction w as [|e0 w IH]; intros ps w' ps' i e' b Hs Hi Hb.
  - inversion Hs; subst. by destruct i.
  - apply each_cons in Hs as (e1 & ps1 & w1 & He & Hw & ->).
    destruct i as [|i]; simpl in Hi.
    + inversion Hi; subst e1. unfold resetPass, resetSmoothStates in He.
      destruct (body_ (rigidBody e0)) as [b0|] eqn:Hb0; simpl in He.
      * destruct (m_bodies (world_ ps) !! b0) as [bd|] eqn:Hbd; simpl in He; [|discriminate].
        destruct (is_static (m_type bd)) eqn:Hst; inversion He; subst; simpl in Hb.
        -- rewrite Hb0 in Hb. inversion Hb; subst b0. exists bd. split; [done|].
           intros; congruence.
        -- inversion Hb; subst b0. exists bd. split; [done|]. intros _. simpl. done.
      * inversion He; subst. simpl in Hb. congruence.
    + apply resetPass_handle in He as [_ <-]. by eapply IH.
Qed.

(** X8. When a frame runs at least one fixed step, the previous pose an
    entity holds afterwards is the pose its body had just before the last
    step of that frame, for a body that was not static then; and the bodies
    of the world afterwards are bodies of that world stepped once more and
    cleared of forces.  The interpolation thus blends the poses on either
    side of the last step. *)
Theorem previous_pose_is_before_last_step (w : list (Entity F)) (dt : F)
    (ps : PhysicsSystem F) (w' : list (Entity F)) (ps' : PhysicsSystem F)
    (steps : Z) (i : nat) (e' : Entity F) (b : BodyPtr) :
  update' w dt ps = Some (w', ps') ->
  to_int (ffloor ((timeStepAccumilator_ ps +^ dt) /^ fixedTimeStep_)%flt) = Some steps ->
  (0 < steps)%Z -> (0 < maxSteps_)%Z ->
  w' !! i = Some e' ->
  body_ (rigidBody e') = Some b ->
  exists (before : b2World F) (bd : b2Body F),
    m_bodies (world_ ps')
    ⊆ m_bodies (b2World_ClearForces
                  (b2World_Step fixedTimeStep_ velocityIterations_ positionIterations_ before))
    /\ m_bodies before !! b = Some bd
    /\ (is_static (m_type bd) = false ->
        previousPosition_ (rigidBody e') = m_position bd
        /\ previousAngle_ (rigidBody e') = m_angle bd).
Proof.
  intros Hu Hsteps Hpos Hmax Hi Hb.
  apply update_passes in Hu as (steps' & ps1 & w1 & psa & w2 & ps2 & He & _ & _ & Hloop & Htw).
  apply extractSteps_spec in He as (Hs' & _). rewrite Hsteps in Hs'. inversion Hs'; subst steps'.
  destruct (Z.to_nat (Z.min steps maxSteps_)) as [|n] eqn:Hn; [lia|].
  apply stepLoop_last in Hloop as (w0 & ps0 & psr & _ & Hlast & ->).
  pose proof (resetPass_handles _ _ _ _ Hlast) as [_ Hwr].
  pose proof (tweenPass_all _ _ _ _ Htw) as [[_ Hsub] _]. simpl in Hsub. rewrite Hwr in Hsub.
  assert (exists e2, w2 !! i = Some e2 /\ body_ (rigidBody e2) = Some b
                     /\ previousPosition_ (rigidBody e') = previousPosition_ (rigidBody e2)
                     /\ previousAngle_ (rigidBody e') = previousAngle_ (rigidBody e2))
    as (e2 & Hi2 & Hb2 & Hpp & Hpa).
  { eapply (each_lookup tweenPass (fun _ _ => True)) in Htw as [_ Hl]; auto.
    destruct (Hl _ _ Hi) as (e2 & pa & pb & Hi2 & _ & Hp & _).
    apply tweenPass_spec in Hp as (_ & Hr & _). rewrite Hr in Hb |- *. simpl in *.
    exists e2. done. }
  destruct (resetPass_all_capture _ _ _ _ _ _ _ Hlast Hi2 Hb2) as (bd & Hbd & Hcap).
  exists (world_ ps0), bd. split; [exact Hsub|]. split; [exact Hbd|].
  intros Hst. rewrite Hpp, Hpa. by apply Hcap.
Qed.

End PhysicsSystemCoverage.

(** *** Resynchronisation followed by interpolation *)

Lemma syncOutOfSync_attached {F : Type} `{FloatOps F} (t : Transform F) (r : RigidBody F)
    (bw : b2World F) (b : BodyPtr) (bd : b2Body F) :
  isOutOfSync_ r = true ->
  body_ r = Some b ->
  m_bodies bw !! b = Some bd ->
  syncOutOfSync t r bw
  = Some (mkRigidBody (Some b) (convertToB2 (position t)) (rotation t) false (disposeList_ r),
          mkb2World (m_gravity bw)
            (<[b := mkb2Body (m_type bd) (convertToB2 (position t)) (rotation t) true
                      (m_force bd) (m_torque bd)]> (m_bodies bw))).
Proof.
  intros Hf Hb Hbd. unfold syncOutOfSync, b2Body_SetTransform, b2Body_SetAwake.
  rewrite Hf, Hb. simpl. rewrite Hbd. simpl. rewrite lookup_insert_eq. simpl.
  by rewrite insert_insert_eq.
Qed.

Lemma exact_blend_same (fraction x : Q) :
  ((fraction * (x / inject_Z 100) + (inject_Z 1 - fraction) * (x / inject_Z 100))
   * inject_Z 100 == x)%Q.
Proof. change (inject_Z 1) with 1%Q. change (inject_Z 100) with 100%Q. field. Qed.

(** The division by zero in binary32. *)
Lemma b32_div_zero (x : spec_float) (s : bool) :
  to_int (ffloor (x /^ S754_zero s)%flt) = None.
Proof. by destruct x. Qed.

(** X9. Resynchronisation followed by interpolation.  For an entity that
    is out of sync and whose body is alive, the first pass moves the body
    to the pose of the transform, wakes it, stores that pose as the previous
    pose and clears the flag, touching no other body and not the gravity.
    An interpolation that follows on a body that is not static writes back
    the rotation of the transform and the blend of the converted position
    with itself; in exact arithmetic that blend is the position of the
    transform, whatever the fraction. *)
Theorem resync_then_interpolate :
  (forall (F : Type) (ops : FloatOps F) (t : Transform F) (r : RigidBody F)
          (bw : b2World F) (b : BodyPtr) (bd : b2Body F),
      isOutOfSync_ r = true ->
      body_ r = Some b ->
      m_bodies bw !! b = Some bd ->
      exists (r' : RigidBody F) (bw' : b2World F),
        syncOutOfSync t r bw = Some (r', bw')
        /\ isOutOfSync_ r' = false
        /\ previousPosition_ r' = convertToB2 (position t)
        /\ previousAngle_ r' = rotation t
        /\ m_bodies bw' !! b
           = Some (mkb2Body (m_type bd) (convertToB2 (position t)) (rotation t) true
                     (m_force bd) (m_torque bd))
        /\ (forall k : BodyPtr, k <> b -> m_bodies bw' !! k = m_bodies bw !! k)
        /\ m_gravity bw' = m_gravity bw
        /\ (is_static (m_type bd) = false ->
            forall ps : PhysicsSystem F,
              world_ ps = bw' ->
              exists t' : Transform F,
                smoothState ps t r' = Some t'
                /\ rotation t' = rotation t
                /\ position t'
                   = tweenPosition (fixedTimeStepRatio_ ps)
                       (convertToB2 (position t)) (convertToB2 (position t))))
  /\ (forall (fraction : Q) (p : Vector2f Q),
        (sf_x (tweenPosition fraction (convertToB2 p) (convertToB2 p)) == sf_x p)%Q
        /\ (sf_y (tweenPosition fraction (convertToB2 p) (convertToB2 p)) == sf_y p)%Q).
Proof.
  split.
  - intros F ops t r bw b bd Hf Hb Hbd.
    rewrite (syncOutOfSync_attached t r bw b bd Hf Hb Hbd).
    eexists. eexists. split; [reflexivity|]. cbn [isOutOfSync_ previousPosition_ previousAngle_
      m_bodies m_gravity].
    split; [done|]. split; [done|]. split; [done|].
    split; [apply lookup_insert_eq|]. split; [intros k Hk; by apply lookup_insert_ne|].
    split; [done|]. intros Hst ps Hw.
    erewrite smoothState_attached; [| reflexivity | rewrite Hw; apply lookup_insert_eq | exact Hst].
    eexists. split; [reflexivity|]. done.
  - intros fraction [px py].
    unfold tweenPosition, convertToSF, convertToB2, b2Vec2_add, b2Vec2_scale, scale.
    cbn [sf_x sf_y b2_x b2_y]. exact_arith. split; apply exact_blend_same.
Qed.

(** X10. In exact arithmetic [convertToSF] and [convertToB2] are inverse
    to each other, and [getGravity] after [setGravity gx gy] returns
    [(gx, gy)].  In binary32 they are not: (0, 15) taken to physics
    coordinates and back is not (0, 15). *)
Theorem conversions_round_trip_exact :
  (forall v : Vector2f Q,
      (sf_x (convertToSF (convertToB2 v)) == sf_x v)%Q
      /\ (sf_y (convertToSF (convertToB2 v)) == sf_y v)%Q)
  /\ (forall v : b2Vec2 Q,
        (b2_x (convertToB2 (convertToSF v)) == b2_x v)%Q
        /\ (b2_y (convertToB2 (convertToSF v)) == b2_y v)%Q)
  /\ (forall (gx gy : Q) (ps : PhysicsSystem Q),
        (sf_x (getGravity (setGravity gx gy ps)) == gx)%Q
        /\ (sf_y (getGravity (setGravity gx gy ps)) == gy)%Q)
  /\ convertToSF (convertToB2 (mkVector2f (of_int 0) (of_int 15)))
     <> mkVector2f (F:=spec_float) (of_int 0) (of_int 15).
Proof.
  split; [|split; [|split]].
  - intros [x y]. unfold convertToSF, convertToB2, scale. cbn [sf_x sf_y b2_x b2_y]. exact_arith.
    change (inject_Z 100) with 100%Q. split; field.
  - intros [x y]. unfold convertToSF, convertToB2, scale. cbn [sf_x sf_y b2_x b2_y]. exact_arith.
    change (inject_Z 100) with 100%Q. split; field.
  - intros gx gy ps. unfold getGravity, setGravity, convertToSF, convertToB2, scale,
      b2World_GetGravity, b2World_SetGravity.
    cbn [sf_x sf_y b2_x b2_y world_ set_world m_gravity]. exact_arith.
    change (inject_Z 100) with 100%Q. split; field.
  - vm_compute. discriminate.
Qed.

(** X11. Where the step extraction is undefined.  In binary32 a fixed time
    step of zero, of either sign, makes every step extraction and every
    frame undefined: the quotient is an infinity or not a number, which has
    no conversion to [int].  In exact arithmetic the extraction is
    undefined exactly when the number of whole steps leaves the range of
    [int]. *)
Theorem step_extraction_undefined_cases :
  (forall (s : bool) (maxSteps vi pi : Z)
          (step : spec_float -> Z -> Z -> b2World spec_float -> b2World spec_float)
          (w : list (Entity spec_float)) (dt : spec_float) (ps : PhysicsSystem spec_float),
      extractSteps (S754_zero s) maxSteps dt ps = None
      /\ update (S754_zero s) maxSteps vi pi step w dt ps = None)
  /\ (forall (f : Q) (maxSteps : Z) (dt : Q) (ps : PhysicsSystem Q),
        extractSteps f maxSteps dt ps = None
        <-> (Qfloor ((timeStepAccumilator_ ps + dt) / f) < INT_MIN
             \/ INT_MAX < Qfloor ((timeStepAccumilator_ ps + dt) / f))%Z).
Proof.
  split.
  - intros s maxSteps vi pi step w dt ps.
    assert (extractSteps (S754_zero s) maxSteps dt ps = None) as He.
    { unfold extractSteps. by rewrite b32_div_zero. }
    split; [exact He|]. unfold update. by rewrite He.
  - intros f maxSteps dt ps. unfold extractSteps. rewrite exact_to_int_floor. exact_arith.
    set (q := Qfloor ((timeStepAccumilator_ ps + dt) / f)).
    destruct (in_int_range q) eqn:Hr; cbn [mbind option_bind option_ret].
    + split; [discriminate|]. unfold in_int_range in Hr.
      apply andb_prop in Hr as [H1 H2]. apply Z.leb_le in H1, H2. intros [Hc|Hc]; lia.
    + split; [intros _|done]. unfold in_int_range in Hr.
      apply andb_false_iff in Hr as [Hc|Hc]; apply Z.leb_gt in Hc; [by left|by right].
Qed.

(** X12. The constructor hands [defaultGravity_], (0, 10), to the physics
    world without converting it, so a new system reports the gravity
    (0, 1000), [scale] times [defaultGravity_], in binary32 as in exact
    arithmetic; [setGravity 0 10] on it reports (0, 10). *)
Theorem constructor_gravity_is_unconverted :
  (forall ratio0 : spec_float,
      defaultGravity_ (PhysicsSystem_new ratio0) = mkVector2f (of_int 0) (of_int 10)
      /\ getGravity (PhysicsSystem_new ratio0) = mkVector2f (of_int 0) (of_int 1000)
      /\ getGravity (setGravity (of_int 0) (of_int 10) (PhysicsSystem_new ratio0))
         = mkVector2f (of_int 0) (of_int 10))
  /\ (forall ratio0 : Q,
        (sf_x (getGravity (PhysicsSystem_new ratio0)) == 0)%Q
        /\ (sf_y (getGravity (PhysicsSystem_new ratio0)) == 1000)%Q
        /\ (sf_y (getGravity (PhysicsSystem_new ratio0))
            == inject_Z 100 * sf_y (defaultGravity_ (PhysicsSystem_new ratio0)))%Q).
Proof.
  split.
  - intros ratio0. split; [reflexivity|]. split; vm_compute; reflexivity.
  - intros ratio0. split; [|split]; vm_compute; reflexivity.
Qed.

(** ** The loop of [start] and the life cycle *)

Section GameCoverage.
Context {LuaState ECSWorld Time : Type}.
Variable ECSWorld_update : Time -> ECSWorld -> ECSWorld.
Variable ControlSystem_handleInput : Event -> LuaState -> LuaState.
Variable Script_startLua : LuaState -> LuaState.
Variable script_file_GameConfig : LuaState -> bool * LuaState.
Variable Script_registerSceneFunctions : ECSWorld -> LuaState -> LuaState.

Local Abbreviation Game_initialise' :=
  (Game_initialise (ECSWorld:=ECSWorld) (Time:=Time) Script_startLua script_file_GameConfig).
Local Abbreviation Game_switchScene' :=
  (Game_switchScene (Time:=Time) Script_registerSceneFunctions).
Local Abbreviation Game := (Game LuaState ECSWorld Time).
Local Abbreviation Scene := (Scene LuaState ECSWorld Time).
Local Abbreviation processEvents' := (processEvents ControlSystem_handleInput).
Local Abbreviation loopBody' := (loopBody ECSWorld_update ControlSystem_handleInput).
Local Abbreviation mainLoop' := (mainLoop ECSWorld_update ControlSystem_handleInput).
Local Abbreviation Game_start' := (Game_start ECSWorld_update ControlSystem_handleInput).

Lemma Status_eqb_eq (a b : Status) : Status_eqb a b = true <-> a = b.
Proof. destruct a, b; simpl; split; intros; done. Qed.

(** [start] up to the loop, and from the loop to the end. *)
Lemma Game_start_spec (frames : list (Frame Time)) (g : Game) :
  status_ g = Ready ->
  Window_alive (window_ g) = true ->
  exists g1 : Game,
    window_ g1 = window_ g /\ multiThread_ g1 = multiThread_ g
    /\ status_ g1 = Running /\ quitHook g1 = quitHook g
    /\ fps_ g1 = fps_ g
    /\ protocol (actions g1) = protocol (actions g) ++ [ActSetStatus Running]
    /\ Game_start' frames g
       = match mainLoop' frames g1 0 with
         | Finished g2 => Finished (Game_shutdown g2)
         | r => r
         end.
Proof.
  intros Hready Hw.
  exists (if multiThread_ g
          then act ActThreadDetach
                 (act ActThreadSpawn
                    (act (ActWindowSetActive false) (set_status Running g)))
          else set_status Running g).
  unfold Game_start. rewrite Hready. cbn [Status_eqb Status_rank Nat.eqb negb].
  rewrite Hw. cbn [negb]. rewrite andb_false_r.
  cbv zeta. cbn [multiThread_ set_status act].
  destruct (multiThread_ g) eqn:Hm.
  - repeat split; try (simpl; by rewrite ?Hm).
    + rewrite !protocol_act. simpl. rewrite protocol_app, !app_nil_r. reflexivity.
    + cbn [multiThread_ set_status act]. rewrite Hm.
      destruct (mainLoop' frames _ 0) as [|g2|g2]; try reflexivity.
      cbn [joinable Thread_detach]. by rewrite andb_false_r.
  - repeat split; try (simpl; by rewrite ?Hm).
    + simpl. rewrite protocol_app. reflexivity.
Qed.

Lemma loop_runs_until_closed_aux (frames : list (Frame Time)) (g : Game) :
  status_ g = Ready ->
  Window_alive (window_ g) = true ->
  Forall (quiet (multiThread_ g)) frames ->
  exists g' : Game,
    Game_start' frames g = StillRunning g'
    /\ status_ g' = Running
    /\ window_ g' = window_ g
    /\ protocol (actions g') = protocol (actions g) ++ [ActSetStatus Running].
Proof.
  intros Hready Hw Hq.
  destruct (Game_start_spec frames g Hready Hw) as (g1 & Hw1 & Hm1 & Hst1 & _ & _ & Hp1 & ->).
  destruct (mainLoop_quiet ECSWorld_update ControlSystem_handleInput frames g1 0)
    as (g' & n' & (Hw2 & Hm2 & Hst2 & _ & Hp2) & Hrest).
  { by rewrite Hm1. } { by rewrite Hst1. } { by rewrite Hw1. }
  specialize (Hrest []). rewrite app_nil_r in Hrest. rewrite Hrest. simpl.
  rewrite Hst2, Hst1. simpl. exists g'. split; [done|]. split; [congruence|].
  split; [congruence|]. congruence.
Qed.

(** X13. The loop of [start] ends through a [Closed] event only.  From
    Ready with a live window, over any turns that process no [Closed] event
    (in multithreaded mode a turn that does not obtain the lock of the
    window processes none), the main thread is still in the loop, the status
    is Running, the window is the one it was and the only step of the
    protocol taken is the entry into Running. *)
Theorem loop_runs_until_closed (frames : list (Frame Time)) (g : Game) :
  status_ g = Ready ->
  Window_alive (window_ g) = true ->
  Forall (quiet (multiThread_ g)) frames ->
  exists g' : Game,
    Game_start' frames g = StillRunning g'
    /\ status_ g' = Running
    /\ window_ g' = window_ g
    /\ protocol (actions g') = protocol (actions g) ++ [ActSetStatus Running].
Proof. apply loop_runs_until_closed_aux. Qed.


(** A turn of the loop on a live window: the events it processes, then the
    update and the rendering. *)
Lemma loopBody_unfold (fr : Frame Time) (g : Game) (n : nat) :
  Window_alive (window_ g) = true ->
  loopBody' fr g n
  = (g1 ← processEvents' (processed (multiThread_ g) fr)
            (if fpsSecondPassed fr then set_fps n g else g);
     g' ← updateAndRender ECSWorld_update (elapsed_ fr) g1;
     Some (g', S (if fpsSecondPassed fr then 0 else n))).
Proof.
  intros Hw. unfold loopBody, processed.
  destruct (fpsSecondPassed fr); cbn [multiThread_ window_ set_fps];
    (destruct (multiThread_ g); [destruct (lockAcquired fr)|]); rewrite ?Hw; reflexivity.
Qed.

(** A quit that nothing opposes, on a window that is gone. *)
Lemma Game_quit_dead (g : Game) :
  Window_alive (window_ g) = false ->
  unopposed g ->
  Game_quit g = None.
Proof.
  intros Hw Hun. unfold unopposed, quitHook in Hun.
  unfold Game_quit. cbn [currentScene_ set_status act].
  destruct (currentScene_ g) as [sc|] eqn:Hsc; simpl in Hun.
  - specialize (Hun (lua g)). unfold hook_gives_way in Hun.
    unfold Scene_quit. cbn [lua set_status act].
    destruct (valid (onQuit_ sc)); simpl in Hun |- *.
    + destruct (call (onQuit_ sc) () (lua g)) as [ok l]. simpl in Hun.
      destruct ok; [discriminate|]. simpl.
      unfold Game_terminate. simpl. by rewrite Hw.
    + unfold Game_terminate. simpl. by rewrite Hw.
  - unfold Game_terminate. simpl. by rewrite Hw.
Qed.

(** X14. [Game::quit] must not run twice.  When a turn processes a
    [Closed] event whose quit nothing opposes and then, in the same turn, a
    second [Closed] event, the second quit closes and deletes a window that
    is already deleted: [start] is undefined. *)
Theorem second_close_is_undefined (g : Game) (before : list (Frame Time))
    (closing : Frame Time) (after : list (Frame Time)) (pre mid post : list Event) :
  status_ g = Ready ->
  Window_alive (window_ g) = true ->
  Forall (quiet (multiThread_ g)) before ->
  processed (multiThread_ g) closing = pre ++ Closed :: mid ++ Closed :: post ->
  Forall (fun ev => is_Closed ev = false) pre ->
  Forall (fun ev => is_Closed ev = false) mid ->
  unopposed g ->
  Game_start' (before ++ closing :: after) g = Undefined.
Proof.
  intros Hready Hw Hbefore Hclosing Hpre Hmid Hun.
  destruct (Game_start_spec (before ++ closing :: after) g Hready Hw)
    as (g1 & Hw1 & Hm1 & Hst1 & Hh1 & _ & _ & ->).
  destruct (mainLoop_quiet ECSWorld_update ControlSystem_handleInput before g1 0)
    as (g2 & n2 & (Hw2 & Hm2 & Hst2 & Hh2 & _) & Hrest).
  { by rewrite Hm1. } { by rewrite Hst1. } { by rewrite Hw1. }
  rewrite Hrest. simpl. rewrite Hst2, Hst1. simpl.
  rewrite loopBody_unfold by (by rewrite Hw2, Hw1).
  rewrite Hm2, Hm1, Hclosing.
  set (g0 := if fpsSecondPassed closing then set_fps n2 g2 else g2).
  assert (steady g2 g0) as Hs0.
  { unfold g0. destruct (fpsSecondPassed closing); [apply set_fps_steady|apply steady_refl]. }
  destruct (processEvents_quiet ControlSystem_handleInput pre g0 Hpre) as (g3 & Hp3 & Hs3).
  pose proof (steady_trans _ _ _ Hs0 Hs3) as (Hw3 & Hm3 & Hst3 & Hh3 & _).
  destruct (Game_quit_spec g3) as (g4 & Hq & _ & Hw4 & Hsc4 & _).
  { by rewrite Hw3, Hw2, Hw1. }
  assert (unopposed g3) as Hun3.
  { unfold unopposed in *. by rewrite Hh3, Hh2, Hh1. }
  assert (match currentScene_ g3 with
          | Some sc => hook_gives_way (onQuit_ sc) (lua g3)
          | None => true
          end = true) as Hgw.
  { unfold unopposed, quitHook in Hun3. destruct (currentScene_ g3); [apply Hun3|done]. }
  rewrite Hgw in Hw4.
  destruct (processEvents_quiet ControlSystem_handleInput mid g4 Hmid)
    as (g5 & Hp5 & (Hw5 & _ & _ & Hh5 & _)).
  assert (Game_quit g5 = None) as Hdead.
  { apply Game_quit_dead; [by rewrite Hw5, Hw4|].
    unfold unopposed in *. rewrite Hh5. unfold quitHook at 1. rewrite Hsc4. exact Hun3. }
  rewrite processEvents_app, Hp3. simpl. rewrite Hq. simpl.
  rewrite processEvents_app, Hp5. simpl. rewrite Hdead. reflexivity.
Qed.

(** *** Turns with at most one [Closed] event *)

Lemma closeRequests_cons (ev : Event) (evs : list Event) :
  closeRequests (ev :: evs) = (if is_Closed ev then 1 else 0) + closeRequests evs.
Proof.
  unfold closeRequests. destruct (is_Closed ev) eqn:Hc.
  - by rewrite filter_cons_True by (by rewrite Hc).
  - by rewrite filter_cons_False by (by rewrite Hc).
Qed.

Lemma closeRequests_none (evs : list Event) :
  closeRequests evs = 0 -> Forall (fun ev => is_Closed ev = false) evs.
Proof.
  induction evs as [|ev evs IH]; [constructor|].
  rewrite closeRequests_cons. destruct (is_Closed ev) eqn:Hc; [done|].
  intros Hz. constructor; [done|]. by apply IH.
Qed.

Lemma processEvents_once (evs : list Event) : forall g : Game,
  closeRequests evs <= 1 ->
  Window_alive (window_ g) = true ->
  exists g' : Game,
    processEvents' evs g = Some g' /\ usable g' /\ multiThread_ g' = multiThread_ g.
Proof.
  induction evs as [|ev evs IH]; intros g Hc Hw.
  - exists g. split; [done|]. split; [by left|done].
  - rewrite closeRequests_cons in Hc. simpl.
    destruct (is_Closed ev) eqn:Hev.
    + destruct (Game_quit_spec g Hw) as (g1 & Hq & Hst1 & Hw1 & _ & Hm1 & _).
      rewrite Hq. simpl.
      assert (Forall (fun ev => is_Closed ev = false) evs) as Hq0.
      { apply closeRequests_none. lia. }
      destruct (processEvents_quiet ControlSystem_handleInput evs g1 Hq0)
        as (g' & Hp & (Hw' & Hm' & Hst' & _)).
      exists g'. split; [exact Hp|]. split; [|congruence].
      unfold usable. rewrite Hw', Hst', Hw1, Hst1.
      destruct (match currentScene_ g with
                | Some sc => hook_gives_way (onQuit_ sc) (lua g)
                | None => true
                end); [by right|by left].
    + simpl.
      pose proof (Game_handleEvent_steady ControlSystem_handleInput ev g) as (Hw1 & Hm1 & _).
      destruct (IH (Game_handleEvent ControlSystem_handleInput ev g)) as (g' & Hp & Hu & Hm').
      { lia. } { by rewrite Hw1. }
      exists g'. split; [exact Hp|]. split; [exact Hu|]. congruence.
Qed.

Lemma loopBody_once (fr : Frame Time) (g : Game) (n : nat) :
  closeRequests (processed (multiThread_ g) fr) <= 1 ->
  Window_alive (window_ g) = true ->
  exists (g' : Game) (n' : nat),
    loopBody' fr g n = Some (g', n') /\ usable g' /\ multiThread_ g' = multiThread_ g.
Proof.
  intros Hc Hw.
  destruct (processEvents_once _ (if fpsSecondPassed fr then set_fps n g else g) Hc)
    as (g1 & Hp & Hu1 & Hm1).
  { by destruct (fpsSecondPassed fr). }
  destruct (updateAndRender_steady ECSWorld_update (elapsed_ fr) g1 Hu1)
    as (g' & Ht & (Hw' & Hm' & Hst' & _)).
  exists g', (S (if fpsSecondPassed fr then 0 else n)).
  rewrite loopBody_unfold by exact Hw. rewrite Hp. simpl. rewrite Ht. simpl.
  split; [done|]. split.
  - unfold usable. by rewrite Hw', Hst'.
  - rewrite Hm', Hm1. by destruct (fpsSecondPassed fr).
Qed.

Lemma mainLoop_once (frames : list (Frame Time)) : forall (g : Game) (n : nat),
  Forall (fun fr => closeRequests (processed (multiThread_ g) fr) <= 1) frames ->
  usable g ->
  mainLoop' frames g n <> Undefined.
Proof.
  induction frames as [|fr frames IH]; intros g n Hc Hu.
  - simpl. by destruct (Status_ltb (status_ g) ShuttingDown).
  - simpl. destruct (Status_ltb (status_ g) ShuttingDown) eqn:Hlt; [|done].
    inversion Hc as [|? ? Hfr Hfrs]; subst.
    assert (Window_alive (window_ g) = true) as Hw.
    { destruct Hu as [Hw|Hs]; [exact Hw|]. rewrite Hs in Hlt. discriminate. }
    destruct (loopBody_once fr g n Hfr Hw) as (g' & n' & Hl & Hu' & Hm').
    rewrite Hl. apply IH; [|exact Hu']. by rewrite Hm'.
Qed.

Lemma start_defined_aux (frames : list (Frame Time)) (g : Game) :
  Forall (fun fr => closeRequests (processed (multiThread_ g) fr) <= 1) frames ->
  (status_ g = Ready -> Window_alive (window_ g) = true) ->
  Game_start' frames g <> Undefined.
Proof.
  intros Hc Hw.
  destruct (Status_eqb (status_ g) Ready) eqn:Hr.
  - assert (status_ g = Ready) as Hready.
    { destruct (status_ g); try discriminate. done. }
    specialize (Hw Hready).
    destruct (Game_start_spec frames g Hready Hw) as (g1 & Hw1 & Hm1 & _ & _ & _ & _ & ->).
    pose proof (mainLoop_once frames g1 0) as Hloop.
    destruct (mainLoop' frames g1 0); [|done|done].
    exfalso. apply Hloop; [by rewrite Hm1|left; by rewrite Hw1|done].
  - unfold Game_start. by rewrite Hr.
Qed.

(** X15. In single-threaded mode, from a live window, [start] never uses
    the window through a dangling pointer as long as no turn has two
    [Closed] events in its queue: on the turn that terminates the rendering
    is skipped and the loop is left. *)
Theorem single_thread_start_is_defined (frames : list (Frame Time)) (g : Game) :
  multiThread_ g = false ->
  Window_alive (window_ g) = true ->
  Forall (fun fr => closeRequests (queued fr) <= 1) frames ->
  Game_start' frames g <> Undefined.
Proof.
  intros Hm Hw Hc. apply start_defined_aux; [|done].
  rewrite Hm. exact Hc.
Qed.


(** *** The FPS counter *)

Lemma Game_quit_fps (g g' : Game) : Game_quit g = Some g' -> fps_ g' = fps_ g.
Proof.
  unfold Game_quit, Scene_quit, Game_terminate. cbn [currentScene_ set_status act window_ lua].
  intros Hq.
  destruct (currentScene_ g) as [sc|].
  - destruct (valid (onQuit_ sc)); simpl in Hq.
    + destruct (call (onQuit_ sc) () (lua g)) as [ok l]. destruct ok; simpl in Hq.
      * by inversion Hq.
      * destruct (Window_alive (window_ g)); [|discriminate]. by inversion Hq.
    + destruct (Window_alive (window_ g)); [|discriminate]. by inversion Hq.
  - destruct (Window_alive (window_ g)); [|discriminate]. by inversion Hq.
Qed.

Lemma Game_handleEvent_fps (ev : Event) (g : Game) :
  fps_ (Game_handleEvent ControlSystem_handleInput ev g) = fps_ g.
Proof.
  unfold Game_handleEvent. destruct ev; simpl; by destruct (currentScene_ g).
Qed.

Lemma processEvents_fps (evs : list Event) : forall g g' : Game,
  processEvents' evs g = Some g' -> fps_ g' = fps_ g.
Proof.
  induction evs as [|ev evs IH]; intros g g' Hp; simpl in Hp.
  - by inversion Hp.
  - destruct (is_Closed ev).
    + destruct (Game_quit g) as [g1|] eqn:Hq; simpl in Hp; [|discriminate].
      rewrite (IH _ _ Hp). by apply Game_quit_fps.
    + simpl in Hp. rewrite (IH _ _ Hp). apply Game_handleEvent_fps.
Qed.

Lemma updateAndRender_fps (dt : Time) (g g' : Game) :
  updateAndRender ECSWorld_update dt g = Some g' -> fps_ g' = fps_ g.
Proof.
  unfold updateAndRender, Game_update, Game_render. cbv zeta. intros Hu.
  destruct (currentScene_ g) as [sc|]; simpl in Hu.
  - destruct (multiThread_ g); simpl in Hu; [by inversion Hu|].
    destruct (Status_ltb (status_ g) ShuttingDown); [|by inversion Hu].
    destruct (Window_alive (window_ g)); [|discriminate]. by inversion Hu.
  - destruct (multiThread_ g); simpl in Hu; [by inversion Hu|].
    destruct (Status_ltb (status_ g) ShuttingDown); [|by inversion Hu].
    destruct (Window_alive (window_ g)); [|discriminate]. by inversion Hu.
Qed.

(** What a turn does to the counter of turns and to the FPS figure. *)
Lemma loopBody_fps (fr : Frame Time) (g : Game) (n : nat) (g' : Game) (n' : nat) :
  loopBody' fr g n = Some (g', n') ->
  fps_ g' = (if fpsSecondPassed fr then n else fps_ g)
  /\ n' = S (if fpsSecondPassed fr then 0 else n).
Proof.
  unfold loopBody. intros Hl.
  set (g0 := if fpsSecondPassed fr then set_fps n g else g) in *.
  assert (fps_ g0 = (if fpsSecondPassed fr then n else fps_ g)) as Hf0.
  { unfold g0. by destruct (fpsSecondPassed fr). }
  assert ((if fpsSecondPassed fr then (set_fps n g, 0) else (g, n))
          = (g0, if fpsSecondPassed fr then 0 else n)) as Hpair.
  { unfold g0. by destruct (fpsSecondPassed fr). }
  rewrite Hpair in Hl. clear Hpair.
  match type of Hl with (?p ≫= _) = _ => destruct p as [g1|] eqn:Hp end;
    simpl in Hl; [|discriminate].
  destruct (updateAndRender ECSWorld_update (elapsed_ fr) g1) as [g2|] eqn:Hu;
    simpl in Hl; [|discriminate].
  inversion Hl; subst; clear Hl. split; [|done].
  rewrite (updateAndRender_fps _ _ _ Hu), <- Hf0.
  destruct (if multiThread_ g0 then lockAcquired fr else true).
  - destruct (Window_alive (window_ g0)); [|discriminate]. by eapply processEvents_fps.
  - by inversion Hp.
Qed.

Lemma mainLoop_running_cons (fr : Frame Time) (frames : list (Frame Time))
    (g : Game) (n : nat) (g' : Game) :
  mainLoop' (fr :: frames) g n = StillRunning g' ->
  exists (g1 : Game) (n1 : nat),
    loopBody' fr g n = Some (g1, n1) /\ mainLoop' frames g1 n1 = StillRunning g'.
Proof.
  simpl. destruct (Status_ltb (status_ g) ShuttingDown); [|discriminate].
  destruct (loopBody' fr g n) as [[g1 n1]|]; [|discriminate]. eauto.
Qed.

(** Turns between two ticks of the FPS clock. *)
Lemma mainLoop_no_tick (pre : list (Frame Time)) : forall (rest : list (Frame Time))
    (g : Game) (n : nat) (g' : Game),
  Forall (fun fr => fpsSecondPassed fr = false) pre ->
  mainLoop' (pre ++ rest) g n = StillRunning g' ->
  exists g1 : Game,
    fps_ g1 = fps_ g /\ mainLoop' rest g1 (n + length pre) = StillRunning g'.
Proof.
  induction pre as [|fr pre IH]; intros rest g n g' Hpre Hl.
  - exists g. split; [done|]. simpl. by rewrite Nat.add_0_r.
  - inversion Hpre as [|? ? Hfr Hpre']; subst.
    apply mainLoop_running_cons in Hl as (g1 & n1 & Hb & Hl).
    apply loopBody_fps in Hb as [Hf ->]. rewrite Hfr in Hf, Hl.
    destruct (IH _ _ _ _ Hpre' Hl) as (g2 & Hf2 & Hl2).
    exists g2. split; [congruence|].
    simpl. by replace (n + S (length pre)) with (S n + length pre) by lia.
Qed.

Lemma mainLoop_tick (tick : Frame Time) (rest : list (Frame Time))
    (g : Game) (n : nat) (g' : Game) :
  fpsSecondPassed tick = true ->
  mainLoop' (tick :: rest) g n = StillRunning g' ->
  exists g1 : Game, fps_ g1 = n /\ mainLoop' rest g1 1 = StillRunning g'.
Proof.
  intros Ht Hl. apply mainLoop_running_cons in Hl as (g1 & n1 & Hb & Hl).
  apply loopBody_fps in Hb as [Hf ->]. rewrite Ht in Hf, Hl. eauto.
Qed.

Lemma mainLoop_running_nil (g : Game) (n : nat) (g' : Game) :
  mainLoop' [] g n = StillRunning g' -> g' = g.
Proof.
  simpl. destruct (Status_ltb (status_ g) ShuttingDown); [|discriminate]. by inversion 1.
Qed.

Lemma Game_start_running (frames : list (Frame Time)) (g g' : Game) :
  Game_start' frames g = StillRunning g' ->
  exists g1 : Game, fps_ g1 = fps_ g /\ mainLoop' frames g1 0 = StillRunning g'.
Proof.
  unfold Game_start. intros Hs.
  destruct (negb (Status_eqb (status_ g) Ready)); [discriminate|].
  destruct (multiThread_ g && negb (Window_alive (window_ g))); [discriminate|].
  cbv zeta in Hs.
  match type of Hs with
  | context [mainLoop _ _ frames ?x 0] =>
      exists x; split; [cbn [multiThread_ set_status act]; destruct (multiThread_ g) eqn:Hm;
                        cbn [multiThread_ set_status act]; rewrite ?Hm; reflexivity|];
      destruct (mainLoop' frames x 0); try discriminate; exact Hs
  end.
Qed.

(** X16. The FPS figure while the loop turns.  It changes only on a turn
    at which the FPS clock has passed one second.  At the first such turn it
    becomes the number of turns before that turn; at a later one it becomes
    the number of turns since the previous such turn, that turn counted and
    the present one not. *)
Theorem fps_counts_turns (frames : list (Frame Time)) (g g' : Game) :
  Game_start' frames g = StillRunning g' ->
  (Forall (fun fr => fpsSecondPassed fr = false) frames -> fps_ g' = fps_ g)
  /\ (forall (pre : list (Frame Time)) (tick : Frame Time) (post : list (Frame Time)),
        frames = pre ++ tick :: post ->
        Forall (fun fr => fpsSecondPassed fr = false) pre ->
        fpsSecondPassed tick = true ->
        Forall (fun fr => fpsSecondPassed fr = false) post ->
        fps_ g' = length pre)
  /\ (forall (earlier : list (Frame Time)) (tick1 : Frame Time) (mid : list (Frame Time))
             (tick2 : Frame Time) (post : list (Frame Time)),
        frames = earlier ++ tick1 :: mid ++ tick2 :: post ->
        fpsSecondPassed tick1 = true ->
        Forall (fun fr => fpsSecondPassed fr = false) mid ->
        fpsSecondPassed tick2 = true ->
        Forall (fun fr => fpsSecondPassed fr = false) post ->
        fps_ g' = S (length mid)).
Proof.
  intros Hs. apply Game_start_running in Hs as (g1 & Hf1 & Hl).
  assert (forall (post : list (Frame Time)) (ga : Game) (n : nat),
            Forall (fun fr => fpsSecondPassed fr = false) post ->
            mainLoop' post ga n = StillRunning g' -> fps_ g' = fps_ ga) as Hpost.
  { intros post ga n Hp Hm. rewrite <- (app_nil_r post) in Hm.
    apply mainLoop_no_tick in Hm as (gb & Hfb & Hm); [|exact Hp].
    apply mainLoop_running_nil in Hm. congruence. }
  split; [|split].
  - intros Hno. rewrite <- Hf1. by eapply Hpost.
  - intros pre tick post -> Hpre Htick Hno.
    apply mainLoop_no_tick in Hl as (g2 & _ & Hl); [|exact Hpre].
    apply mainLoop_tick in Hl as (g3 & Hf3 & Hl); [|exact Htick].
    rewrite (Hpost _ _ _ Hno Hl), Hf3. done.
  - intros earlier tick1 mid tick2 post -> Ht1 Hmid Ht2 Hno.
    assert (exists ga na, mainLoop' (tick1 :: mid ++ tick2 :: post) ga na = StillRunning g')
      as (ga & na & Hl1).
    { clear Hf1. revert g1 Hl. generalize 0.
      induction earlier as [|fr earlier IH]; intros n g1 Hl; [eauto|].
      apply mainLoop_running_cons in Hl as (gx & nx & _ & Hl). eauto. }
    apply mainLoop_tick in Hl1 as (g2 & _ & Hl2); [|exact Ht1].
    apply mainLoop_no_tick in Hl2 as (g3 & _ & Hl3); [|exact Hmid].
    apply mainLoop_tick in Hl3 as (g4 & Hf4 & Hl4); [|exact Ht2].
    rewrite (Hpost _ _ _ Hno Hl4), Hf4. done.
Qed.

(** *** The status during the loop *)

Lemma advanced_refl (g : Game) : advanced g g.
Proof. by left. Qed.

Lemma advanced_trans (a b c : Game) : advanced a b -> advanced b c -> advanced a c.
Proof.
  unfold advanced. intros Hab [Hbc|Hbc]; [|by right].
  rewrite Hbc. exact Hab.
Qed.

Lemma Game_quit_advanced (g g' : Game) : Game_quit g = Some g' -> advanced g g'.
Proof.
  unfold Game_quit, Scene_quit, Game_terminate. cbn [currentScene_ set_status act window_ lua].
  intros Hq. right.
  destruct (currentScene_ g) as [sc|].
  - destruct (valid (onQuit_ sc)); simpl in Hq.
    + destruct (call (onQuit_ sc) () (lua g)) as [ok l]. destruct ok; simpl in Hq.
      * inversion Hq. by left.
      * destruct (Window_alive (window_ g)); [|discriminate]. inversion Hq. by right.
    + destruct (Window_alive (window_ g)); [|discriminate]. inversion Hq. by right.
  - destruct (Window_alive (window_ g)); [|discriminate]. inversion Hq. by right.
Qed.

Lemma processEvents_advanced (evs : list Event) : forall g g' : Game,
  processEvents' evs g = Some g' -> advanced g g'.
Proof.
  induction evs as [|ev evs IH]; intros g g' Hp; simpl in Hp.
  - inversion Hp. apply advanced_refl.
  - destruct (is_Closed ev).
    + destruct (Game_quit g) as [g1|] eqn:Hq; simpl in Hp; [|discriminate].
      eapply advanced_trans; [by apply Game_quit_advanced|by apply IH].
    + simpl in Hp. eapply advanced_trans; [|by apply IH].
      left. by destruct (Game_handleEvent_steady ControlSystem_handleInput ev g) as (_ & _ & ? & _).
Qed.

Lemma updateAndRender_status (dt : Time) (g g' : Game) :
  updateAndRender ECSWorld_update dt g = Some g' -> status_ g' = status_ g.
Proof.
  unfold updateAndRender, Game_update, Game_render. cbv zeta. intros Hu.
  destruct (currentScene_ g) as [sc|]; simpl in Hu.
  - destruct (multiThread_ g); simpl in Hu; [by inversion Hu|].
    destruct (Status_ltb (status_ g) ShuttingDown); [|by inversion Hu].
    destruct (Window_alive (window_ g)); [|discriminate]. by inversion Hu.
  - destruct (multiThread_ g); simpl in Hu; [by inversion Hu|].
    destruct (Status_ltb (status_ g) ShuttingDown); [|by inversion Hu].
    destruct (Window_alive (window_ g)); [|discriminate]. by inversion Hu.
Qed.

Lemma loopBody_advanced (fr : Frame Time) (g : Game) (n : nat) (g' : Game) (n' : nat) :
  loopBody' fr g n = Some (g', n') -> advanced g g'.
Proof.
  unfold loopBody. intros Hl.
  set (g0 := if fpsSecondPassed fr then set_fps n g else g) in *.
  assert (status_ g0 = status_ g) as Hs0.
  { unfold g0. by destruct (fpsSecondPassed fr). }
  assert ((if fpsSecondPassed fr then (set_fps n g, 0) else (g, n))
          = (g0, if fpsSecondPassed fr then 0 else n)) as Hpair.
  { unfold g0. by destruct (fpsSecondPassed fr). }
  rewrite Hpair in Hl. clear Hpair.
  match type of Hl with (?p ≫= _) = _ => destruct p as [g1|] eqn:Hp end;
    simpl in Hl; [|discriminate].
  destruct (updateAndRender ECSWorld_update (elapsed_ fr) g1) as [g2|] eqn:Hu;
    simpl in Hl; [|discriminate].
  inversion Hl; subst; clear Hl.
  apply updateAndRender_status in Hu.
  assert (advanced g0 g1) as Ha.
  { destruct (if multiThread_ g0 then lockAcquired fr else true).
    - destruct (Window_alive (window_ g0)); [|discriminate]. by eapply processEvents_advanced.
    - inversion Hp. apply advanced_refl. }
  unfold advanced in *. rewrite Hu, <- Hs0. exact Ha.
Qed.

Lemma status_aux (frames : list (Frame Time)) : forall (g : Game) (n : nat) (g' : Game),
  mainLoop' frames g n = StillRunning g' \/ mainLoop' frames g n = Finished g' ->
  Status_rank (status_ g) <= Status_rank (status_ g').
Proof.
  induction frames as [|fr frames IH]; intros g n g' Hl.
  - simpl in Hl. destruct (Status_ltb (status_ g) ShuttingDown);
      destruct Hl as [Hl|Hl]; inversion Hl; done.
  - simpl in Hl. destruct (Status_ltb (status_ g) ShuttingDown) eqn:Hlt.
    + destruct (loopBody' fr g n) as [[g1 n1]|] eqn:Hb; [|by destruct Hl].
      apply IH in Hl. apply loopBody_advanced in Hb.
      unfold Status_ltb in Hlt. apply Nat.ltb_lt in Hlt. simpl in Hlt.
      destruct Hb as [Hb|[Hb|Hb]]; rewrite Hb in Hl; simpl in Hl; lia.
    + destruct Hl as [Hl|Hl]; inversion Hl; done.
Qed.

Lemma mainLoop_running_status (frames : list (Frame Time)) : forall (g : Game) (n : nat)
    (g' : Game),
  mainLoop' frames g n = StillRunning g' -> Status_ltb (status_ g') ShuttingDown = true.
Proof.
  induction frames as [|fr frames IH]; intros g n g' Hl.
  - simpl in Hl. destruct (Status_ltb (status_ g) ShuttingDown) eqn:Hlt; [|discriminate].
    by inversion Hl; subst.
  - apply mainLoop_running_cons in Hl as (g1 & n1 & _ & Hl). by eapply IH.
Qed.



(** *** [start] and [initialise] *)

Lemma Game_start_refused (frames : list (Frame Time)) (g : Game) :
  status_ g <> Ready -> Game_start' frames g = Finished g.
Proof.
  intros Hne. unfold Game_start.
  destruct (Status_eqb (status_ g) Ready) eqn:He; [|done].
  by apply Status_eqb_eq in He.
Qed.

Lemma Game_start_finished (frames : list (Frame Time)) (g g' : Game) :
  status_ g = Ready ->
  Game_start' frames g = Finished g' ->
  status_ g' = Uninitialised.
Proof.
  unfold Game_start. intros Hr Hs. rewrite Hr in Hs. cbn [Status_eqb Status_rank Nat.eqb negb] in Hs.
  destruct (multiThread_ g && negb (Window_alive (window_ g))); [discriminate|].
  cbv zeta in Hs.
  match type of Hs with
  | context [mainLoop _ _ frames ?x 0] => destruct (mainLoop' frames x 0); try discriminate
  end.
  inversion Hs. apply Game_shutdown_spec.
Qed.

(** X20. [start] runs from Ready only: in any other status it returns at
    once and changes nothing.  A run that has finished leaves the status
    Uninitialised, so that [start] is refused from then on, until
    [initialise] has made the game Ready again. *)
Theorem start_needs_ready (frames : list (Frame Time)) (g : Game) :
  (status_ g <> Ready -> Game_start' frames g = Finished g)
  /\ (forall g' : Game,
        status_ g = Ready ->
        Game_start' frames g = Finished g' ->
        status_ g' = Uninitialised
        /\ forall frames' : list (Frame Time), Game_start' frames' g' = Finished g').
Proof.
  split; [apply Game_start_refused|].
  intros g' Hr Hs. pose proof (Game_start_finished _ _ _ Hr Hs) as Hu.
  split; [exact Hu|]. intros frames'. apply Game_start_refused. by rewrite Hu.
Qed.


(** *** Scenes shown and hidden *)

Lemma showScene_aux (sc : Scene) (l : LuaState) :
  hasBegun_ (fst (Scene_showScene sc l)) = true
  /\ scene_world_ (fst (Scene_showScene sc l)) = scene_world_ sc
  /\ onQuit_ (fst (Scene_showScene sc l)) = onQuit_ sc
  /\ snd (Scene_showScene sc l)
     = (let l1 := if hasBegun_ sc then l
                  else if valid (onBegin_ sc) then snd (call (onBegin_ sc) tt l) else l in
        if valid (onShow_ sc) then snd (call (onShow_ sc) tt l1) else l1)
  /\ forall l' : LuaState,
       Scene_showScene (fst (Scene_showScene sc l)) l'
       = (fst (Scene_showScene sc l),
          if valid (onShow_ sc) then snd (call (onShow_ sc) tt l') else l').
Proof.
  unfold Scene_showScene, Scene_begin. destruct sc as [begun world b s h u e q].
  destruct begun; simpl; done.
Qed.

(** X22. A scene begins once.  [showScene] leaves the scene begun, whether
    or not the begin hook is valid and whether or not its call succeeds.
    It runs the begin hook first, and only when the scene has not begun,
    then the show hook.  Showing the scene again runs the show hook
    alone. *)
Theorem scene_begins_once (sc : Scene) (l : LuaState) :
  hasBegun_ (fst (Scene_showScene sc l)) = true
  /\ scene_world_ (fst (Scene_showScene sc l)) = scene_world_ sc
  /\ onQuit_ (fst (Scene_showScene sc l)) = onQuit_ sc
  /\ snd (Scene_showScene sc l)
     = (let l1 := if hasBegun_ sc then l
                  else if valid (onBegin_ sc) then snd (call (onBegin_ sc) tt l) else l in
        if valid (onShow_ sc) then snd (call (onShow_ sc) tt l1) else l1)
  /\ forall l' : LuaState,
       Scene_showScene (fst (Scene_showScene sc l)) l'
       = (fst (Scene_showScene sc l),
          if valid (onShow_ sc) then snd (call (onShow_ sc) tt l') else l').
Proof. apply showScene_aux. Qed.

Lemma switchScene_aux (scene : option Scene) (g : Game) :
  window_ (Game_switchScene' scene g) = window_ g
  /\ status_ (Game_switchScene' scene g) = status_ g
  /\ multiThread_ (Game_switchScene' scene g) = multiThread_ g
  /\ actions (Game_switchScene' scene g) = actions g
  /\ quitHook (Game_switchScene' scene g) = onQuit_ <$> scene
  /\ (forall sc : Scene,
        currentScene_ (Game_switchScene' scene g) = Some sc -> hasBegun_ sc = true)
  /\ (scene = None -> currentScene_ (Game_switchScene' scene g) = None).
Proof.
  unfold Game_switchScene. destruct scene as [sc|]; cbv zeta.
  - destruct (Scene_showScene sc _) as [sc1 l1] eqn:Hshow.
    pose proof (showScene_aux sc
                  (Scene_registerFunctions Script_registerSceneFunctions sc
                     match currentScene_ g with
                     | Some old => Scene_hideScene old (lua g)
                     | None => lua g
                     end)) as (Hb & _ & Hq & _).
    rewrite Hshow in Hb, Hq. simpl in Hb, Hq.
    repeat split; try done.
    + unfold quitHook. simpl. by rewrite Hq.
    + intros sc' Hc. simpl in Hc. by inversion Hc; subst.
  - repeat split; try done.
Qed.

Lemma quit_after_switch_aux (g : Game) :
  Window_alive (window_ g) = true ->
  exists g' : Game,
    Game_quit (Game_switchScene' None g) = Some g'
    /\ status_ g' = ShuttingDown
    /\ window_ g' = WindowDeleted.
Proof.
  intros Hw.
  destruct (switchScene_aux None g) as (Hw1 & _ & _ & _ & _ & _ & Hnone).
  destruct (Game_quit_spec (Game_switchScene' None g)) as (g' & Hq & Hst & Hwin & _).
  { by rewrite Hw1. }
  cbv zeta in Hst, Hwin. rewrite (Hnone eq_refl) in Hst, Hwin. eauto.
Qed.



(** *** What the turns leave of the view and of the scene *)

Lemma Game_quit_rest (g g' : Game) :
  Game_quit g = Some g' ->
  view g' = view g /\ currentScene_ g' = currentScene_ g /\ multiThread_ g' = multiThread_ g.
Proof.
  unfold Game_quit, Scene_quit, Game_terminate. cbn [currentScene_ set_status act window_ lua].
  intros Hq.
  destruct (currentScene_ g) as [sc|] eqn:Hsc.
  - destruct (valid (onQuit_ sc)); simpl in Hq.
    + destruct (call (onQuit_ sc) () (lua g)) as [ok l]. destruct ok; simpl in Hq.
      * inversion Hq. simpl. rewrite ?Hsc. done.
      * destruct (Window_alive (window_ g)); [|discriminate]. inversion Hq. simpl. rewrite ?Hsc. done.
    + destruct (Window_alive (window_ g)); [|discriminate]. inversion Hq. simpl. rewrite ?Hsc. done.
  - destruct (Window_alive (window_ g)); [|discriminate]. inversion Hq. simpl. rewrite ?Hsc. done.
Qed.

Lemma Game_handleEvent_rest (ev : Event) (g : Game) :
  view (Game_handleEvent ControlSystem_handleInput ev g) = viewAfter (view g) [ev]
  /\ currentScene_ (Game_handleEvent ControlSystem_handleInput ev g) = currentScene_ g.
Proof.
  unfold Game_handleEvent, viewAfter.
  destruct ev; simpl; destruct (currentScene_ g) eqn:Hs; simpl; rewrite ?Hs; done.
Qed.

Lemma processEvents_rest (evs : list Event) : forall g g' : Game,
  processEvents' evs g = Some g' ->
  view g' = viewAfter (view g) evs
  /\ currentScene_ g' = currentScene_ g
  /\ multiThread_ g' = multiThread_ g.
Proof.
  induction evs as [|ev evs IH]; intros g g' Hp; simpl in Hp.
  - by inversion Hp.
  - destruct (is_Closed ev) eqn:Hc.
    + destruct (Game_quit g) as [g1|] eqn:Hq; simpl in Hp; [|discriminate].
      apply Game_quit_rest in Hq as (Hv & Hs & Hm). apply IH in Hp as (Hv' & Hs' & Hm').
      destruct ev; try discriminate. unfold viewAfter in *. simpl. rewrite <- Hv.
      split; [done|]. split; congruence.
    + simpl in Hp. apply IH in Hp as (Hv' & Hs' & Hm').
      destruct (Game_handleEvent_rest ev g) as [Hv Hs].
      pose proof (Game_handleEvent_steady ControlSystem_handleInput ev g) as (_ & Hm & _).
      split; [|split; congruence].
      rewrite Hv', Hv. reflexivity.
Qed.

Lemma updateAndRender_rest (dt : Time) (g g' : Game) :
  updateAndRender ECSWorld_update dt g = Some g' ->
  view g' = view g
  /\ multiThread_ g' = multiThread_ g
  /\ match currentScene_ g with
     | Some sc =>
         exists sc' : Scene,
           currentScene_ g' = Some sc'
           /\ scene_world_ sc' = ECSWorld_update dt (scene_world_ sc)
     | None => currentScene_ g' = None
     end.
Proof.
  unfold updateAndRender, Game_update, Game_render, Scene_update. cbv zeta. intros Hu.
  destruct (currentScene_ g) as [sc|] eqn:Hsc; simpl in Hu.
  - destruct (multiThread_ g) eqn:Hm; simpl in Hu.
    + inversion Hu. simpl. eauto.
    + destruct (Status_ltb (status_ g) ShuttingDown).
      * destruct (Window_alive (window_ g)); [|discriminate]. inversion Hu. simpl. eauto.
      * inversion Hu. simpl. eauto.
  - destruct (multiThread_ g) eqn:Hm; simpl in Hu.
    + inversion Hu. simpl. by rewrite Hsc.
    + destruct (Status_ltb (status_ g) ShuttingDown).
      * destruct (Window_alive (window_ g)); [|discriminate]. inversion Hu. simpl. by rewrite Hsc.
      * inversion Hu; subst. auto.
Qed.

Lemma loopBody_rest (fr : Frame Time) (g : Game) (n : nat) (g' : Game) (n' : nat) :
  loopBody' fr g n = Some (g', n') ->
  view g' = viewAfter (view g) (processed (multiThread_ g) fr)
  /\ multiThread_ g' = multiThread_ g
  /\ match currentScene_ g with
     | Some sc =>
         exists sc' : Scene,
           currentScene_ g' = Some sc'
           /\ scene_world_ sc' = ECSWorld_update (elapsed_ fr) (scene_world_ sc)
     | None => currentScene_ g' = None
     end.
Proof.
  unfold loopBody. intros Hl.
  set (g0 := if fpsSecondPassed fr then set_fps n g else g) in *.
  assert (view g0 = view g /\ multiThread_ g0 = multiThread_ g
          /\ currentScene_ g0 = currentScene_ g) as (Hv0 & Hm0 & Hs0).
  { unfold g0. by destruct (fpsSecondPassed fr). }
  assert ((if fpsSecondPassed fr then (set_fps n g, 0) else (g, n))
          = (g0, if fpsSecondPassed fr then 0 else n)) as Hpair.
  { unfold g0. by destruct (fpsSecondPassed fr). }
  rewrite Hpair in Hl. clear Hpair.
  match type of Hl with (?p ≫= _) = _ => destruct p as [g1|] eqn:Hp end;
    simpl in Hl; [|discriminate].
  destruct (updateAndRender ECSWorld_update (elapsed_ fr) g1) as [g2|] eqn:Hu;
    simpl in Hl; [|discriminate].
  inversion Hl; subst; clear Hl.
  apply updateAndRender_rest in Hu as (Hv2 & Hm2 & Hs2).
  assert (view g1 = viewAfter (view g0) (processed (multiThread_ g0) fr)
          /\ currentScene_ g1 = currentScene_ g0 /\ multiThread_ g1 = multiThread_ g0)
    as (Hv1 & Hs1 & Hm1).
  { unfold processed. destruct (multiThread_ g0) eqn:Hmg.
    - destruct (lockAcquired fr).
      + destruct (Window_alive (window_ g0)); [|discriminate].
        apply processEvents_rest in Hp as (? & ? & ?).
        split; [done|]. split; [done|congruence].
      + inversion Hp; subst. done.
    - destruct (Window_alive (window_ g0)); [|discriminate].
      apply processEvents_rest in Hp as (? & ? & ?).
      split; [done|]. split; [done|congruence]. }
  rewrite Hs1, Hs0 in Hs2. rewrite Hv2, Hv1, Hv0, Hm0, Hm2, Hm1.
  split; [done|]. split; [done|]. exact Hs2.
Qed.

Lemma viewAfter_app (v : nat * nat) (a b : list Event) :
  viewAfter v (a ++ b) = viewAfter (viewAfter v a) b.
Proof. unfold viewAfter. apply foldl_app. Qed.

Lemma mainLoop_rest (frames : list (Frame Time)) : forall (g : Game) (n : nat) (g' : Game),
  mainLoop' frames g n = StillRunning g' ->
  view g' = viewAfter (view g) (concat (map (processed (multiThread_ g)) frames))
  /\ match currentScene_ g with
     | Some sc =>
         exists sc' : Scene,
           currentScene_ g' = Some sc'
           /\ scene_world_ sc'
              = foldl (fun world fr => ECSWorld_update (elapsed_ fr) world)
                  (scene_world_ sc) frames
     | None => currentScene_ g' = None
     end.
Proof.
  induction frames as [|fr frames IH]; intros g n g' Hl.
  - apply mainLoop_running_nil in Hl. subst g'. split; [done|].
    destruct (currentScene_ g) as [sc|]; [|done]. by exists sc.
  - apply mainLoop_running_cons in Hl as (g1 & n1 & Hb & Hl).
    apply loopBody_rest in Hb as (Hv1 & Hm1 & Hs1).
    apply IH in Hl as (Hv & Hs). rewrite Hm1 in Hv.
    split.
    + simpl. rewrite viewAfter_app, <- Hv1. exact Hv.
    + destruct (currentScene_ g) as [sc|].
      * destruct Hs1 as (sc1 & Hc1 & Hw1). rewrite Hc1 in Hs.
        destruct Hs as (sc' & Hc' & Hw'). exists sc'. split; [exact Hc'|].
        simpl. by rewrite <- Hw1.
      * by rewrite Hs1 in Hs.
Qed.

Lemma start_rest_aux (frames : list (Frame Time)) (g g' : Game) :
  Game_start' frames g = StillRunning g' ->
  view g' = viewAfter (view g) (concat (map (processed (multiThread_ g)) frames))
  /\ match currentScene_ g with
     | Some sc =>
         exists sc' : Scene,
           currentScene_ g' = Some sc'
           /\ scene_world_ sc'
              = foldl (fun world fr => ECSWorld_update (elapsed_ fr) world)
                  (scene_world_ sc) frames
     | None => currentScene_ g' = None
     end.
Proof.
  unfold Game_start. intros Hs.
  destruct (negb (Status_eqb (status_ g) Ready)); [discriminate|].
  destruct (multiThread_ g && negb (Window_alive (window_ g))); [discriminate|].
  cbv zeta in Hs.
  match type of Hs with
  | context [mainLoop _ _ frames ?x 0] =>
      assert (view x = view g /\ multiThread_ x = multiThread_ g
              /\ currentScene_ x = currentScene_ g) as (Hv & Hm & Hc)
        by (cbn [multiThread_ set_status act]; destruct (multiThread_ g) eqn:Hmt;
            cbn [multiThread_ set_status act]; rewrite ?Hmt; done);
      destruct (mainLoop' frames x 0) eqn:Hl; try discriminate;
      inversion Hs; subst; apply mainLoop_rest in Hl; rewrite Hv, Hm, Hc in Hl; exact Hl
  end.
Qed.

(** X18. While the loop turns, the view is that of the last [Resized]
    event processed since [start], or the one it was when none has been:
    no other event, no quit and no update changes it, and a resize is
    taken whether or not there is a scene. *)
Theorem view_follows_last_resize (frames : list (Frame Time)) (g g' : Game) :
  Game_start' frames g = StillRunning g' ->
  view g' = viewAfter (view g) (concat (map (processed (multiThread_ g)) frames)).
Proof. intros Hs. by apply start_rest_aux in Hs as [Hv _]. Qed.

(** X19. While the loop turns, every turn updates the ECS world of the
    scene once, with the time elapsed at that turn, whatever the events of
    the turn, whether or not the lock of the window was obtained and
    whatever the hooks of the scene answer; the scene stays the current
    one.  Without a scene there is none afterwards either. *)
Theorem every_turn_updates_the_world (frames : list (Frame Time)) (g g' : Game) :
  Game_start' frames g = StillRunning g' ->
  match currentScene_ g with
  | Some sc =>
      exists sc' : Scene,
        currentScene_ g' = Some sc'
        /\ scene_world_ sc'
           = foldl (fun world fr => ECSWorld_update (elapsed_ fr) world)
               (scene_world_ sc) frames
  | None => currentScene_ g' = None
  end.
Proof. intros Hs. by apply start_rest_aux in Hs as [_ Hw]. Qed.

End GameCoverage.

(** ** The theorems at the scenarios *)


Lemma missing_body_is_noop_witness :
  body_ demo_missing = None
  /\ (forall bw : b2World spec_float,
        syncOutOfSync (mkTransform (mkVector2f (of_int 5) (of_int 5)) (of_int 0))
          demo_missing bw = Some (demo_missing, bw))
  /\ exists (w' : list (Entity spec_float)) (ps' : PhysicsSystem spec_float)
            (e' : Entity spec_float),
       demo_update (of_int 1 /^ of_int 30)%flt = Some (w', ps')
       /\ w' !! 1 = Some e'
       /\ transform e' = mkTransform (mkVector2f (of_int 5) (of_int 5)) (of_int 0)
       /\ rigidBody e' = mkRigidBody None (demo_vec 0 0) (of_int 0) true [].
Proof.
  pose proof (missing_body_is_noop f60 5 8 3 toy_Step
                (mkTransform (mkVector2f (of_int 5) (of_int 5)) (of_int 0))
                demo_missing eq_refl) as (Hsync & _ & _ & Hframe).
  split; [reflexivity|]. split; [exact Hsync|].
  assert (exists r, demo_update (of_int 1 /^ of_int 30)%flt = Some r) as [[w' ps'] Hu].
  { vm_compute. eexists. reflexivity. }
  destruct (Hframe demo_world _ demo_system w' ps' 1
              (mkEntity 1 (mkTransform (mkVector2f (of_int 5) (of_int 5)) (of_int 0))
                 demo_missing) Hu eq_refl eq_refl eq_refl) as (e' & Hi & Ht & Hr).
  exists w', ps', e'. auto.
Defined.

Lemma rotation_snaps_to_body_angle_witness :
  exists (w' : list (Entity spec_float)) (ps' : PhysicsSystem spec_float)
         (e' : Entity spec_float) (bd : b2Body spec_float),
    demo_update (of_int 1 /^ of_int 30)%flt = Some (w', ps')
    /\ w' !! 0 = Some e'
    /\ m_bodies (world_ ps') !! 1 = Some bd
    /\ is_static (m_type bd) = false
    /\ rotation (transform e') = m_angle bd
    /\ m_angle bd = of_int 1.
Proof.
  assert (exists r, demo_update (of_int 1 /^ of_int 30)%flt = Some r) as [[w' ps'] Hu].
  { vm_compute. eexists. reflexivity. }
  assert (exists e', w' !! 0 = Some e' /\ body_ (rigidBody e') = Some 1) as (e' & Hi & Hb).
  { vm_compute in Hu. inversion Hu; subst. eexists. split; reflexivity. }
  assert (exists bd, m_bodies (world_ ps') !! 1 = Some bd
                     /\ is_static (m_type bd) = false /\ m_angle bd = of_int 1)
    as (bd & Hbd & Hst & Hang).
  { vm_compute in Hu. inversion Hu; subst. eexists. repeat split; vm_compute; reflexivity. }
  exists w', ps', e', bd. repeat split; auto.
  exact (proj2 (rotation_snaps_to_body_angle f60 5 8 3 toy_Step 1 bd Hst)
           demo_world _ demo_system w' ps' 0 e' Hu Hi Hb Hbd).
Defined.


Lemma step_extraction_contract_witness :
  (exists (w' : list (Entity spec_float)) (ps' : PhysicsSystem spec_float)
          (calls : list Call),
      demo_update (of_int 1) = Some (w', ps')
      /\ trace_ ps' = trace_ demo_system ++ calls
      /\ stepsExecuted calls = 5
      /\ timeStepAccumilator_ ps' = S754_finite false 8947808 (-29))
  /\ (exists (ps' : PhysicsSystem Q) (calls : list Call),
        update (1 # 60)%Q 5 8 3 toy_Step [] 1%Q freshQ = Some ([], ps')
        /\ trace_ ps' = trace_ freshQ ++ calls
        /\ stepsExecuted calls = 5
        /\ (timeStepAccumilator_ ps' == timeStepAccumilator_ freshQ)%Q).
Proof.
  split.
  - assert (exists r, demo_update (of_int 1) = Some r) as [[w' ps'] Hu].
    { vm_compute. eexists. reflexivity. }
    destruct (proj2 (proj2 step_extraction_contract) 8%Z 3%Z toy_Step demo_world demo_system
                w' ps' eq_refl Hu) as (calls & _ & Ht & Hn & Ha & _).
    exists w', ps', calls. auto.
  - assert (exists ps', update (1 # 60)%Q 5 8 3 toy_Step [] 1%Q freshQ = Some ([], ps'))
      as [ps' Hu].
    { vm_compute. eexists. reflexivity. }
    assert (0 <= timeStepAccumilator_ freshQ)%Q as H0 by (vm_compute; discriminate).
    assert (timeStepAccumilator_ freshQ < 1 # 60)%Q as H1 by reflexivity.
    destruct (proj1 (proj2 step_extraction_contract) 8%Z 3%Z toy_Step [] freshQ [] ps' H0 H1 Hu)
      as (calls & _ & Ht & Hn & Ha).
    exists ps', calls. auto.
Defined.


Lemma quit_without_scene_witness :
  exists g' : Game nat nat nat,
    Game_quit (demo_game false None) = Some g'
    /\ status_ g' = ShuttingDown
    /\ window_ g' = WindowDeleted
    /\ actions g'
       = [ActSetStatus Quitting; ActSetStatus ShuttingDown; ActWindowClose; ActWindowDelete].
Proof.
  destruct (quit_without_scene (demo_game false None) eq_refl eq_refl)
    as (g' & Hq & Hs & Hw & Ha & _).
  exists g'. auto.
Defined.

Lemma quit_veto_witness :
  exists g' : Game nat nat nat,
    Game_quit (demo_game true (Some (demo_scene (demo_hook true)))) = Some g'
    /\ status_ g' = Quitting
    /\ window_ g' = WindowOpen.
Proof.
  destruct (quit_veto demo_ECSWorld_update demo_handleInput
              (demo_game true (Some (demo_scene (demo_hook true))))
              (demo_scene (demo_hook true)) eq_refl eq_refl)
    as (g' & Hq & _ & Hveto & Hstay).
  exists g'. split; [exact Hq|].
  assert (status_ g' = Quitting) as Hs by (apply Hveto; split; reflexivity).
  split; [exact Hs|]. exact (proj1 (Hstay Hs)).
Defined.



(** ** The properties beyond the claims, at the scenarios *)

Lemma update_consumes_flags_and_lists_witness :
  exists (w' : list (Entity spec_float)) (ps' : PhysicsSystem spec_float),
    demo_update (of_int 1 /^ of_int 30)%flt = Some (w', ps')
    /\ Forall2
         (fun e e' =>
            entity_id e' = entity_id e
            /\ body_ (rigidBody e') = body_ (rigidBody e)
            /\ disposeList_ (rigidBody e') = []
            /\ isOutOfSync_ (rigidBody e')
               = match body_ (rigidBody e) with
                 | Some _ => false
                 | None => isOutOfSync_ (rigidBody e)
                 end)
         demo_world w'.
Proof.
  assert (exists r, demo_update (of_int 1 /^ of_int 30)%flt = Some r) as [[w' ps'] Hu].
  { vm_compute. eexists. reflexivity. }
  exists w', ps'. split; [exact Hu|].
  exact (update_consumes_flags_and_lists f60 5 8 3 toy_Step demo_world _ demo_system w' ps' Hu).
Defined.

Lemma update_frees_disposed_witness :
  exists (w' : list (Entity spec_float)) (ps' : PhysicsSystem spec_float),
    demo_update (of_int 1 /^ of_int 30)%flt = Some (w', ps')
    /\ disposed demo_world = [3]
    /\ NoDup (disposed demo_world)
    /\ m_bodies (world_ ps') !! 3 = None.
Proof.
  assert (exists r, demo_update (of_int 1 /^ of_int 30)%flt = Some r) as [[w' ps'] Hu].
  { vm_compute. eexists. reflexivity. }
  exists w', ps'. split; [exact Hu|]. split; [reflexivity|].
  destruct (update_frees_disposed f60 5 8 3 toy_Step demo_world _ demo_system w' ps' Hu)
    as [Hnd Hgone].
  split; [exact Hnd|]. apply Hgone. apply list_elem_of_In. simpl. by left.
Defined.

Lemma toy_Step_keeps_bodies (ts : spec_float) (vi pi : Z) (bw : b2World spec_float) :
  dom (m_bodies (toy_Step ts vi pi bw)) =@{gset nat} dom (m_bodies bw).
Proof. unfold toy_Step. simpl. apply dom_fmap_L. Qed.

Lemma update_body_count_witness :
  exists (w' : list (Entity spec_float)) (ps' : PhysicsSystem spec_float),
    demo_update (of_int 1 /^ of_int 30)%flt = Some (w', ps')
    /\ b2World_GetBodyCount (world_ demo_system) = 3
    /\ length (disposed demo_world) = 1
    /\ b2World_GetBodyCount (world_ ps') + 1 = 3.
Proof.
  assert (exists r, demo_update (of_int 1 /^ of_int 30)%flt = Some r) as [[w' ps'] Hu].
  { vm_compute. eexists. reflexivity. }
  exists w', ps'. split; [exact Hu|]. split; [vm_compute; reflexivity|]. split; [reflexivity|].
  destruct (update_body_count f60 5 8 3 toy_Step toy_Step_keeps_bodies
              demo_world _ demo_system w' ps' Hu) as (_ & _ & Hn).
  assert (b2World_GetBodyCount (world_ demo_system) = 3) as H3 by (vm_compute; reflexivity).
  rewrite H3 in Hn. exact Hn.
Defined.

Lemma update_dangling_body_witness :
  m_bodies (world_ demo_system) !! 7 = None
  /\ update f60 5 8 3 toy_Step demo_dangling (of_int 1 /^ of_int 30)%flt demo_system = None.
Proof.
  assert (m_bodies (world_ demo_system) !! 7 = None) as Hn by (vm_compute; reflexivity).
  split; [exact Hn|].
  exact (update_dangling_body f60 5 8 3 toy_Step demo_dangling _ demo_system 0
           (mkEntity 0 (mkTransform (mkVector2f (of_int 0) (of_int 0)) (of_int 0))
              (mkRigidBody (Some 7) (demo_vec 0 0) (of_int 0) false []))
           7 eq_refl eq_refl Hn).
Defined.

Lemma update_use_after_dispose_witness :
  update f60 5 8 3 toy_Step demo_reuse (of_int 1 /^ of_int 30)%flt demo_system = None.
Proof.
  refine (proj1 (update_use_after_dispose f60 5 8 3 toy_Step demo_reuse _ demo_system 0 1
                   (mkEntity 0 (mkTransform (mkVector2f (of_int 0) (of_int 0)) (of_int 0))
                      (mkRigidBody None (demo_vec 0 0) (of_int 0) false [1]))
                   (mkEntity 1 (mkTransform (mkVector2f (of_int 0) (of_int 0)) (of_int 0))
                      (mkRigidBody (Some 1) (demo_vec 0 0) (of_int 0) false []))
                   1 eq_refl _ eq_refl eq_refl) _).
  - apply list_elem_of_In. simpl. by left.
  - lia.
Defined.

Lemma update_clears_forces_witness :
  exists (w' : list (Entity spec_float)) (ps' : PhysicsSystem spec_float)
         (bd0 bd : b2Body spec_float),
    demo_update (of_int 1 /^ of_int 30)%flt = Some (w', ps')
    /\ m_bodies (world_ demo_system) !! 1 = Some bd0
    /\ m_force bd0 = demo_vec 7 0
    /\ m_bodies (world_ ps') !! 1 = Some bd
    /\ m_force bd = mkb2Vec2 (of_int 0) (of_int 0)
    /\ m_torque bd = of_int 0.
Proof.
  assert (exists r, demo_update (of_int 1 /^ of_int 30)%flt = Some r) as [[w' ps'] Hu].
  { vm_compute. eexists. reflexivity. }
  assert (exists bd, m_bodies (world_ ps') !! 1 = Some bd) as [bd Hbd].
  { vm_compute in Hu. inversion Hu; subst. eexists. vm_compute. reflexivity. }
  exists w', ps'. eexists. exists bd. split; [exact Hu|]. split; [vm_compute; reflexivity|].
  split; [reflexivity|]. split; [exact Hbd|].
  exact (update_clears_forces f60 5 8 3 toy_Step demo_world _ demo_system w' ps' 1 bd Hu Hbd).
Defined.

Lemma update_static_body_keeps_transform_witness :
  exists (w' : list (Entity spec_float)) (ps' : PhysicsSystem spec_float)
         (e' : Entity spec_float),
    demo_update (of_int 1 /^ of_int 30)%flt = Some (w', ps')
    /\ w' !! 2 = Some e'
    /\ transform e' = mkTransform (mkVector2f (of_int 0) (of_int 0)) (of_int 0).
Proof.
  assert (exists r, demo_update (of_int 1 /^ of_int 30)%flt = Some r) as [[w' ps'] Hu].
  { vm_compute. eexists. reflexivity. }
  assert (exists e', w' !! 2 = Some e') as (e' & Hi).
  { vm_compute in Hu. inversion Hu; subst. eexists. reflexivity. }
  assert (exists bd, m_bodies (world_ ps') !! 2 = Some bd /\ is_static (m_type bd) = true)
    as (bd & Hbd & Hst).
  { vm_compute in Hu. inversion Hu; subst. eexists. split; vm_compute; reflexivity. }
  exists w', ps', e'. split; [exact Hu|]. split; [exact Hi|].
  exact (update_static_body_keeps_transform f60 5 8 3 toy_Step demo_world _ demo_system w' ps' 2
           (mkEntity 2 (mkTransform (mkVector2f (of_int 0) (of_int 0)) (of_int 0))
              (mkRigidBody (Some 2) (demo_vec 0 0) (of_int 0) false []))
           e' 2 bd Hu eq_refl Hi eq_refl Hbd Hst).
Defined.

Lemma previous_pose_is_before_last_step_witness :
  exists (w' : list (Entity spec_float)) (ps' : PhysicsSystem spec_float)
         (e' : Entity spec_float) (before : b2World spec_float) (bd : b2Body spec_float),
    demo_update (of_int 1 /^ of_int 30)%flt = Some (w', ps')
    /\ w' !! 0 = Some e'
    /\ m_bodies (world_ ps')
       ⊆ m_bodies (b2World_ClearForces (toy_Step f60 8 3 before))
    /\ m_bodies before !! 1 = Some bd
    /\ (is_static (m_type bd) = false ->
        previousPosition_ (rigidBody e') = m_position bd
        /\ previousAngle_ (rigidBody e') = m_angle bd).
Proof.
  assert (exists r, demo_update (of_int 1 /^ of_int 30)%flt = Some r) as [[w' ps'] Hu].
  { vm_compute. eexists. reflexivity. }
  assert (exists e', w' !! 0 = Some e' /\ body_ (rigidBody e') = Some 1) as (e' & Hi & Hb).
  { vm_compute in Hu. inversion Hu; subst. eexists. split; reflexivity. }
  assert (to_int (ffloor ((timeStepAccumilator_ demo_system +^ (of_int 1 /^ of_int 30)) /^ f60)%flt)
          = Some 2%Z) as Hsteps by (vm_compute; reflexivity).
  destruct (previous_pose_is_before_last_step f60 5 8 3 toy_Step demo_world _ demo_system
              w' ps' 2 0 e' 1 Hu Hsteps eq_refl eq_refl Hi Hb) as (before & bd & Hsub & Hbd & Hprev).
  exists w', ps', e', before, bd. auto.
Defined.

Lemma resync_then_interpolate_witness :
  exists (r' : RigidBody spec_float) (bw' : b2World spec_float),
    syncOutOfSync (mkTransform (mkVector2f (of_int 300) (of_int 400)) (of_int 1))
      (mkRigidBody (Some 1) (demo_vec 0 0) (of_int 0) true []) (world_ demo_system)
    = Some (r', bw')
    /\ isOutOfSync_ r' = false
    /\ previousPosition_ r' = demo_vec 3 4
    /\ exists t' : Transform spec_float,
         smoothState (set_world bw' demo_system)
           (mkTransform (mkVector2f (of_int 300) (of_int 400)) (of_int 1)) r' = Some t'
         /\ rotation t' = of_int 1.
Proof.
  assert (exists bd, m_bodies (world_ demo_system) !! 1 = Some bd
                     /\ is_static (m_type bd) = false) as (bd & Hbd & Hst).
  { eexists. split; vm_compute; reflexivity. }
  destruct (proj1 resync_then_interpolate spec_float binary32
              (mkTransform (mkVector2f (of_int 300) (of_int 400)) (of_int 1))
              (mkRigidBody (Some 1) (demo_vec 0 0) (of_int 0) true []) (world_ demo_system)
              1 bd eq_refl eq_refl Hbd)
    as (r' & bw' & Hs & Hf & Hp & _ & _ & _ & _ & Hsm).
  exists r', bw'. split; [exact Hs|]. split; [exact Hf|]. split.
  - rewrite Hp. vm_compute. reflexivity.
  - destruct (Hsm Hst (set_world bw' demo_system) eq_refl) as (t' & Ht & Hr & _).
    exists t'. split; [exact Ht|]. exact Hr.
Defined.

Lemma demo_ticks_run :
  exists g' : Game nat nat nat,
    Game_start demo_ECSWorld_update demo_handleInput demo_ticks (demo_game false None)
    = StillRunning g'.
Proof. vm_compute. eexists. reflexivity. Qed.

Lemma demo_veto_run :
  exists g' : Game nat nat nat,
    Game_start demo_ECSWorld_update demo_handleInput demo_frames
      (demo_game true (Some (demo_scene (demo_hook true)))) = StillRunning g'
    /\ status_ g' = Quitting.
Proof. vm_compute. eexists. split; reflexivity. Qed.

Lemma demo_resize_run :
  exists g' : Game nat nat nat,
    Game_start demo_ECSWorld_update demo_handleInput demo_quiet_frames (demo_game true None)
    = StillRunning g'.
Proof. vm_compute. eexists. reflexivity. Qed.

Lemma demo_scene_run :
  exists g' : Game nat nat nat,
    Game_start demo_ECSWorld_update demo_handleInput demo_quiet_frames
      (demo_game true (Some (demo_scene demo_nil))) = StillRunning g'.
Proof. vm_compute. eexists. reflexivity. Qed.

Lemma demo_finished_run :
  exists g' : Game nat nat nat,
    Game_start demo_ECSWorld_update demo_handleInput demo_frames (demo_game false None)
    = Finished g'.
Proof. vm_compute. eexists. reflexivity. Qed.

Lemma loop_runs_until_closed_witness :
  exists g' : Game nat nat nat,
    Game_start demo_ECSWorld_update demo_handleInput demo_quiet_frames
      (demo_game true (Some (demo_scene demo_nil))) = StillRunning g'
    /\ status_ g' = Running
    /\ window_ g' = WindowOpen
    /\ protocol (actions g') = [ActSetStatus Running].
Proof.
  refine (loop_runs_until_closed demo_ECSWorld_update demo_handleInput demo_quiet_frames
            (demo_game true (Some (demo_scene demo_nil))) eq_refl eq_refl _).
  repeat constructor.
Defined.

Lemma second_close_is_undefined_witness :
  Game_start demo_ECSWorld_update demo_handleInput
    [demo_idle; demo_double_close; demo_idle] (demo_game false None) = Undefined.
Proof.
  refine (second_close_is_undefined demo_ECSWorld_update demo_handleInput
            (demo_game false None) [demo_idle] demo_double_close [demo_idle]
            [] [OtherEvent 1] [] eq_refl eq_refl _ eq_refl _ _ _).
  - repeat constructor.
  - constructor.
  - repeat constructor.
  - exact I.
Defined.

Lemma single_thread_start_is_defined_witness :
  Game_start demo_ECSWorld_update demo_handleInput demo_frames
    (demo_game false (Some (demo_scene demo_nil))) <> Undefined.
Proof.
  refine (single_thread_start_is_defined demo_ECSWorld_update demo_handleInput demo_frames
            (demo_game false (Some (demo_scene demo_nil))) eq_refl eq_refl _).
  repeat constructor.
Defined.

Lemma fps_counts_turns_witness :
  exists g' : Game nat nat nat,
    Game_start demo_ECSWorld_update demo_handleInput demo_ticks (demo_game false None)
    = StillRunning g'
    /\ fps_ g' = 4.
Proof.
  destruct demo_ticks_run as [g' Hs]. exists g'. split; [exact Hs|].
  refine (proj2 (proj2 (fps_counts_turns demo_ECSWorld_update demo_handleInput
                          demo_ticks (demo_game false None) g' Hs))
            [demo_idle; demo_idle] demo_tick [demo_idle; demo_idle; demo_idle] demo_tick
            [demo_idle] eq_refl eq_refl _ eq_refl _); repeat constructor.
Defined.


Lemma view_follows_last_resize_witness :
  exists g' : Game nat nat nat,
    Game_start demo_ECSWorld_update demo_handleInput demo_quiet_frames (demo_game true None)
    = StillRunning g'
    /\ view (demo_game true None) = (800, 600)
    /\ view g' = (640, 480).
Proof.
  destruct demo_resize_run as [g' Hs].
  exists g'. split; [exact Hs|]. split; [reflexivity|].
  exact (view_follows_last_resize demo_ECSWorld_update demo_handleInput
           demo_quiet_frames (demo_game true None) g' Hs).
Defined.

Lemma every_turn_updates_the_world_witness :
  exists (g' : Game nat nat nat) (sc' : Scene nat nat nat),
    Game_start demo_ECSWorld_update demo_handleInput demo_quiet_frames
      (demo_game true (Some (demo_scene demo_nil))) = StillRunning g'
    /\ currentScene_ g' = Some sc'
    /\ scene_world_ sc' = 33.
Proof.
  destruct demo_scene_run as [g' Hs].
  destruct (every_turn_updates_the_world demo_ECSWorld_update demo_handleInput
              demo_quiet_frames (demo_game true (Some (demo_scene demo_nil))) g' Hs)
    as (sc' & Hc & Hw).
  exists g', sc'. split; [exact Hs|]. split; [exact Hc|]. exact Hw.
Defined.

Lemma start_needs_ready_witness :
  exists g' : Game nat nat nat,
    Game_start demo_ECSWorld_update demo_handleInput demo_frames (demo_game false None)
    = Finished g'
    /\ status_ g' = Uninitialised
    /\ Game_start demo_ECSWorld_update demo_handleInput demo_frames g' = Finished g'.
Proof.
  destruct demo_finished_run as [g' Hs].
  destruct (proj2 (start_needs_ready demo_ECSWorld_update demo_handleInput demo_frames
                     (demo_game false None)) g' eq_refl Hs) as [Hu Hagain].
  exists g'. split; [exact Hs|]. split; [exact Hu|]. apply Hagain.
Defined.


